(** * Certificate lifecycle of the minikube bootstrapper

    A shallow embedding of [pkg/minikube/bootstrapper/certs.go]: the
    validity checker ([isValid], [isKubeadmCertValid]), the CA
    provisioner ([generateSharedCACerts]), the leaf certificate
    provisioner ([generateProfileCerts]), the trust store collector and
    installer ([collectCACerts], [installCertSymlinks]) and the kubeadm
    certificate refresher ([generateKubeadmCerts]).

    Go strings are [string] (sequences of 8-bit characters), byte slices
    are [list byte], Go maps are [gmap], the local file system is a
    finite map from paths to files, and every call that leaves the
    process (remote commands, certificate generation, the lock) is
    recorded in an explicit trace. *)

From Stdlib Require Import ZArith List Ascii String Strings.Byte Bool Lia.
From stdpp Require Import base option list gmap strings sorting.
Import ListNotations.

Local Open Scope string_scope.
Local Open Scope list_scope.

(* ===================================================================== *)
(** * Part I: definitions                                                 *)
(* ===================================================================== *)

(** ** Go's [strings] package, on 8-bit characters *)

Module Strings.

(** [strings.HasPrefix(s, prefix)] *)
Definition HasPrefix (s pre : string) : bool := String.prefix pre s.

(** [strings.TrimPrefix(s, prefix)]: [s] without the leading [prefix],
    [s] itself when it does not start with it. *)
Definition TrimPrefix (s pre : string) : string :=
  if HasPrefix s pre
  then String.substring (String.length pre) (String.length s - String.length pre) s
  else s.

(** [strings.HasSuffix(s, suffix)] *)
Definition HasSuffix (s suf : string) : bool :=
  (String.length suf <=? String.length s)%nat &&
  String.eqb (String.substring (String.length s - String.length suf)
                               (String.length suf) s) suf.

(** [strings.TrimSuffix(s, suffix)] *)
Definition TrimSuffix (s suf : string) : string :=
  if HasSuffix s suf
  then String.substring 0 (String.length s - String.length suf) s
  else s.

(** ASCII case folding of one character: ['A'..'Z'] to ['a'..'z']. *)
Definition lower_ascii (c : ascii) : ascii :=
  let n := nat_of_ascii c in
  if ((65 <=? n) && (n <=? 90))%nat then ascii_of_nat (n + 32) else c.

(** [strings.ToLower(s)].  Go also folds characters outside ASCII; no
    such character folds to one of the letters of [".crt"] or [".pem"],
    so the extension test of [collectCACerts] sees the same result. *)
Fixpoint ToLower (s : string) : string :=
  match s with
  | EmptyString => EmptyString
  | String c r => String (lower_ascii c) (ToLower r)
  end.

(** [strings.Join(elems, sep)] *)
Fixpoint Join (elems : list string) (sep : string) : string :=
  match elems with
  | [] => ""
  | [x] => x
  | x :: rest => x +:+ sep +:+ Join rest sep
  end.

(** [strings.Split(s, "/")]: the components of [s] between slashes. *)
Fixpoint split_slash (s : string) (cur : string) : list string :=
  match s with
  | EmptyString => [cur]
  | String c r =>
      if Ascii.eqb c "/" then cur :: split_slash r ""
      else split_slash r (cur +:+ String c "")
  end.

End Strings.

(** ** Go's [path] and [path/filepath] packages (Unix separators) *)

Module Path.

Definition isSep (c : ascii) : bool := Ascii.eqb c "/".

(** One step of the lexical processing of [path.Clean]: [acc] holds the
    components kept so far, innermost first. *)
Definition clean_step (rooted : bool) (acc : list string) (c : string) : list string :=
  if String.eqb c "" then acc
  else if String.eqb c "." then acc
  else if String.eqb c ".." then
    match acc with
    | [] => if rooted then [] else [".."]
    | top :: rest => if String.eqb top ".." then ".." :: acc else rest
    end
  else c :: acc.

(** [path.Clean(p)]: collapse repeated separators, drop ["."], resolve
    inner [".."], drop [".."] at the root; the empty result is ["."]. *)
Definition Clean (p : string) : string :=
  let rooted := String.prefix "/" p in
  let comps := fold_left (clean_step rooted) (Strings.split_slash p "") [] in
  let body := Strings.Join (rev comps) "/" in
  if rooted then "/" +:+ body
  else if String.eqb body "" then "." else body.

(** [path.Join(elem...)] and, on Unix, [filepath.Join(elem...)]: leading
    empty elements are skipped, the rest is joined by slashes and
    cleaned; the result is empty when every element is empty. *)
Fixpoint Join (elems : list string) : string :=
  match elems with
  | [] => ""
  | e :: rest =>
      if String.eqb e "" then Join rest
      else Clean (Strings.Join elems "/")
  end.

(** The backwards scan of [filepath.Ext]: [rpath] is the path read from
    its end, [suffix] what has been passed over. *)
Fixpoint ext_scan (rpath : list ascii) (suffix : list ascii) : list ascii :=
  match rpath with
  | [] => []
  | c :: r =>
      if isSep c then []
      else if Ascii.eqb c "." then c :: suffix
      else ext_scan r (c :: suffix)
  end.

(** [filepath.Ext(path)]: the suffix beginning at the final dot in the
    final element of [path]; empty if there is no dot. *)
Definition Ext (p : string) : string :=
  string_of_list_ascii (ext_scan (rev (list_ascii_of_string p)) []).

Fixpoint strip_seps (rpath : list ascii) : list ascii :=
  match rpath with
  | c :: r => if isSep c then strip_seps r else rpath
  | [] => []
  end.

Fixpoint last_elem (rpath : list ascii) (acc : list ascii) : list ascii :=
  match rpath with
  | [] => acc
  | c :: r => if isSep c then acc else last_elem r (c :: acc)
  end.

(** [path.Base(path)] and [filepath.Base(path)]: the last element of
    the path, after removing trailing slashes; ["."] for the empty
    path and ["/"] for a path of slashes only. *)
Definition Base (p : string) : string :=
  if String.eqb p "" then "."
  else
    let stripped := strip_seps (rev (list_ascii_of_string p)) in
    let e := last_elem stripped [] in
    match e with
    | [] => "/"
    | _ => string_of_list_ascii e
    end.

End Path.

(** A plain file name: not empty, not a dot name, no separator in it. *)
Definition isName (s : string) : bool :=
  negb (String.eqb s EmptyString) && negb (String.eqb s ".")
  && negb (String.eqb s "..")
  && forallb (fun c => negb (Path.isSep c)) (list_ascii_of_string s).

#[global] Arguments Path.Join : simpl never.
#[global] Arguments Path.Clean : simpl never.
#[global] Arguments Path.Base : simpl never.
#[global] Arguments Path.Ext : simpl never.


(** ** SHA-1 ([crypto/sha1], FIPS 180-4) on 32-bit words held in [Z] *)

Module SHA1.
Local Open Scope Z_scope.

Definition w32 (x : Z) : Z := Z.land x 0xFFFFFFFF.

Definition rotl (n x : Z) : Z :=
  w32 (Z.lor (Z.shiftl x n) (Z.shiftr x (32 - n))).

Definition f (t : nat) (b c d : Z) : Z :=
  if (t <? 20)%nat then Z.lor (Z.land b c) (Z.land (Z.lxor b 0xFFFFFFFF) d)
  else if (t <? 40)%nat then Z.lxor (Z.lxor b c) d
  else if (t <? 60)%nat then Z.lor (Z.lor (Z.land b c) (Z.land b d)) (Z.land c d)
  else Z.lxor (Z.lxor b c) d.

Definition K (t : nat) : Z :=
  if (t <? 20)%nat then 0x5A827999
  else if (t <? 40)%nat then 0x6ED9EBA1
  else if (t <? 60)%nat then 0x8F1BBCDC
  else 0xCA62C1D6.

Definition state : Type := Z * Z * Z * Z * Z.

Definition init : state :=
  (0x67452301, 0xEFCDAB89, 0x98BADCFE, 0x10325476, 0xC3D2E1F0).

(** [n] rounds starting at round [t]; [win] holds the sixteen message
    schedule words [w_t .. w_(t+15)]. *)
Fixpoint rounds (n t : nat) (win : list Z) (st : state) : state :=
  match n with
  | O => st
  | S n' =>
      let '(a, b, c, d, e) := st in
      let wt := nth 0 win 0 in
      let tmp := w32 (rotl 5 a + f t b c d + e + K t + wt) in
      let wnext :=
        rotl 1 (Z.lxor (Z.lxor (Z.lxor (nth 13 win 0) (nth 8 win 0))
                               (nth 2 win 0)) (nth 0 win 0)) in
      rounds n' (S t) (tl win ++ [wnext]) (tmp, a, rotl 30 b, c, d)
  end.

(** Big-endian words of a block of bytes. *)
Fixpoint words (bs : list Z) : list Z :=
  match bs with
  | b0 :: b1 :: b2 :: b3 :: r =>
      (Z.shiftl b0 24 + Z.shiftl b1 16 + Z.shiftl b2 8 + b3) :: words r
  | _ => []
  end.

Definition block (st : state) (blk : list Z) : state :=
  let '(a, b, c, d, e) := st in
  let '(a', b', c', d', e') := rounds 80 0 (words blk) st in
  (w32 (a + a'), w32 (b + b'), w32 (c + c'), w32 (d + d'), w32 (e + e')).

Fixpoint blocks (n : nat) (st : state) (bs : list Z) : state :=
  match n with
  | O => st
  | S n' => blocks n' (block st (firstn 64 bs)) (skipn 64 bs)
  end.

Definition be_bytes (nbytes : nat) (x : Z) : list Z :=
  map (fun i => Z.land (Z.shiftr x (8 * Z.of_nat i)) 0xFF) (rev (seq 0 nbytes)).

(** Padding: a one bit, zeros up to 56 modulo 64, then the bit length
    on eight bytes. *)
Definition pad (msg : list Z) : list Z :=
  let len := Z.of_nat (List.length msg) in
  let zeros := Z.to_nat ((55 - len) mod 64) in
  msg ++ [0x80] ++ repeat 0 zeros ++ be_bytes 8 (8 * len).

Definition digest_words (msg : list Z) : state :=
  let p := pad msg in
  blocks (List.length p / 64) init p.

Definition word_bytes (x : Z) : list byte :=
  map (fun i => match Byte.of_N (Z.to_N (Z.land (Z.shiftr x (8 * Z.of_nat i)) 0xFF)) with
                | Some b => b
                | None => x00
                end) [3; 2; 1; 0]%nat.

(** [sha1.Sum(data)]: the 20-byte digest. *)
Definition Sum (data : list byte) : list byte :=
  let '(a, b, c, d, e) := digest_words (map (fun b => Z.of_N (Byte.to_N b)) data) in
  word_bytes a ++ word_bytes b ++ word_bytes c ++ word_bytes d ++ word_bytes e.

End SHA1.

(** ** [fmt.Sprintf("%x", bytes)]: lower-case hexadecimal *)

Definition hex_digit (n : N) : ascii :=
  match n with
  | 0 => "0" | 1 => "1" | 2 => "2" | 3 => "3" | 4 => "4" | 5 => "5"
  | 6 => "6" | 7 => "7" | 8 => "8" | 9 => "9" | 10 => "a" | 11 => "b"
  | 12 => "c" | 13 => "d" | 14 => "e" | _ => "f"
  end%N%char.

Fixpoint hex (bs : list byte) : string :=
  match bs with
  | [] => ""
  | b :: r =>
      let n := Byte.to_N b in
      String (hex_digit (N.div n 16)) (String (hex_digit (N.modulo n 16)) (hex r))
  end.

(** ** [sort.Strings]: ascending byte-wise lexicographic order *)

Definition string_le (s1 s2 : string) : Prop := String.leb s1 s2 = true.

#[global] Instance string_le_dec : RelDecision string_le.
Proof. intros s1 s2. unfold string_le. apply _. Defined.

(** The sorted permutation of a list of strings is unique, so the merge
    sort below returns what Go's [sort.Strings] returns. *)
Definition sort_Strings (l : list string) : list string := merge_sort string_le l.

(** ** Go errors *)

(** An [error] value: one raised by a collaborator outside this file, or
    one wrapped with a message by [errors.Wrap], [errors.Wrapf] or
    [fmt.Errorf("...: %v", err)].  [None : option error] is Go's [nil]. *)
Inductive error : Type :=
| External (msg : string)
| ErrNotExist (path : string)
| Wrap (cause : error) (msg : string).

(** [os.IsNotExist(err)] *)
Definition os_IsNotExist (e : error) : bool :=
  match e with
  | ErrNotExist _ => true
  | _ => false
  end.

(** ** The local file system *)

(** A file is its contents and whether this process may open it. *)
Record File : Type := mkFile { readable : bool; contents : list byte }.

Abbreviation FS := (gmap string File).

(** [os.ReadFile(path)]: [None] is a non-nil error. *)
Definition os_ReadFile (fs : FS) (path : string) : option (list byte) :=
  match fs !! path with
  | Some f => if readable f then Some (contents f) else None
  | None => None
  end.

(** The error of a failed [os.ReadFile(path)]. *)
Definition os_ReadFile_error (fs : FS) (path : string) : error :=
  match fs !! path with
  | Some _ => External ("open " +:+ path +:+ ": permission denied")
  | None => ErrNotExist path
  end.

(** [os.Remove(path)], whose error the callers drop; the model removes
    the entry when there is one. *)
Definition os_Remove (path : string) (fs : FS) : FS := delete path fs.

(** [canRead] returns true if the file represented by path exists and is
    readable, otherwise false. *)
Definition canRead (fs : FS) (path : string) : bool :=
  match fs !! path with
  | Some f => readable f
  | None => false
  end.

(** ** PEM and X.509 ([encoding/pem], [crypto/x509]) *)

Record Block : Type := mkBlock { Type_ : string; Bytes : list byte }.

(** Instants are integers; [t.Before(u)] is [t < u]. *)
Abbreviation Time := Z (only parsing).

Record Certificate : Type := mkCertificate { NotAfter : Time }.

(** The two decoders are collaborators.  [pem_Decode data] is [None]
    when [pem.Decode] finds no block, and [Some (block, rest)] otherwise,
    [rest] being what follows the block in [data]. *)
Class Codec : Type := {
  pem_Decode : list byte -> option (Block * list byte);
  pem_Decode_rest : forall data b rest,
      pem_Decode data = Some (b, rest) -> (length rest < length data)%nat;
  x509_ParseCertificate : list byte -> option Certificate
}.

(** ** Validity checker *)

Section Validity.
Context `{Codec}.

(** [isValid] checks a cert/key path and makes sure it's still valid;
    it returns the verdict and the file system it leaves. *)
Definition isValid (now : Time) (certPath keyPath : string) (fs : FS) : bool * FS :=
  if negb (canRead fs keyPath) then (false, fs)
  else
    match os_ReadFile fs certPath with
    | None => (false, os_Remove keyPath (os_Remove certPath fs))
    | Some certFile =>
        match pem_Decode certFile with
        | None => (false, os_Remove keyPath (os_Remove certPath fs))
        | Some (certData, _) =>
            match x509_ParseCertificate (Bytes certData) with
            | None => (false, os_Remove keyPath (os_Remove certPath fs))
            | Some cert =>
                if (NotAfter cert <? now)%Z
                then (false, os_Remove keyPath (os_Remove certPath fs))
                else (true, fs)
            end
        end
    end.

End Validity.

(** ** The remote execution channel ([command.Runner]) *)

Record RunResult : Type := mkRunResult { Stdout : list byte; Stderr : list byte }.

(** A command is its argument vector, [exec.Command(name, args...)]. *)
Abbreviation Cmd := (list string) (only parsing).

(** [RunCmd] runs a command on a target in state [R]; it returns the
    result, a possible error and the state of the target afterwards. *)
Class Runner (R : Type) : Type := {
  RunCmd : Cmd -> R -> (RunResult * option error) * R
}.

(** The target together with the log of the commands sent to it. *)
Record Remote (R : Type) : Type := mkRemote { target : R; sent : list Cmd }.
Arguments mkRemote {R} _ _.
Arguments target {R} _.
Arguments sent {R} _.

Section RemoteChecks.
Context `{Codec} {R : Type} `{Runner R}.

Definition run (c : Cmd) (rem : Remote R) : (RunResult * option error) * Remote R :=
  let '(res, t') := RunCmd c (target rem) in
  (res, mkRemote t' (sent rem ++ [c])).

(** [isKubeadmCertValid]: the certificate is read with [cat] on the
    target; a failed read is taken as valid. *)
Definition isKubeadmCertValid (now : Time) (certPath : string) (rem : Remote R)
  : bool * Remote R :=
  let '((rr, err), rem') := run ["cat"; certPath] rem in
  match err with
  | Some _ => (true, rem')
  | None =>
      match pem_Decode (Stdout rr) with
      | None => (false, rem')
      | Some (certData, _) =>
          match x509_ParseCertificate (Bytes certData) with
          | None => (false, rem')
          | Some cert =>
              if (NotAfter cert <? now)%Z then (false, rem') else (true, rem')
          end
      end
  end.

End RemoteChecks.

(** ** Constants of the packages [vmpath], [constants] and [oci] *)

Class Constants : Type := {
  GuestPersistentDir : string;      (* vmpath.GuestPersistentDir *)
  GuestCertAuthDir : string;        (* vmpath.GuestCertAuthDir *)
  GuestCertStoreDir : string;       (* vmpath.GuestCertStoreDir *)
  KubeadmYamlPath : string;         (* constants.KubeadmYamlPath *)
  ControlPlaneAlias : string;       (* constants.ControlPlaneAlias *)
  DefaultBindIPV4 : string          (* oci.DefaultBindIPV4 *)
}.

(** ** Kubeadm certificate refresher *)

Section Kubeadm.
Context `{Codec} `{Constants} {R : Type} `{Runner R}.

Definition kubeadmCerts : list string :=
  ["apiserver-etcd-client"; "apiserver-kubelet-client"; "etcd-server";
   "etcd-healthcheck-client"; "etcd-peer"; "front-proxy-client"].

(** The path elements of one certificate: certs starting with
    ["etcd-"] are in the ["etcd"] dir. *)
Definition kubeadmCertPath (cert : string) : string :=
  let certPath := [GuestPersistentDir; "certs"] in
  let certPath :=
    if Strings.HasPrefix cert "etcd-" then certPath ++ ["etcd"] else certPath in
  let certPath := certPath ++ [Strings.TrimPrefix cert "etcd-" +:+ ".crt"] in
  Path.Join certPath.

(** The loop over the certificate names; it carries [needsRefresh]. *)
Fixpoint kubeadmCheckAll (now : Time) (certs : list string) (needsRefresh : bool)
         (rem : Remote R) : bool * Remote R :=
  match certs with
  | [] => (needsRefresh, rem)
  | cert :: rest =>
      let '(ok, rem') := isKubeadmCertValid now (kubeadmCertPath cert) rem in
      kubeadmCheckAll now rest (if negb ok then true else needsRefresh) rem'
  end.

(** The double quote character of the command line. *)
Definition dquote : string := String (ascii_of_nat 34) EmptyString.

Definition renewCmd (kubernetesVersion : string) : Cmd :=
  let kubeadmPath := Path.Join [GuestPersistentDir; "binaries"; kubernetesVersion] in
  let bashCmd := "sudo env PATH=" +:+ dquote +:+ kubeadmPath +:+ ":$PATH" +:+ dquote
                 +:+ " kubeadm certs renew all --config " +:+ KubeadmYamlPath in
  ["/bin/bash"; "-c"; bashCmd].

Definition generateKubeadmCerts (now : Time) (kubernetesVersion : string)
           (rem : Remote R) : option error * Remote R :=
  let '(needsRefresh, rem1) := kubeadmCheckAll now kubeadmCerts false rem in
  if negb needsRefresh then (None, rem1)
  else
    let '((_, err), rem2) := run (renewCmd kubernetesVersion) rem1 in
    match err with
    | Some e => (Some (Wrap e "failed to renew kubeadm certs"), rem2)
    | None => (None, rem2)
    end.

End Kubeadm.

(** ** Trust store collector *)

(** [os.FileInfo], as far as the collector reads it. *)
Record FileInfo : Type := mkFileInfo { IsDir : bool; Size : Z }.

(** One call of the walk function by [filepath.Walk]: the path, the
    file information ([None] is Go's [nil]) and the error the traversal
    met at that path. *)
Record Visit : Type := mkVisit {
  hostpath : string;
  info : option FileInfo;
  err : option error
}.

(** Paths of package [localpath]. *)
Class Localpath : Type := {
  MiniPath : string;                    (* localpath.MiniPath() *)
  CACert : string;                      (* localpath.CACert() *)
  Profile : string -> string;           (* localpath.Profile(name) *)
  ClientCert : string -> string;        (* localpath.ClientCert(name) *)
  ClientKey : string -> string          (* localpath.ClientKey(name) *)
}.

Section Collector.
Context `{Codec} `{Constants} `{Localpath}.

(** The loop of [isValidPEMCertificate] over the blocks of the file.
    Every block found shortens what is left ([pem_Decode_rest]), so
    [S (length fileBytes)] iterations are enough; [None] is the loop
    cut short. *)
Fixpoint findCertificate (fuel : nat) (fileBytes : list byte) : option bool :=
  match fuel with
  | O => None
  | S fuel' =>
      match pem_Decode fileBytes with
      | None => Some false
      | Some (block, rest) =>
          if String.eqb (Type_ block) "CERTIFICATE" then Some true
          else findCertificate fuel' rest
      end
  end.

(** [isValidPEMCertificate] checks whether the input file is a valid
    PEM certificate (with at least one CERTIFICATE block). *)
Definition isValidPEMCertificate (fs : FS) (filePath : string) : bool * option error :=
  match os_ReadFile fs filePath with
  | None => (false, Some (os_ReadFile_error fs filePath))
  | Some fileBytes =>
      match findCertificate (S (length fileBytes)) fileBytes with
      | Some found => (found, None)
      | None => (false, None)
      end
  end.

(** The destination of an accepted file. *)
Definition certDestination (hostpath ext : string) : string :=
  let filename := Path.Base hostpath in
  let dst := Strings.TrimSuffix filename ext +:+ "." +:+ "pem" in
  Path.Join [GuestCertAuthDir; dst].

(** The walk function of [collectCACerts]. *)
Definition walkFn (fs : FS) (certsDir : string) (v : Visit)
           (certFiles : gmap string string) : option error * gmap string string :=
  match err v with
  | Some e => if os_IsNotExist e then (None, certFiles) else (Some e, certFiles)
  | None =>
      match info v with
      | None => (None, certFiles)
      | Some fi =>
          if IsDir fi then (None, certFiles)
          else
            let ext := Strings.ToLower (Path.Ext (hostpath v)) in
            if String.eqb ext ".crt" || String.eqb ext ".pem" then
              if (Size fi <? 32)%Z then (None, certFiles)
              else
                let '(validPem, e) := isValidPEMCertificate fs (hostpath v) in
                match e with
                | Some e' => (Some e', certFiles)
                | None =>
                    if validPem
                    then (None, <[hostpath v := certDestination (hostpath v) ext]> certFiles)
                    else (None, certFiles)
                end
            else (None, certFiles)
      end
  end.

(** [filepath.Walk(certsDir, walkFn)] over the visits of the
    traversal: it stops at the first error the walk function returns. *)
Fixpoint filepath_Walk (fs : FS) (certsDir : string) (visits : list Visit)
         (certFiles : gmap string string) : option error * gmap string string :=
  match visits with
  | [] => (None, certFiles)
  | v :: rest =>
      match walkFn fs certsDir v certFiles with
      | (Some e, m) => (Some e, m)
      | (None, m) => filepath_Walk fs certsDir rest m
      end
  end.

Definition excludedNames : list string := ["ca.pem"; "cert.pem"].

Definition exclude (certsDir : string) (certFiles : gmap string string)
  : gmap string string :=
  fold_left (fun m excluded => <[Path.Join [certsDir; excluded] := EmptyString]> m)
            excludedNames certFiles.

(** The loop over the scanned directories. *)
Fixpoint collectDirs (fs : FS) (walk : string -> list Visit) (dirs : list string)
         (certFiles : gmap string string) : gmap string string + error :=
  match dirs with
  | [] => inl certFiles
  | certsDir :: rest =>
      match filepath_Walk fs certsDir (walk certsDir) certFiles with
      | (Some e, _) =>
          inr (Wrap e ("provisioning: traversal certificates dir " +:+ certsDir))
      | (None, m) => collectDirs fs walk rest (exclude certsDir m)
      end
  end.

Definition scannedDirs : list string :=
  [Path.Join [MiniPath; "certs"]; Path.Join [MiniPath; "files"; "etc"; "ssl"; "certs"]].

(** [collectCACerts] looks up all PEM certificates with .crt or .pem
    extension in the two scanned directories; [walk] gives the visits
    of the traversal of each. *)
Definition collectCACerts (fs : FS) (walk : string -> list Visit)
  : gmap string string + error :=
  match collectDirs fs walk scannedDirs ∅ with
  | inr e => inr e
  | inl certFiles =>
      let certFiles :=
        <[Path.Join [MiniPath; "ca.crt"] := Path.Join [GuestCertAuthDir; "minikubeCA.pem"]]>
          certFiles in
      inl (filter (fun kv => kv.2 <> EmptyString) certFiles)
  end.

End Collector.

(** ** Trust store installer *)

(** [strings.TrimSpace]: the string without its leading and trailing
    white space, as Unicode defines it.  A Go string is a sequence of
    bytes, read as UTF-8: the white space characters are the six ASCII
    ones, U+0085 and U+00A0 (two bytes each), and U+1680, U+2000 to
    U+200A, U+2028, U+2029, U+202F, U+205F and U+3000 (three bytes
    each).  A byte sequence that is not the encoding of a character is
    read as U+FFFD, which is no white space. *)
Definition isSpace (c : ascii) : bool :=
  let n := nat_of_ascii c in
  ((n =? 32) || ((9 <=? n) && (n <=? 13)))%nat.

Definition isSpace2 (a b : ascii) : bool :=
  let a := nat_of_ascii a in
  let b := nat_of_ascii b in
  ((a =? 194) && ((b =? 133) || (b =? 160)))%nat.

Definition isSpace3 (a b c : ascii) : bool :=
  let a := nat_of_ascii a in
  let b := nat_of_ascii b in
  let c := nat_of_ascii c in
  (((a =? 225) && (b =? 154) && (c =? 128))
   || ((a =? 226) && (b =? 128)
       && (((128 <=? c) && (c <=? 138)) || (c =? 168) || (c =? 169) || (c =? 175)))
   || ((a =? 226) && (b =? 129) && (c =? 159))
   || ((a =? 227) && (b =? 128) && (c =? 128)))%nat.

(** The characters are decoded from the front ... *)
Fixpoint trimLeft (s : list ascii) : list ascii :=
  match s with
  | a :: r1 =>
      if isSpace a then trimLeft r1
      else
        match r1 with
        | b :: r2 =>
            if isSpace2 a b then trimLeft r2
            else
              match r2 with
              | c :: r3 => if isSpace3 a b c then trimLeft r3 else s
              | [] => s
              end
        | [] => s
        end
  | [] => []
  end.

(** ... and from the back: [s] is the string reversed, so that the last
    byte of the last character comes first. *)
Fixpoint trimRight (s : list ascii) : list ascii :=
  match s with
  | c :: r1 =>
      if isSpace c then trimRight r1
      else
        match r1 with
        | b :: r2 =>
            if isSpace2 b c then trimRight r2
            else
              match r2 with
              | a :: r3 => if isSpace3 a b c then trimRight r3 else s
              | [] => s
              end
        | [] => s
        end
  | [] => []
  end.

Definition strings_TrimSpace (s : string) : string :=
  string_of_list_ascii
    (rev (trimRight (rev (trimLeft (list_ascii_of_string s))))).

Section Installer.
Context `{Constants} {R : Type} `{Runner R}.

(** [getSubjectHash] calculates Certificate Subject Hash for creating
    certificate symlinks. *)
Definition getSubjectHash (filePath : string) (rem : Remote R)
  : (string * option error) * Remote R :=
  let '((lrr, e), rem1) := run ["ls"; "-la"; filePath] rem in
  match e with
  | Some e' => ((EmptyString, Some e'), rem1)
  | None =>
      let '((rr, e), rem2) :=
        run ["openssl"; "x509"; "-hash"; "-noout"; "-in"; filePath] rem1 in
      match e with
      | Some e' =>
          let '((crr, _), rem3) := run ["cat"; filePath] rem2 in
          ((EmptyString,
            Some (Wrap e' ("cert: " +:+ string_of_list_byte (Stdout lrr)
                           +:+ " --- " +:+ string_of_list_byte (Stdout crr)))), rem3)
      | None =>
          ((strings_TrimSpace (string_of_list_byte (Stdout rr)), None), rem2)
      end
  end.

Definition probeCmd : Cmd := ["openssl"; "version"].

(** The direct symlink of one certificate into the store. *)
Definition certStorePath (caCertFile : string) : string :=
  Path.Join [GuestCertStoreDir; Path.Base caCertFile].

Definition directLinkCmd (caCertFile : string) : Cmd :=
  ["sudo"; "/bin/bash"; "-c";
   "test -s " +:+ caCertFile +:+ " && ln -fs " +:+ caCertFile +:+ " "
     +:+ certStorePath caCertFile].

Definition subjectHashLink (subjectHash : string) : string :=
  Path.Join [GuestCertStoreDir; subjectHash +:+ ".0"].

Definition hashLinkCmd (caCertFile subjectHash : string) : Cmd :=
  ["sudo"; "/bin/bash"; "-c";
   "test -L " +:+ subjectHashLink subjectHash +:+ " || ln -fs "
     +:+ certStorePath caCertFile +:+ " " +:+ subjectHashLink subjectHash].

(** The loop of [installCertSymlinks] over the values of the map, in
    the order in which Go happens to iterate it. *)
Fixpoint installLoop (hasSSLBinary : bool) (caCerts : list string) (rem : Remote R)
  : option error * Remote R :=
  match caCerts with
  | [] => (None, rem)
  | caCertFile :: rest =>
      let '((_, e), rem1) := run (directLinkCmd caCertFile) rem in
      match e with
      | Some e' => (Some (Wrap e' ("create symlink for " +:+ caCertFile)), rem1)
      | None =>
          if negb hasSSLBinary then installLoop hasSSLBinary rest rem1
          else
            let '((subjectHash, e), rem2) := getSubjectHash caCertFile rem1 in
            match e with
            | Some e' =>
                (Some (Wrap e' ("calculate hash for cacert " +:+ caCertFile)), rem2)
            | None =>
                let '((_, e), rem3) := run (hashLinkCmd caCertFile subjectHash) rem2 in
                match e with
                | Some e' =>
                    (Some (Wrap e' ("create symlink for " +:+ caCertFile)), rem3)
                | None => installLoop hasSSLBinary rest rem3
                end
            end
      end
  end.

(** [installCertSymlinks] installs certs into the system-wide
    certificate store; [caCerts] are the destinations collected. *)
Definition installCertSymlinks (caCerts : list string) (rem : Remote R)
  : option error * Remote R :=
  let '((_, e), rem1) := run probeCmd rem in
  let hasSSLBinary := match e with Some _ => false | None => true end in
  installLoop hasSSLBinary caCerts rem1.

End Installer.

(** ** CA provisioner *)

(** [mutex.Spec], as far as this file sets it. *)
Record MutexSpec : Type := mkMutexSpec { Name : string; Timeout : Z }.

(** [net.IP]: a byte slice, [None] being the nil slice. *)
Abbreviation IP := (option (list byte)).

(** The arguments of [util.GenerateSignedCert]. *)
Record SignedCertArgs : Type := mkSignedCertArgs {
  a_certPath : string;
  a_keyPath : string;
  a_cn : string;
  a_ips : list IP;
  a_alternateDNS : list string;
  a_signerCertPath : string;
  a_signerKeyPath : string;
  a_expiration : Z
}.

(** What the provisioners do outside the process, in order. *)
Inductive Event : Type :=
| EvAcquire (spec : MutexSpec) (acquired : bool)
| EvRelease (spec : MutexSpec)
| EvIsValid (certPath keyPath : string) (valid : bool)
| EvGenerateCACert (certPath keyPath subject : string)
| EvGenerateSignedCert (args : SignedCertArgs)
| EvCopy (src dst : string).

Record World : Type := mkWorld { fs : FS; events : list Event }.

Definition emit (e : Event) (w : World) : World :=
  mkWorld (fs w) (events w ++ [e]).

Definition withFS (f : FS) (w : World) : World := mkWorld f (events w).

(** The collaborators of the provisioners: certificate generation
    ([util]), the lock ([lock], [mutex]), file copy ([copy]), the
    container runtime's daemon host ([oci]) and IP parsing ([net]). *)
Class Host : Type := {
  PathMutexSpec : string -> MutexSpec;
  mutex_Acquire : MutexSpec -> option error;
  util_GenerateCACert : string -> string -> string -> FS -> option error * FS;
  util_GenerateSignedCert : SignedCertArgs -> FS -> option error * FS;
  util_GetServiceClusterIP : string -> IP * option error;
  util_GetAlternateDNS : string -> list string;
  oci_DaemonHost : string -> string;
  net_ParseIP : string -> IP;
  IP_String : IP -> string;
  copy_Copy : string -> string -> FS -> option error * FS
}.

(** [CACerts] has cert and key for CA (and Proxy). *)
Record CACerts : Type := mkCACerts {
  caCert : string;
  caKey : string;
  proxyCert : string;
  proxyKey : string
}.

Record CASpec : Type := mkCASpec {
  ca_certPath : string;
  ca_keyPath : string;
  ca_subject : string
}.

(** [time.Minute], in nanoseconds. *)
Definition time_Minute : Z := 60000000000.

Section CAProvisioner.
Context `{Codec} `{Localpath} `{Host}.

(** [isValid] on the file system of the world, recorded. *)
Definition checkValid (now : Time) (certPath keyPath : string) (w : World)
  : bool * World :=
  let '(ok, fs') := isValid now certPath keyPath (fs w) in
  (ok, emit (EvIsValid certPath keyPath ok) (withFS fs' w)).

(** The loop over the CA specs; it carries [regenProfileCerts]. *)
Fixpoint caLoop (now : Time) (specs : list CASpec) (regenProfileCerts : bool)
         (w : World) : (bool * option error) * World :=
  match specs with
  | [] => ((regenProfileCerts, None), w)
  | ca :: rest =>
      let '(ok, w1) := checkValid now (ca_certPath ca) (ca_keyPath ca) w in
      if ok then caLoop now rest regenProfileCerts w1
      else
        let '(e, fs2) :=
          util_GenerateCACert (ca_certPath ca) (ca_keyPath ca) (ca_subject ca) (fs w1) in
        let w2 := emit (EvGenerateCACert (ca_certPath ca) (ca_keyPath ca) (ca_subject ca))
                       (withFS fs2 w1) in
        match e with
        | Some e' => ((false, Some (Wrap e' "generate ca cert")), w2)
        | None => caLoop now rest true w2
        end
  end.

Definition sharedCACerts : CACerts :=
  let globalPath := MiniPath in
  {| caCert := CACert;
     caKey := Path.Join [globalPath; "ca.key"];
     proxyCert := Path.Join [globalPath; "proxy-client-ca.crt"];
     proxyKey := Path.Join [globalPath; "proxy-client-ca.key"] |}.

Definition caCertSpecs (cc : CACerts) : list CASpec :=
  [ {| ca_certPath := caCert cc; ca_keyPath := caKey cc; ca_subject := "minikubeCA" |};
    {| ca_certPath := proxyCert cc; ca_keyPath := proxyKey cc;
       ca_subject := "proxyClientCA" |} ].

Definition caLockSpec : MutexSpec :=
  let hold := Path.Join [MiniPath; "ca-certs"] in
  let spec := PathMutexSpec hold in
  {| Name := Name spec; Timeout := 1 * time_Minute |}.

(** [generateSharedCACerts] generates CA certs shared among profiles,
    but only if missing.  The deferred release runs when the function
    returns, on each path after the acquisition. *)
Definition generateSharedCACerts (now : Time) (w : World)
  : (CACerts * bool * option error) * World :=
  let cc := sharedCACerts in
  let spec := caLockSpec in
  match mutex_Acquire spec with
  | Some e =>
      ((cc, false, Some (Wrap e "unable to acquire lock for shared ca certs")),
       emit (EvAcquire spec false) w)
  | None =>
      let w1 := emit (EvAcquire spec true) w in
      let '((regen, e), w2) := caLoop now (caCertSpecs cc) false w1 in
      ((cc, regen, e), emit (EvRelease spec) w2)
  end.

End CAProvisioner.

(** ** Leaf certificate provisioner *)

Record KubernetesConfig : Type := mkKubernetesConfig {
  ClusterName : string;
  ServiceCIDR : string;
  APIServerIPs : list IP;
  APIServerNames : list string;
  APIServerName : string;
  DNSDomain : string;
  ContainerRuntime : string
}.

Record ClusterConfig : Type := mkClusterConfig {
  KubernetesConfig_ : KubernetesConfig;
  CertExpiration : Z
}.

Record Node : Type := mkNode { IP_ : string; ControlPlane : bool }.

(** One entry of the table of leaf certificates. *)
Record LeafSpec : Type := mkLeafSpec {
  certPath : string;
  keyPath : string;
  hash : string;
  subject : string;
  ips : list IP;
  alternateNames : list string;
  caCertPath : string;
  caKeyPath : string
}.

Section LeafProvisioner.
Context `{Codec} `{Constants} `{Localpath} `{Host}.

(** The IPs of the API-server certificate. *)
Definition apiServerIPs (k8s : KubernetesConfig) (n : Node) (serviceIP : IP) : list IP :=
  let apiServerIPs := APIServerIPs k8s in
  let apiServerIPs :=
    apiServerIPs ++ [net_ParseIP (IP_ n); serviceIP; net_ParseIP DefaultBindIPV4;
                     net_ParseIP "10.0.0.1"] in
  let daemonHost := oci_DaemonHost (ContainerRuntime k8s) in
  if negb (String.eqb daemonHost DefaultBindIPV4) then
    let daemonHostIP := net_ParseIP daemonHost in
    match daemonHostIP with
    | Some _ => apiServerIPs ++ [daemonHostIP]
    | None => apiServerIPs
    end
  else apiServerIPs.

(** The alternate names of the API-server certificate. *)
Definition apiServerAlternateNames (k8s : KubernetesConfig) : list string :=
  let apiServerNames := APIServerNames k8s in
  let apiServerNames := apiServerNames ++ [APIServerName k8s; ControlPlaneAlias] in
  let apiServerAlternateNames := apiServerNames in
  let apiServerAlternateNames :=
    apiServerAlternateNames ++ util_GetAlternateDNS (DNSDomain k8s) in
  let daemonHost := oci_DaemonHost (ContainerRuntime k8s) in
  if negb (String.eqb daemonHost DefaultBindIPV4) then
    let daemonHostIP := net_ParseIP daemonHost in
    match daemonHostIP with
    | Some _ => apiServerAlternateNames
    | None => apiServerAlternateNames ++ [daemonHost]
    end
  else apiServerAlternateNames.

(** The hash input for certs that depend on ip/name combinations. *)
Definition hashInput (names : list string) (addrs : list IP) : list string :=
  let hi := [] in
  let hi := hi ++ names in
  let hi := hi ++ map IP_String addrs in
  sort_Strings hi.

(** [fmt.Sprintf("%x", sha1.Sum([]byte(strings.Join(hi, "/"))))[0:8]] *)
Definition fingerprint (names : list string) (addrs : list IP) : string :=
  let hi := hashInput names addrs in
  String.substring 0 8
    (hex (SHA1.Sum (list_byte_of_string (Strings.Join hi "/")))).

Definition leafSpecs (k8s : KubernetesConfig) (n : Node) (ccs : CACerts)
           (serviceIP : IP) : list LeafSpec :=
  let profilePath := Profile (ClusterName k8s) in
  let addrs := apiServerIPs k8s n serviceIP in
  let names := apiServerAlternateNames k8s in
  [ (* Client cert *)
    {| certPath := ClientCert (ClusterName k8s);
       keyPath := ClientKey (ClusterName k8s);
       hash := EmptyString;
       subject := "minikube-user";
       ips := [];
       alternateNames := [];
       caCertPath := caCert ccs;
       caKeyPath := caKey ccs |};
    (* apiserver serving cert *)
    {| hash := fingerprint names addrs;
       certPath := Path.Join [profilePath; "apiserver.crt"];
       keyPath := Path.Join [profilePath; "apiserver.key"];
       subject := "minikube";
       ips := addrs;
       alternateNames := names;
       caCertPath := caCert ccs;
       caKeyPath := caKey ccs |};
    (* aggregator proxy-client cert *)
    {| certPath := Path.Join [profilePath; "proxy-client.crt"];
       keyPath := Path.Join [profilePath; "proxy-client.key"];
       hash := EmptyString;
       subject := "aggregator";
       ips := [];
       alternateNames := [];
       caCertPath := proxyCert ccs;
       caKeyPath := proxyKey ccs |} ].

(** The effective paths of a spec: suffixed by the hash when it has one. *)
Definition effectiveCert (spec : LeafSpec) : string :=
  if negb (String.eqb (hash spec) EmptyString)
  then certPath spec +:+ "." +:+ hash spec else certPath spec.

Definition effectiveKey (spec : LeafSpec) : string :=
  if negb (String.eqb (hash spec) EmptyString)
  then keyPath spec +:+ "." +:+ hash spec else keyPath spec.

Definition signedCertArgs (cfg : ClusterConfig) (spec : LeafSpec) : SignedCertArgs :=
  {| a_certPath := effectiveCert spec;
     a_keyPath := effectiveKey spec;
     a_cn := subject spec;
     a_ips := ips spec;
     a_alternateDNS := alternateNames spec;
     a_signerCertPath := caCertPath spec;
     a_signerKeyPath := caKeyPath spec;
     a_expiration := CertExpiration cfg |}.

Definition removeIfReadable (path : string) (f : FS) : FS :=
  if canRead f path then os_Remove path f else f.

(** The copies of the suffixed files over the canonical ones. *)
Definition promote (spec : LeafSpec) (w : World) : option error * World :=
  let cp := effectiveCert spec in
  let kp := effectiveKey spec in
  let '(e, fs1) := copy_Copy cp (certPath spec) (fs w) in
  let w1 := emit (EvCopy cp (certPath spec)) (withFS fs1 w) in
  match e with
  | Some e' => (Some (Wrap e' "copy cert"), w1)
  | None =>
      let '(e, fs2) := copy_Copy kp (keyPath spec) (fs w1) in
      let w2 := emit (EvCopy kp (keyPath spec)) (withFS fs2 w1) in
      match e with
      | Some e' => (Some (Wrap e' "copy key"), w2)
      | None => (None, w2)
      end
  end.

(** What the body of the loop does for one spec after the transfer
    list has been extended: [skip] is the [continue] of the source. *)
Definition skip (regen : bool) (now : Time) (spec : LeafSpec) (w : World)
  : bool * World :=
  if negb regen then checkValid now (effectiveCert spec) (effectiveKey spec) w
  else (false, w).

Definition regenerate (cfg : ClusterConfig) (spec : LeafSpec) (w : World)
  : option error * World :=
  let cp := effectiveCert spec in
  let kp := effectiveKey spec in
  let fs1 := removeIfReadable kp (removeIfReadable cp (fs w)) in
  let '(e, fs2) := util_GenerateSignedCert (signedCertArgs cfg spec) fs1 in
  let w2 := emit (EvGenerateSignedCert (signedCertArgs cfg spec)) (withFS fs2 w) in
  match e with
  | Some e' =>
      (Some (Wrap e' ("generate signed cert for " +:+ subject spec)), w2)
  | None =>
      if negb (String.eqb (hash spec) EmptyString) then promote spec w2
      else (None, w2)
  end.

(** The loop over the specs; it carries the transfer list. *)
Fixpoint leafLoop (cfg : ClusterConfig) (regen : bool) (now : Time)
         (specs : list LeafSpec) (xfer : list string) (w : World)
  : (list string * option error) * World :=
  match specs with
  | [] => ((xfer, None), w)
  | spec :: rest =>
      let xfer :=
        if negb (String.eqb (subject spec) "minikube-user")
        then xfer ++ [certPath spec] ++ [keyPath spec] else xfer in
      let '(skipped, w1) := skip regen now spec w in
      if skipped then leafLoop cfg regen now rest xfer w1
      else
        match regenerate cfg spec w1 with
        | (Some e, w2) => ((xfer, Some e), w2)
        | (None, w2) => leafLoop cfg regen now rest xfer w2
        end
  end.

(** [generateProfileCerts] generates profile certs for a profile.  The
    list is [None] where the source returns a nil slice. *)
Definition generateProfileCerts (cfg : ClusterConfig) (n : Node) (ccs : CACerts)
           (regen : bool) (now : Time) (w : World)
  : (option (list string) * option error) * World :=
  if negb (ControlPlane n) then ((Some [], None), w)
  else
    let k8s := KubernetesConfig_ cfg in
    let '(serviceIP, e) := util_GetServiceClusterIP (ServiceCIDR k8s) in
    match e with
    | Some e' => ((None, Some (Wrap e' "getting service cluster ip")), w)
    | None =>
        let '((xfer, e), w') :=
          leafLoop cfg regen now (leafSpecs k8s n ccs serviceIP) [] w in
        ((Some xfer, e), w')
    end.

End LeafProvisioner.

(** ** Vocabulary of the properties *)

Section Vocabulary.
Context `{Codec} `{Constants} {R : Type} `{Runner R}.

(** The remote read of one kubeadm certificate. *)
Definition catCmd (cert : string) : Cmd := ["cat"; kubeadmCertPath cert].

(** The verdicts of the successive checks of the kubeadm refresher,
    each on the target as the previous check left it. *)
Fixpoint kubeadmVerdicts (now : Time) (certs : list string) (rem : Remote R)
  : list bool :=
  match certs with
  | [] => []
  | cert :: rest =>
      let '(ok, rem') := isKubeadmCertValid now (kubeadmCertPath cert) rem in
      ok :: kubeadmVerdicts now rest rem'
  end.

(** The events of the work on the CA pairs. *)
Definition isCAWork (ev : Event) : Prop :=
  match ev with
  | EvIsValid _ _ _ | EvGenerateCACert _ _ _ => True
  | _ => False
  end.

(** The paths a list of leaf specs adds to the transfer list. *)
Definition transferPaths (specs : list LeafSpec) : list string :=
  flat_map (fun spec =>
              if negb (String.eqb (subject spec) "minikube-user")
              then [certPath spec; keyPath spec] else []) specs.

(** The subjects for which a signed certificate was generated. *)
Fixpoint generatedSubjects (evs : list Event) : list string :=
  match evs with
  | [] => []
  | EvGenerateSignedCert a :: rest => a_cn a :: generatedSubjects rest
  | _ :: rest => generatedSubjects rest
  end.

(** The file holds at least one PEM block of type CERTIFICATE. *)
Inductive HasCertificate : list byte -> Prop :=
| HasCertificate_here (data : list byte) (b : Block) (rest : list byte) :
    pem_Decode data = Some (b, rest) ->
    Type_ b = "CERTIFICATE" ->
    HasCertificate data
| HasCertificate_later (data : list byte) (b : Block) (rest : list byte) :
    pem_Decode data = Some (b, rest) ->
    HasCertificate rest ->
    HasCertificate data.

(** A visit the collector accepts: no traversal error, not a directory,
    extension [.crt] or [.pem] in any case, at least 32 bytes, and a
    readable file with a CERTIFICATE block. *)
Definition accepted (f : FS) (v : Visit) : Prop :=
  err v = None
  /\ exists fi,
      info v = Some fi
      /\ IsDir fi = false
      /\ (Strings.ToLower (Path.Ext (hostpath v)) = ".crt"
          \/ Strings.ToLower (Path.Ext (hostpath v)) = ".pem")
      /\ (32 <= Size fi)%Z
      /\ exists data, os_ReadFile f (hostpath v) = Some data /\ HasCertificate data.

(** Every entry of a map with this property is a marker of exclusion or
    the destination of an accepted visit of one of [dirs]. *)
Definition collected (f : FS) (walk : string -> list Visit) (dirs : list string)
           (m : gmap string string) : Prop :=
  forall p dst, m !! p = Some dst ->
    dst = EmptyString
    \/ exists d v, In d dirs /\ In v (walk d) /\ hostpath v = p /\ accepted f v
                   /\ dst = certDestination p (Strings.ToLower (Path.Ext p)).

(** The commands through which [getSubjectHash] inspects a file. *)
Definition hashProbeCmds (filePath : string) : list Cmd :=
  [ ["ls"; "-la"; filePath];
    ["openssl"; "x509"; "-hash"; "-noout"; "-in"; filePath];
    ["cat"; filePath] ].

(** The commands the installer may send for the collected destinations
    [caCerts] besides the probe: the direct link of one of them, the
    inspection of one of them for its subject hash, or the guarded link
    from a hash name to its direct link. *)
Definition isInstallCmd (caCerts : list string) (c : Cmd) : Prop :=
  exists caCertFile, In caCertFile caCerts /\
    (c = directLinkCmd caCertFile
     \/ In c (hashProbeCmds caCertFile)
     \/ exists subjectHash,
          c = ["sudo"; "/bin/bash"; "-c";
               "test -L " +:+ Path.Join [GuestCertStoreDir; subjectHash +:+ ".0"]
                 +:+ " || ln -fs "
                 +:+ Path.Join [GuestCertStoreDir; Path.Base caCertFile]
                 +:+ " " +:+ Path.Join [GuestCertStoreDir; subjectHash +:+ ".0"]]).

End Vocabulary.

(** ** A small instance of the collaborators

    The properties below hold for every implementation of the
    collaborators; this instance runs the model on concrete inputs.  A
    file is a sequence of two-byte blocks, a tag (C for a certificate, K
    for a key) and a payload; the payload of a certificate is its
    expiry. *)

Module Instance.

Definition decode (data : list byte) : option (Block * list byte) :=
  match data with
  | tag :: payload :: rest =>
      if Byte.eqb tag "C" then Some (mkBlock "CERTIFICATE" [payload], rest)
      else if Byte.eqb tag "K" then Some (mkBlock "PRIVATE KEY" [payload], rest)
      else None
  | _ => None
  end.

Definition parse (der : list byte) : option Certificate :=
  match der with
  | [b] => if Byte.eqb b x00 then None
           else Some (mkCertificate (Z.of_N (Byte.to_N b)))
  | _ => None
  end.

#[export] Instance codec : Codec.
Proof.
  refine {| pem_Decode := decode; x509_ParseCertificate := parse;
            pem_Decode_rest := _ |}.
  intros data b rest.
  destruct data as [|tag [|payload r]]; simpl; try discriminate.
  destruct (Byte.eqb tag "C"); [intros [= _ <-]; simpl; lia|].
  destruct (Byte.eqb tag "K"); [intros [= _ <-]; simpl; lia|discriminate].
Defined.

#[export] Instance constants : Constants :=
  {| GuestPersistentDir := "/var/lib/minikube";
     GuestCertAuthDir := "/usr/share/ca-certificates";
     GuestCertStoreDir := "/etc/ssl/certs";
     KubeadmYamlPath := "/var/tmp/minikube/kubeadm.yaml";
     ControlPlaneAlias := "control-plane.minikube.internal";
     DefaultBindIPV4 := "127.0.0.1" |}.

#[export] Instance localpath : Localpath :=
  {| MiniPath := "/home/u/.minikube";
     CACert := "/home/u/.minikube/ca.crt";
     Profile := fun name => Path.Join ["/home/u/.minikube"; "profiles"; name];
     ClientCert := fun name =>
       Path.Join ["/home/u/.minikube"; "profiles"; name; "client.crt"];
     ClientKey := fun name =>
       Path.Join ["/home/u/.minikube"; "profiles"; name; "client.key"] |}.

(** A certificate file expiring at 200, and a key file. *)
Definition certFile : File := mkFile true ["C"; xc8]%byte.
Definition keyFile : File := mkFile true ["K"; x01]%byte.

Definition writePair (cert key : string) (f : FS) : FS :=
  <[key := keyFile]> (<[cert := certFile]> f).

(** The host: [lock] is the outcome of the acquisition. *)
Definition host (lock : option error) : Host :=
  {| PathMutexSpec := fun p => mkMutexSpec p 0;
     mutex_Acquire := fun _ => lock;
     util_GenerateCACert := fun cert key _ f => (None, writePair cert key f);
     util_GenerateSignedCert := fun a f =>
       (None, writePair (a_certPath a) (a_keyPath a) f);
     util_GetServiceClusterIP := fun _ => (Some (list_byte_of_string "10.96.0.1"), None);
     util_GetAlternateDNS := fun d =>
       ["kubernetes.default.svc." +:+ d; "kubernetes"; "localhost"];
     oci_DaemonHost := fun _ => "127.0.0.1";
     net_ParseIP := fun s =>
       if String.eqb s EmptyString then None else Some (list_byte_of_string s);
     IP_String := fun ip =>
       match ip with
       | Some bs => string_of_list_byte bs
       | None => "<nil>"
       end;
     copy_Copy := fun src dst f =>
       match f !! src with
       | Some x => (None, <[dst := x]> f)
       | None => (Some (ErrNotExist src), f)
       end |}.

(** The lock is free, or held by another process beyond the timeout. *)
Definition hostFree : Host := host None.
Definition hostLocked : Host := host (Some (External "timeout acquiring mutex")).

(** The target: its files, and whether it has the hashing tool. *)
Record target : Type := mkTarget { files : gmap string (list byte); openssl : bool }.

Definition exec (c : Cmd) (t : target) : (RunResult * option error) * target :=
  match c with
  | ["cat"; p] =>
      match files t !! p with
      | Some b => ((mkRunResult b [], None), t)
      | None => ((mkRunResult [] [], Some (External "exit status 1")), t)
      end
  | "openssl" :: _ =>
      if openssl t then ((mkRunResult ["a"; "b"; x0a]%byte [], None), t)
      else ((mkRunResult [] [], Some (External "openssl: command not found")), t)
  | _ => ((mkRunResult [] [], None), t)
  end.

#[export] Instance runner : Runner target := {| RunCmd := exec |}.

(** A cached pair, and the same with the key file missing. *)
Definition pairFS : FS := writePair "/p/client.crt" "/p/client.key" ∅.
Definition keyMissingFS : FS := {[ "/p/client.crt" := certFile ]}.

(** A target holding the six kubeadm certificates, all good at 100. *)
Definition kubeadmTarget : target :=
  {| files := list_to_map
       (map (fun c => (kubeadmCertPath c, ["C"; xc8]%byte)) kubeadmCerts);
     openssl := true |}.

Definition cluster : ClusterConfig :=
  {| KubernetesConfig_ :=
       {| ClusterName := "minikube"; ServiceCIDR := "10.96.0.0/12";
          APIServerIPs := []; APIServerNames := []; APIServerName := "minikubeCA";
          DNSDomain := "cluster.local"; ContainerRuntime := "docker" |};
     CertExpiration := 1000 |}.

Definition serviceIP : IP := Some (list_byte_of_string "10.96.0.1").

Definition controlPlane : Node := {| IP_ := "192.168.49.2"; ControlPlane := true |}.
Definition worker : Node := {| IP_ := "192.168.49.3"; ControlPlane := false |}.

(** A key block, a certificate block and padding: 64 bytes. *)
Definition bundle : list byte := (["K"; x01; "C"; xc8] ++ repeat x00 60)%byte.

(** The local certificate directories: an upper-case and a lower-case
    extension, a tiny file, and the two reserved names. *)
Definition trustFS : FS :=
  list_to_map
    [ ("/home/u/.minikube/certs/FOO.CRT", mkFile true bundle);
      ("/home/u/.minikube/certs/corp.crt", mkFile true bundle);
      ("/home/u/.minikube/certs/sub/root.pem", mkFile true bundle);
      ("/home/u/.minikube/certs/tiny.crt", mkFile true ["C"; xc8]%byte);
      ("/home/u/.minikube/certs/notes.txt", mkFile true bundle);
      ("/home/u/.minikube/certs/key.pem", mkFile true (repeat "K"%byte 64));
      ("/home/u/.minikube/certs/ca.pem", mkFile true bundle);
      ("/home/u/.minikube/certs/cert.pem", mkFile true bundle) ].

Definition fileVisit (p : string) (size : Z) : Visit :=
  mkVisit p (Some (mkFileInfo false size)) None.

Definition dirVisit (p : string) : Visit :=
  mkVisit p (Some (mkFileInfo true 4096)) None.

(** The traversals: the first directory in lexical order, the second
    directory missing. *)
Definition trustWalk (certsDir : string) : list Visit :=
  if String.eqb certsDir "/home/u/.minikube/certs" then
    [ dirVisit "/home/u/.minikube/certs";
      fileVisit "/home/u/.minikube/certs/FOO.CRT" 64;
      fileVisit "/home/u/.minikube/certs/ca.pem" 64;
      fileVisit "/home/u/.minikube/certs/cert.pem" 64;
      fileVisit "/home/u/.minikube/certs/corp.crt" 64;
      fileVisit "/home/u/.minikube/certs/key.pem" 64;
      fileVisit "/home/u/.minikube/certs/notes.txt" 64;
      dirVisit "/home/u/.minikube/certs/sub";
      fileVisit "/home/u/.minikube/certs/sub/root.pem" 64;
      fileVisit "/home/u/.minikube/certs/tiny.crt" 2 ]
  else [ mkVisit certsDir None (Some (ErrNotExist certsDir)) ].

(** A profile whose three leaf pairs are cached and good at 100. *)
Definition cachedLeaves : FS :=
  let H := hostFree in
  fold_right (fun spec f => writePair (effectiveCert spec) (effectiveKey spec) f) ∅
             (leafSpecs (KubernetesConfig_ cluster) controlPlane sharedCACerts serviceIP).

End Instance.

From stdpp Require pretty.

(** ** The result of the collector on the small instance *)

Module TrustStore.
Import Instance.

(** What [collectCACerts] collects from [trustFS]. *)
Definition stored : gmap string string :=
  match collectCACerts trustFS trustWalk with
  | inl m => m
  | inr _ => ∅
  end.

(** A traversal that meets a permission error in the first directory. *)
Definition brokenWalk (certsDir : string) : list Visit :=
  if String.eqb certsDir "/home/u/.minikube/certs" then
    [ dirVisit "/home/u/.minikube/certs";
      fileVisit "/home/u/.minikube/certs/corp.crt" 64;
      mkVisit "/home/u/.minikube/certs/private" (Some (mkFileInfo true 4096))
              (Some (External "open /home/u/.minikube/certs/private: permission denied")) ]
  else [ mkVisit certsDir None (Some (ErrNotExist certsDir)) ].

End TrustStore.

(** ** Vocabulary of the further properties *)

(** The events of the loop over the CA specs, one spec after the other:
    a check, and after a failed check a generation. *)
Inductive caTrace : list Event -> Prop :=
| caTrace_nil : caTrace []
| caTrace_reused (c k : string) (rest : list Event) :
    caTrace rest -> caTrace (EvIsValid c k true :: rest)
| caTrace_generated (c k s : string) (rest : list Event) :
    caTrace rest ->
    caTrace (EvIsValid c k false :: EvGenerateCACert c k s :: rest).

Definition isGenerateCACert (ev : Event) : bool :=
  match ev with
  | EvGenerateCACert _ _ _ => true
  | _ => false
  end.

Section VocabularyMore.
Context `{Constants} `{Localpath} `{Host}.

(** What the leaf provisioner may do for the specs [specs]: check the
    effective pair of one, generate the certificate of one, or copy the
    fingerprint-suffixed file of one that has a hash onto its canonical
    path. *)
Definition isLeafEvent (cfg : ClusterConfig) (specs : list LeafSpec) (ev : Event) : Prop :=
  match ev with
  | EvIsValid c k _ =>
      exists spec, In spec specs /\ c = effectiveCert spec /\ k = effectiveKey spec
  | EvGenerateSignedCert a =>
      exists spec, In spec specs /\ a = signedCertArgs cfg spec
  | EvCopy src dst =>
      exists spec, In spec specs /\ hash spec <> EmptyString
                   /\ ((src = certPath spec +:+ "." +:+ hash spec /\ dst = certPath spec)
                       \/ (src = keyPath spec +:+ "." +:+ hash spec /\ dst = keyPath spec))
  | _ => False
  end.

(** The commands of the installer for one certificate and its subject
    hash, with or without the hashing tool. *)
Definition installCmds (hasSSLBinary : bool) (entry : string * string) : list Cmd :=
  directLinkCmd entry.1
  :: (if hasSSLBinary
      then [ ["ls"; "-la"; entry.1];
             ["openssl"; "x509"; "-hash"; "-noout"; "-in"; entry.1];
             hashLinkCmd entry.1 entry.2 ]
      else []).

End VocabularyMore.

Section VocabularyRemote.
Context `{Codec} `{Constants} {R : Type} `{Runner R}.

(** Whether each of the successive reads of the kubeadm refresher
    fails, each on the target as the previous read left it. *)
Fixpoint readsFail (certs : list string) (t : R) : list bool :=
  match certs with
  | [] => []
  | cert :: rest =>
      let '((_, e), t') := RunCmd (catCmd cert) t in
      match e with Some _ => true | None => false end :: readsFail rest t'
  end.

(** The subject hashes the target gives during an installation with the
    hashing tool: for each certificate in turn, after its direct link
    and the listing of the file, the standard output of
    [openssl x509 -hash] without the white space around it; the link
    from that name follows.  Each command runs on the target as the
    previous one left it. *)
Fixpoint subjectHashes (caCerts : list string) (t : R) : list string :=
  match caCerts with
  | [] => []
  | f :: rest =>
      let t1 := (RunCmd (directLinkCmd f) t).2 in
      let t2 := (RunCmd ["ls"; "-la"; f] t1).2 in
      let r := RunCmd ["openssl"; "x509"; "-hash"; "-noout"; "-in"; f] t2 in
      let h := strings_TrimSpace (string_of_list_byte (Stdout r.1.1)) in
      let t3 := (RunCmd (hashLinkCmd f h) r.2).2 in
      h :: subjectHashes rest t3
  end.

End VocabularyRemote.

(** ** A target on which nothing is provisioned yet

    Every read fails; every other command succeeds with no output. *)

Module FreshTarget.

Definition exec (c : Cmd) (t : unit) : (RunResult * option error) * unit :=
  match c with
  | "cat" :: _ => ((mkRunResult [] [], Some (External "exit status 1")), t)
  | _ => ((mkRunResult [] [], None), t)
  end.

#[export] Instance runner : Runner unit := {| RunCmd := exec |}.

End FreshTarget.

(** ** A target whose certificate store cannot be written

    The commands run through [sudo] fail; the others succeed. *)

Module ReadOnlyTarget.

Definition exec (c : Cmd) (t : unit) : (RunResult * option error) * unit :=
  match c with
  | "sudo" :: _ => ((mkRunResult [] [], Some (External "exit status 1")), t)
  | _ => ((mkRunResult [] [], None), t)
  end.

#[export] Instance runner : Runner unit := {| RunCmd := exec |}.

End ReadOnlyTarget.

(** ** The orchestrator, [SetupCerts] *)

(** [vmpath.GuestKubernetesCertsDir] *)
Class GuestDirs : Type := { GuestKubernetesCertsDir : string }.

(** [assets.CopyableFile]: a local file opened for the transfer, or
    bytes held in memory, with the directory, name and mode it gets on
    the target. *)
Inductive CopyableFile : Type :=
| FileAsset (SourcePath TargetDir TargetName Permissions : string)
| MemoryAsset (data : list byte) (TargetDir TargetName Permissions : string).

(** Package [assets]: [assets_NewFileAsset src dir name perms fs] is the
    error of [assets.NewFileAsset], which opens [src]; [GetSourcePath]
    is the method of that name. *)
Class Assets : Type := {
  assets_NewFileAsset : string -> string -> string -> string -> FS -> option error;
  GetSourcePath : CopyableFile -> string
}.

(** The file transfer of [command.Runner]. *)
Class Copier (R : Type) : Type := {
  Copy : CopyableFile -> R -> option error * R
}.

(** [kubeconfig.Settings], without its two extension fields, which are
    [kubeconfig.NewExtension()] whatever the arguments. *)
Record Settings : Type := mkSettings {
  s_ClusterName : string;
  s_ClusterServerAddress : string;
  s_ClientCertificate : string;
  s_ClientKey : string;
  s_CertificateAuthority : string;
  s_KeepContext : bool
}.

(** [kubeconfig.PopulateFromSettings] on a new [api.Config], and
    [runtime.Encode] of the result with [latest.Codec]. *)
Class Kubeconfig : Type := {
  KubeCfg : Type;
  kubeconfig_PopulateFromSettings : Settings -> KubeCfg + error;
  runtime_Encode : KubeCfg -> list byte + error
}.

(** The fields of [config.Node] and of [config.KubernetesConfig] that
    only [SetupCerts] reads, beside those of [Node] and [ClusterConfig]. *)
Record NodeId : Type := mkNodeId { n_Node : Node; n_Name : string; n_Port : Z }.

Record Cluster : Type := mkCluster {
  c_ClusterConfig : ClusterConfig;
  KubernetesVersion : string
}.

(** The state [SetupCerts] works on: the local world, the target with
    the commands sent to it, the files given to [cmd.Copy], the assets
    made ([assets.NewFileAsset] opens the file of the asset it makes)
    and the assets closed, each in order. *)
Record Setup (R : Type) : Type := mkSetup {
  local : World;
  remote : Remote R;
  copies : list CopyableFile;
  made : list CopyableFile;
  closed : list CopyableFile
}.
Arguments mkSetup {R} _ _ _ _ _.
Arguments local {R} _.
Arguments remote {R} _.
Arguments copies {R} _.
Arguments made {R} _.
Arguments closed {R} _.

(** The asset [a] has been made. *)
Definition making {R : Type} (a : CopyableFile) (s : Setup R) : Setup R :=
  mkSetup (local s) (remote s) (copies s) (made s ++ [a]) (closed s).

(** [path.Dir(path)]: all but the last element of the path, cleaned. *)
Fixpoint dropElem (rpath : list ascii) : list ascii :=
  match rpath with
  | c :: r => if Path.isSep c then rpath else dropElem r
  | [] => []
  end.

Definition path_Dir (p : string) : string :=
  Path.Clean (string_of_list_ascii (rev (dropElem (rev (list_ascii_of_string p))))).

Section Orchestrator.
Context `{Codec} `{Constants} `{Localpath} `{Host} `{GuestDirs} `{Assets} `{Kubeconfig}
        {R : Type} `{Runner R} `{Copier R}.

(** The asset of one path of the transfer list: keys get mode 0600.
    [filepath.Base] is [path.Base] where the separator is the slash. *)
Definition certAsset (p : string) : CopyableFile :=
  let cert := Path.Base p in
  let perms := if Strings.HasSuffix cert ".key" then "0600" else "0644" in
  FileAsset p GuestKubernetesCertsDir cert perms.

(** The loop over the transfer list. *)
Fixpoint certAssets (xfer : list string) (copyableFiles : list CopyableFile)
         (s : Setup R) : (list CopyableFile * option error) * Setup R :=
  match xfer with
  | [] => ((copyableFiles, None), s)
  | p :: rest =>
      let cert := Path.Base p in
      let perms := if Strings.HasSuffix cert ".key" then "0600" else "0644" in
      match assets_NewFileAsset p GuestKubernetesCertsDir cert perms (fs (local s)) with
      | Some e => ((copyableFiles, Some (Wrap e ("key asset " +:+ cert))), s)
      | None =>
          certAssets rest (copyableFiles ++ [certAsset p]) (making (certAsset p) s)
      end
  end.

(** The asset of one entry of the trust store. *)
Definition caAsset (entry : string * string) : CopyableFile :=
  FileAsset entry.1 (path_Dir entry.2) (Path.Base entry.2) "0644".

(** The loop over the collected CA certificates, in the order in which
    Go happens to iterate the map. *)
Fixpoint caAssets (caCerts : list (string * string))
         (copyableFiles : list CopyableFile) (s : Setup R)
  : (list CopyableFile * option error) * Setup R :=
  match caCerts with
  | [] => ((copyableFiles, None), s)
  | (src, dst) :: rest =>
      match assets_NewFileAsset src (path_Dir dst) (Path.Base dst) "0644"
                                (fs (local s)) with
      | Some e => ((copyableFiles, Some (Wrap e ("ca asset " +:+ src))), s)
      | None =>
          caAssets rest (copyableFiles ++ [caAsset (src, dst)])
                   (making (caAsset (src, dst)) s)
      end
  end.

(** The settings of the kubeconfig of the node. *)
Definition kubeconfigSettings (n : NodeId) : Settings :=
  {| s_ClusterName := n_Name n;
     s_ClusterServerAddress := "https://" +:+ ("localhost" +:+ ":" +:+ pretty.pretty (n_Port n));
     s_ClientCertificate := Path.Join [GuestKubernetesCertsDir; "apiserver.crt"];
     s_ClientKey := Path.Join [GuestKubernetesCertsDir; "apiserver.key"];
     s_CertificateAuthority := Path.Join [GuestKubernetesCertsDir; "ca.crt"];
     s_KeepContext := false |}.

(** The loop over the files to copy: it stops at the first failure. *)
Fixpoint copyAll (files : list CopyableFile) (s : Setup R) : option error * Setup R :=
  match files with
  | [] => (None, s)
  | f :: rest =>
      let '(e, t') := Copy f (target (remote s)) in
      let s' := mkSetup (local s) (mkRemote t' (sent (remote s)))
                        (copies s ++ [f]) (made s) (closed s) in
      match e with
      | Some e' => (Some (Wrap e' ("Copy " +:+ GetSourcePath f)), s')
      | None => copyAll rest s'
      end
  end.

(** The body of [SetupCerts]: its result, and [copyableFiles] as it is
    when the function returns.  [walk] gives the traversals of the
    collector; [range1] and [range2] give the entries of the map of CA
    certificates in the order of its two iterations. *)
Definition SetupCerts_body (now : Time) (walk : string -> list Visit)
           (range1 range2 : gmap string string -> list (string * string))
           (k8s : Cluster) (n : NodeId) (s : Setup R)
  : (option error * list CopyableFile) * Setup R :=
  let '((ccs, regen, e), w1) := generateSharedCACerts now (local s) in
  let s1 := mkSetup w1 (remote s) (copies s) (made s) (closed s) in
  match e with
  | Some e' => ((Some (Wrap e' "shared CA certs"), []), s1)
  | None =>
  let '((xfer, e), w2) :=
    generateProfileCerts (c_ClusterConfig k8s) (n_Node n) ccs regen now w1 in
  let s2 := mkSetup w2 (remote s) (copies s) (made s) (closed s) in
  match e with
  | Some e' => ((Some (Wrap e' "profile certs"), []), s2)
  | None =>
  let xfer := match xfer with Some l => l | None => [] end in
  let xfer := xfer ++ [caCert ccs] ++ [caKey ccs] ++ [proxyCert ccs] ++ [proxyKey ccs] in
  let '((copyableFiles, e), s3) := certAssets xfer [] s2 in
  match e with
  | Some e' => ((Some e', copyableFiles), s3)
  | None =>
  match collectCACerts (fs (local s3)) walk with
  | inr e' => ((Some e', copyableFiles), s3)
  | inl caCerts =>
  let '((copyableFiles, e), s4) := caAssets (range1 caCerts) copyableFiles s3 in
  match e with
  | Some e' => ((Some e', copyableFiles), s4)
  | None =>
  match kubeconfig_PopulateFromSettings (kubeconfigSettings n) with
  | inr e' => ((Some (Wrap e' "populating kubeconfig"), copyableFiles), s4)
  | inl kubeCfg =>
  match runtime_Encode kubeCfg with
  | inr e' => ((Some (Wrap e' "encoding kubeconfig"), copyableFiles), s4)
  | inl data =>
  let kubeCfgFile := MemoryAsset data GuestPersistentDir "kubeconfig" "0644" in
  let '(copyableFiles, s5) :=
    if ControlPlane (n_Node n)
    then (copyableFiles ++ [kubeCfgFile], making kubeCfgFile s4)
    else (copyableFiles, s4) in
  let '(e, s6) := copyAll copyableFiles s5 in
  match e with
  | Some e' => ((Some e', copyableFiles), s6)
  | None =>
  let '(e, rem7) := installCertSymlinks (map snd (range2 caCerts)) (remote s6) in
  let s7 := mkSetup (local s6) rem7 (copies s6) (made s6) (closed s6) in
  match e with
  | Some e' => ((Some (Wrap e' "certificate symlinks"), copyableFiles), s7)
  | None =>
  let '(e, rem8) := generateKubeadmCerts now (KubernetesVersion k8s) rem7 in
  let s8 := mkSetup (local s7) rem8 (copies s7) (made s7) (closed s7) in
  match e with
  | Some e' => ((Some (Wrap e' "failed to renew kubeadm certs"), copyableFiles), s8)
  | None => ((None, copyableFiles), s8)
  end end end end end end end end end end.

(** [SetupCerts] gets the generated credentials required to talk to the
    APIServer.  The deferred function closes every file of
    [copyableFiles] when the body returns. *)
Definition SetupCerts (now : Time) (walk : string -> list Visit)
           (range1 range2 : gmap string string -> list (string * string))
           (k8s : Cluster) (n : NodeId) (s : Setup R) : option error * Setup R :=
  let '((e, copyableFiles), s') := SetupCerts_body now walk range1 range2 k8s n s in
  (e, mkSetup (local s') (remote s') (copies s') (made s')
              (closed s' ++ copyableFiles)).

End Orchestrator.

(** The file was opened: a file asset is one that [assets.NewFileAsset]
    makes without error on the given file system; a memory asset opens
    nothing. *)
Definition openedIn `{Assets} (f : FS) (a : CopyableFile) : Prop :=
  match a with
  | FileAsset src dir name perms => assets_NewFileAsset src dir name perms f = None
  | MemoryAsset _ _ _ _ => True
  end.

(** ** A deployment of the small instance *)

Module Deployment.
Import Instance.

#[export] Instance guestDirs : GuestDirs :=
  {| GuestKubernetesCertsDir := "/var/lib/minikube/certs" |}.

(** A file asset can be made of a file that can be opened. *)
#[export] Instance assets : Assets :=
  {| assets_NewFileAsset := fun src _ _ _ f =>
       if canRead f src then None else Some (os_ReadFile_error f src);
     GetSourcePath := fun a =>
       match a with
       | FileAsset src _ _ _ => src
       | MemoryAsset _ _ _ _ => "memory"
       end |}.

#[export] Instance kubeconfig : Kubeconfig :=
  {| KubeCfg := Settings;
     kubeconfig_PopulateFromSettings := fun kcs => inl kcs;
     runtime_Encode := fun cfg => inl (list_byte_of_string (s_ClusterServerAddress cfg)) |}.

(** Copies to the target succeed, except to a target without the
    hashing tool, which stands for one that cannot be reached. *)
#[export] Instance copier : Copier target :=
  {| Copy := fun _ t =>
       if openssl t then (None, t) else (Some (External "connection refused"), t) |}.

Definition range (m : gmap string string) : list (string * string) := map_to_list m.

Definition k8s : Cluster := {| c_ClusterConfig := cluster; KubernetesVersion := "v1.30.0" |}.

Definition master : NodeId := {| n_Node := controlPlane; n_Name := "minikube"; n_Port := 8443 |}.
Definition second : NodeId := {| n_Node := worker; n_Name := "minikube-m02"; n_Port := 8443 |}.

(** A first run on a target that can be reached. *)
Definition start : Setup target :=
  mkSetup (mkWorld trustFS []) (mkRemote (mkTarget ∅ true) []) [] [] [].

Definition unreachable : Setup target :=
  mkSetup (mkWorld trustFS []) (mkRemote (mkTarget ∅ false) []) [] [] [].

(** The target of a first start once the files are copied: the CA and
    the API-server certificate are in the directory of the certificates,
    those of kubeadm are not there yet. *)
Definition copiedTarget : target :=
  {| files := list_to_map
       [ ("/var/lib/minikube/certs/ca.crt", ["C"; xc8]%byte);
         ("/var/lib/minikube/certs/apiserver.crt", ["C"; xc8]%byte) ];
     openssl := true |}.

(** The first start of the control plane, with the lock free. *)
Definition firstStart : option error * Setup target :=
  @SetupCerts codec constants localpath hostFree guestDirs assets kubeconfig
              target runner copier 100 trustWalk range range k8s master start.

End Deployment.
(* ===================================================================== *)
(** * Part II: properties                                                 *)
(* ===================================================================== *)

(** ** Sanity checks of the string and path functions *)

Example Clean_ex1 : Path.Clean "/a//b/./c/../d/" = "/a/b/d". Proof. reflexivity. Qed.
Example Clean_ex2 : Path.Clean "../../a/.." = "../..". Proof. reflexivity. Qed.
Example Clean_ex3 : Path.Clean "/../a" = "/a". Proof. reflexivity. Qed.
Example Clean_ex4 : Path.Clean "" = ".". Proof. reflexivity. Qed.
Example Join_ex1 : Path.Join ["/var/lib/minikube"; "certs"; "etcd"; "server.crt"]
                   = "/var/lib/minikube/certs/etcd/server.crt". Proof. reflexivity. Qed.
Example Ext_ex1 : Path.Ext "/a/b.d/foo.tar.GZ" = ".GZ". Proof. reflexivity. Qed.
Example Ext_ex2 : Path.Ext "/a/b.d/foo" = "". Proof. reflexivity. Qed.
Example Base_ex1 : Path.Base "/a/b.d/foo.crt" = "foo.crt". Proof. reflexivity. Qed.
Example Base_ex2 : Path.Base "///" = "/". Proof. reflexivity. Qed.
Example TrimSuffix_ex1 : Strings.TrimSuffix "FOO.CRT" ".crt" = "FOO.CRT". Proof. reflexivity. Qed.
Example TrimSuffix_ex2 : Strings.TrimSuffix "foo.crt" ".crt" = "foo". Proof. reflexivity. Qed.
Example TrimPrefix_ex1 : Strings.TrimPrefix "etcd-server" "etcd-" = "server". Proof. reflexivity. Qed.
Example ToLower_ex1 : Strings.ToLower ".CrT" = ".crt". Proof. reflexivity. Qed.

(** The table of [path.Clean] in Go's documentation and tests. *)
Example Clean_table :
  map Path.Clean
      [ "abc"; "abc/def"; "a/b/c"; "."; ".."; "../.."; "../../abc"; "/abc"; "/";
        "abc/"; "abc/def/"; "a/b/c/"; "./"; "../"; "../../"; "/abc/";
        "abc//def//ghi"; "//abc"; "///abc"; "//abc//"; "abc//";
        "abc/./def"; "/./abc/def"; "abc/.";
        "abc/def/ghi/../jkl"; "abc/def/../ghi/../jkl"; "abc/def/.."; "abc/def/../..";
        "/abc/def/../.."; "abc/def/../../.."; "/abc/def/../../..";
        "abc/def/../../../ghi/jkl/../../../mno";
        "abc/./../def"; "abc//./../def"; "abc/../../././../def" ]
  = [ "abc"; "abc/def"; "a/b/c"; "."; ".."; "../.."; "../../abc"; "/abc"; "/";
      "abc"; "abc/def"; "a/b/c"; "."; ".."; "../.."; "/abc";
      "abc/def/ghi"; "/abc"; "/abc"; "/abc"; "abc";
      "abc/def"; "/abc/def"; "abc";
      "abc/def/jkl"; "abc/jkl"; "abc"; ".";
      "/"; ".."; "/";
      "../../mno";
      "def"; "def"; "../../def" ].
Proof. vm_compute. reflexivity. Qed.

(** ** Facts about strings and paths *)

Lemma string_app_cons (c : ascii) (a b : string) :
  String c a +:+ b = String c (a +:+ b).
Proof. reflexivity. Qed.

Lemma string_app_nil_l (a : string) : EmptyString +:+ a = a.
Proof. reflexivity. Qed.

Lemma string_app_length (a b : string) :
  String.length (a +:+ b) = (String.length a + String.length b)%nat.
Proof.
  induction a as [|c a IH]; [done|].
  rewrite string_app_cons. simpl. by rewrite IH.
Qed.

Lemma string_app_assoc (a b c : string) : (a +:+ b) +:+ c = a +:+ (b +:+ c).
Proof.
  induction a as [|x a IH]; [done|]. rewrite !string_app_cons. by rewrite IH.
Qed.

Lemma string_app_nil_r (a : string) : a +:+ EmptyString = a.
Proof. induction a as [|x a IH]; [done|]. rewrite string_app_cons. by rewrite IH. Qed.

Lemma substring_all (s : string) : String.substring 0 (String.length s) s = s.
Proof. induction s as [|c s IH]; simpl; [done|]. by rewrite IH. Qed.

Lemma substring_app_l (a b : string) :
  String.substring 0 (String.length a) (a +:+ b) = a.
Proof.
  induction a as [|c a IH]; [by destruct b|].
  rewrite string_app_cons. simpl. by rewrite IH.
Qed.

Lemma substring_app_r (a b : string) :
  String.substring (String.length a) (String.length b) (a +:+ b) = b.
Proof.
  induction a as [|c a IH]; [apply substring_all|].
  rewrite string_app_cons. simpl. exact IH.
Qed.

Lemma HasSuffix_app (a b : string) : Strings.HasSuffix (a +:+ b) b = true.
Proof.
  unfold Strings.HasSuffix. rewrite string_app_length.
  apply andb_true_iff. split; [apply Nat.leb_le; lia|].
  replace (String.length a + String.length b - String.length b)%nat
    with (String.length a) by lia.
  rewrite substring_app_r. apply String.eqb_refl.
Qed.

Lemma TrimSuffix_app (a b : string) : Strings.TrimSuffix (a +:+ b) b = a.
Proof.
  unfold Strings.TrimSuffix. rewrite HasSuffix_app, string_app_length.
  replace (String.length a + String.length b - String.length b)%nat
    with (String.length a) by lia.
  apply substring_app_l.
Qed.

Lemma string_of_list_ascii_app (l1 l2 : list ascii) :
  string_of_list_ascii (l1 ++ l2) = string_of_list_ascii l1 +:+ string_of_list_ascii l2.
Proof.
  induction l1 as [|c l1 IH]; [done|].
  simpl. rewrite string_app_cons. by rewrite IH.
Qed.

Lemma list_ascii_of_string_app (a b : string) :
  list_ascii_of_string (a +:+ b) = list_ascii_of_string a ++ list_ascii_of_string b.
Proof.
  induction a as [|c a IH]; [done|].
  rewrite string_app_cons. simpl. by rewrite IH.
Qed.

(** The scan of [filepath.Ext] returns nothing, or the reversal of a
    non-empty run without separator at the end of the path. *)
Lemma ext_scan_spec (rpath acc : list ascii) :
  Path.ext_scan rpath acc = []
  \/ exists pre post,
      rpath = pre ++ post /\ pre <> []
      /\ forallb (fun c => negb (Path.isSep c)) pre = true
      /\ Path.ext_scan rpath acc = rev pre ++ acc.
Proof.
  revert acc. induction rpath as [|c r IH]; intros acc; simpl; [by left|].
  destruct (Path.isSep c) eqn:Hsep; [by left|].
  destruct (Ascii.eqb c "."); [right; exists [c], r; simpl; by rewrite Hsep|].
  destruct (IH (c :: acc)) as [Hnil|(pre & post & -> & Hne & Hall & Hscan)]; [by left|].
  right. exists (c :: pre), post. simpl. rewrite Hsep, Hall, Hscan, <- app_assoc.
  done.
Qed.

Lemma last_elem_app (pre post acc : list ascii) :
  forallb (fun c => negb (Path.isSep c)) pre = true ->
  Path.last_elem (pre ++ post) acc = Path.last_elem post (rev pre ++ acc).
Proof.
  revert acc. induction pre as [|c pre IH]; intros acc; simpl; [done|].
  intros [Hc Hall]%andb_true_iff. apply negb_true_iff in Hc. rewrite Hc.
  rewrite (IH _ Hall), <- app_assoc. done.
Qed.

Lemma last_elem_extends (post acc : list ascii) :
  exists stem, Path.last_elem post acc = stem ++ acc.
Proof.
  revert acc. induction post as [|c post IH]; intros acc; simpl; [by exists []|].
  destruct (Path.isSep c); [by exists []|].
  destruct (IH (c :: acc)) as (stem & ->). exists (stem ++ [c]).
  by rewrite <- app_assoc.
Qed.

Lemma strip_seps_id (pre post : list ascii) :
  pre <> [] -> forallb (fun c => negb (Path.isSep c)) pre = true ->
  Path.strip_seps (pre ++ post) = pre ++ post.
Proof.
  destruct pre as [|c pre]; [done|]. simpl.
  intros _ [Hc _]%andb_true_iff. apply negb_true_iff in Hc. by rewrite Hc.
Qed.

(** The extension of a path, when it has one, ends its base name, and
    trimming it from the base name leaves the rest. *)
Lemma Base_ends_with_Ext (p : string) :
  Path.Ext p <> EmptyString ->
  exists stem,
    Path.Base p = stem +:+ Path.Ext p
    /\ Strings.TrimSuffix (Path.Base p) (Path.Ext p) = stem.
Proof.
  unfold Path.Ext, Path.Base. intros Hext.
  destruct (ext_scan_spec (rev (list_ascii_of_string p)) [])
    as [Hnil|(pre & post & Hr & Hne & Hall & Hscan)].
  { by rewrite Hnil in Hext. }
  rewrite Hscan, app_nil_r.
  destruct (String.eqb_spec p EmptyString) as [->|_].
  { simpl in Hr. by destruct pre. }
  rewrite Hr, (strip_seps_id _ _ Hne Hall), (last_elem_app _ _ _ Hall), app_nil_r.
  destruct (last_elem_extends post (rev pre)) as (stem & ->).
  destruct (stem ++ rev pre) as [|c l] eqn:Hl.
  { apply app_eq_nil in Hl as [_ Hl]. apply (f_equal (@rev ascii)) in Hl.
    rewrite rev_involutive in Hl. done. }
  rewrite <- Hl, string_of_list_ascii_app.
  exists (string_of_list_ascii stem). split; [done|]. apply TrimSuffix_app.
Qed.

Lemma isName_spec (name : string) :
  isName name = true ->
  name <> EmptyString /\ name <> "." /\ name <> ".."
  /\ forallb (fun c => negb (Path.isSep c)) (list_ascii_of_string name) = true.
Proof.
  unfold isName. rewrite !andb_true_iff, !negb_true_iff, !String.eqb_neq. tauto.
Qed.

Lemma split_slash_name (name cur : string) :
  forallb (fun c => negb (Path.isSep c)) (list_ascii_of_string name) = true ->
  Strings.split_slash name cur = [cur +:+ name].
Proof.
  revert cur. induction name as [|c name IH]; intros cur; simpl.
  { by rewrite string_app_nil_r. }
  intros [Hc Hall]%andb_true_iff. apply negb_true_iff in Hc.
  unfold Path.isSep in Hc. rewrite Hc, (IH _ Hall), string_app_assoc. done.
Qed.

Lemma split_slash_snoc (a name cur : string) :
  forallb (fun c => negb (Path.isSep c)) (list_ascii_of_string name) = true ->
  Strings.split_slash (a +:+ "/" +:+ name) cur = Strings.split_slash a cur ++ [name].
Proof.
  intros Hn. revert cur. induction a as [|c a IH]; intros cur; simpl.
  { by rewrite (split_slash_name _ _ Hn). }
  destruct (Ascii.eqb c "/"); by rewrite IH.
Qed.

Lemma strings_Join_snoc (l : list string) (name : string) :
  Strings.Join (l ++ [name]) "/"
  = match l with
    | [] => name
    | _ => Strings.Join l "/" +:+ "/" +:+ name
    end.
Proof.
  induction l as [|x l IH]; [done|].
  destruct l as [|y l]; [done|].
  change (Strings.Join ((x :: y :: l) ++ [name]) "/")
    with (x +:+ "/" +:+ Strings.Join ((y :: l) ++ [name]) "/").
  rewrite IH.
  change (Strings.Join (x :: y :: l) "/") with (x +:+ "/" +:+ Strings.Join (y :: l) "/").
  by rewrite !string_app_assoc.
Qed.

Lemma clean_step_name (rooted : bool) (acc : list string) (name : string) :
  isName name = true -> Path.clean_step rooted acc name = name :: acc.
Proof.
  intros (Hne & Hdot & Hdots & _)%isName_spec. unfold Path.clean_step.
  apply String.eqb_neq in Hne, Hdot, Hdots. by rewrite Hne, Hdot, Hdots.
Qed.

(** A path cleaned after a plain name was appended ends with that name. *)
Lemma Clean_snoc (a name : string) :
  isName name = true ->
  Path.Clean (a +:+ "/" +:+ name) = name
  \/ exists q, Path.Clean (a +:+ "/" +:+ name) = q +:+ "/" +:+ name.
Proof.
  intros Hname. pose proof (isName_spec _ Hname) as (Hne & _ & _ & Hn).
  unfold Path.Clean.
  rewrite (split_slash_snoc _ _ _ Hn), fold_left_app. cbn [fold_left].
  rewrite (clean_step_name _ _ _ Hname). cbn [rev]. rewrite strings_Join_snoc.
  destruct (String.prefix "/" (a +:+ "/" +:+ name)).
  - right. destruct (rev _) as [|x l].
    + by exists EmptyString.
    + exists ("/" +:+ Strings.Join (x :: l) "/"). by rewrite !string_app_assoc.
  - destruct (rev _) as [|x l].
    + left. apply String.eqb_neq in Hne. by rewrite Hne.
    + right. exists (Strings.Join (x :: l) "/").
      destruct (String.eqb_spec (Strings.Join (x :: l) "/" +:+ "/" +:+ name)
                                EmptyString) as [He|_]; [|done].
      apply (f_equal String.length) in He.
      rewrite !string_app_length in He. simpl in He. lia.
Qed.

Lemma Clean_name (name : string) : isName name = true -> Path.Clean name = name.
Proof.
  intros Hname. pose proof (isName_spec _ Hname) as (Hne & _ & _ & Hn).
  unfold Path.Clean.
  rewrite (split_slash_name _ _ Hn). cbn [fold_left]. rewrite string_app_nil_l.
  rewrite (clean_step_name _ _ _ Hname). cbn [rev app Strings.Join].
  apply String.eqb_neq in Hne. rewrite Hne.
  destruct name as [|c name]; [done|]. simpl in Hn.
  apply andb_true_iff in Hn as [Hc _]. apply negb_true_iff in Hc.
  unfold Path.isSep in Hc. cbn [String.prefix].
  destruct (ascii_dec "/" c) as [<-|_]; [done|reflexivity].
Qed.

Lemma Base_name (name : string) : isName name = true -> Path.Base name = name.
Proof.
  intros (Hne & _ & _ & Hn)%isName_spec. unfold Path.Base.
  apply String.eqb_neq in Hne. rewrite Hne. apply String.eqb_neq in Hne.
  assert (forallb (fun c => negb (Path.isSep c)) (rev (list_ascii_of_string name))
          = true) as Hr.
  { rewrite forallb_forall in *. intros c Hc. apply Hn. by apply in_rev. }
  assert (rev (list_ascii_of_string name) <> []) as Hnil.
  { intros He. apply (f_equal (@rev ascii)) in He. rewrite rev_involutive in He.
    destruct name; done. }
  rewrite <- (app_nil_r (rev (list_ascii_of_string name))).
  rewrite (strip_seps_id _ _ Hnil Hr), (last_elem_app _ _ _ Hr).
  cbn [Path.last_elem]. rewrite rev_involutive, app_nil_r.
  destruct (list_ascii_of_string name) eqn:Hl; [by destruct name|].
  rewrite <- Hl. apply string_of_list_ascii_of_string.
Qed.

Lemma Base_snoc (q name : string) :
  isName name = true -> Path.Base (q +:+ "/" +:+ name) = name.
Proof.
  intros (Hne & _ & _ & Hn)%isName_spec. unfold Path.Base.
  destruct (String.eqb_spec (q +:+ "/" +:+ name) EmptyString) as [He|_].
  { apply (f_equal String.length) in He. rewrite !string_app_length in He.
    simpl in He. lia. }
  assert (forallb (fun c => negb (Path.isSep c)) (rev (list_ascii_of_string name))
          = true) as Hr.
  { rewrite forallb_forall in *. intros c Hc. apply Hn. by apply in_rev. }
  assert (rev (list_ascii_of_string name) <> []) as Hnil.
  { intros He. apply (f_equal (@rev ascii)) in He. rewrite rev_involutive in He.
    destruct name; done. }
  rewrite !list_ascii_of_string_app, !rev_app_distr. cbn [list_ascii_of_string rev app].
  rewrite <- app_assoc. cbn [app].
  rewrite (strip_seps_id _ _ Hnil Hr), (last_elem_app _ _ _ Hr).
  cbn [Path.last_elem Path.isSep Ascii.eqb]. cbn. rewrite rev_involutive, app_nil_r.
  destruct (list_ascii_of_string name) eqn:Hl; [by destruct name|].
  rewrite <- Hl. apply string_of_list_ascii_of_string.
Qed.

(** The base name of a directory joined with a plain name is the name. *)
Lemma Base_Join (d name : string) :
  isName name = true -> Path.Base (Path.Join [d; name]) = name.
Proof.
  intros Hn. unfold Path.Join.
  destruct (String.eqb d EmptyString).
  - pose proof (isName_spec _ Hn) as (Hne & _). apply String.eqb_neq in Hne.
    rewrite Hne. cbn [Strings.Join]. rewrite (Clean_name _ Hn). by apply Base_name.
  - cbn [Strings.Join]. destruct (Clean_snoc d name Hn) as [->|(q & ->)].
    + by apply Base_name.
    + by apply Base_snoc.
Qed.

Lemma Clean_nonempty (p : string) : Path.Clean p <> EmptyString.
Proof.
  unfold Path.Clean. destruct (String.prefix "/" p); [done|].
  by destruct (String.eqb_spec (Strings.Join (rev (fold_left (Path.clean_step false)
                 (Strings.split_slash p EmptyString) [])) "/") EmptyString).
Qed.

Lemma Join_nonempty (d name : string) :
  name <> EmptyString -> Path.Join [d; name] <> EmptyString.
Proof.
  intros Hne. unfold Path.Join. apply String.eqb_neq in Hne.
  destruct (String.eqb d EmptyString); [rewrite Hne|]; apply Clean_nonempty.
Qed.

Lemma Join_names_differ (d1 d2 n1 n2 : string) :
  isName n1 = true -> isName n2 = true -> n1 <> n2 ->
  Path.Join [d1; n1] <> Path.Join [d2; n2].
Proof.
  intros H1 H2 Hne He. apply (f_equal Path.Base) in He.
  rewrite !Base_Join in He by done. done.
Qed.

(** SHA-1 test vectors of FIPS 180-4. *)
Example sha1_abc :
  hex (SHA1.Sum (list_byte_of_string "abc")) = "a9993e364706816aba3e25717850c26c9cd0d89d".
Proof. vm_compute. reflexivity. Qed.

Example sha1_empty :
  hex (SHA1.Sum []) = "da39a3ee5e6b4b0d3255bfef95601890afd80709".
Proof. vm_compute. reflexivity. Qed.

Example sha1_two_blocks :
  hex (SHA1.Sum (list_byte_of_string
         "abcdbcdecdefdefgefghfghighijhijkijkljklmklmnlmnomnopnopq"))
  = "84983e441c3bd26ebaae4aa1f95129e5e54670f1".
Proof. vm_compute. reflexivity. Qed.

Example sort_Strings_ex :
  sort_Strings ["minikube"; "10.0.0.1"; "localhost"; "127.0.0.1"]
  = ["10.0.0.1"; "127.0.0.1"; "localhost"; "minikube"].
Proof. vm_compute. reflexivity. Qed.

(** ** Validity checker *)

Section ValidityFacts.
Context `{Codec}.

Lemma lookup_removed_cert (certPath keyPath : string) (f : FS) :
  os_Remove keyPath (os_Remove certPath f) !! certPath = None.
Proof.
  unfold os_Remove. destruct (decide (keyPath = certPath)) as [->|Hne].
  - apply lookup_delete_eq.
  - rewrite lookup_delete_ne by done. apply lookup_delete_eq.
Qed.

Lemma lookup_removed_key (certPath keyPath : string) (f : FS) :
  os_Remove keyPath (os_Remove certPath f) !! keyPath = None.
Proof. unfold os_Remove. apply lookup_delete_eq. Qed.

Lemma lookup_removed_other (certPath keyPath p : string) (f : FS) :
  p <> certPath -> p <> keyPath ->
  os_Remove keyPath (os_Remove certPath f) !! p = f !! p.
Proof.
  intros Hc Hk. unfold os_Remove.
  rewrite lookup_delete_ne by done. by rewrite lookup_delete_ne.
Qed.

Lemma isValid_true_untouched (now : Time) (certPath keyPath : string) (f : FS) :
  (isValid now certPath keyPath f).1 = true -> (isValid now certPath keyPath f).2 = f.
Proof.
  unfold isValid. destruct (negb (canRead f keyPath)); [done|].
  destruct (os_ReadFile f certPath) as [data|]; [|done].
  destruct (pem_Decode data) as [[b rest]|]; [|done].
  destruct (x509_ParseCertificate (Bytes b)) as [cert|]; [|done].
  by destruct (NotAfter cert <? now)%Z.
Qed.

(** Whatever the verdict, no file other than the two of the pair is
    touched. *)
Lemma isValid_other_files (now : Time) (certPath keyPath p : string) (f : FS) :
  p <> certPath -> p <> keyPath ->
  (isValid now certPath keyPath f).2 !! p = f !! p.
Proof.
  intros Hc Hk. unfold isValid. destruct (negb (canRead f keyPath)); [done|].
  destruct (os_ReadFile f certPath) as [data|];
    [|by apply lookup_removed_other].
  destruct (pem_Decode data) as [[b rest]|]; [|by apply lookup_removed_other].
  destruct (x509_ParseCertificate (Bytes b)) as [cert|];
    [|by apply lookup_removed_other].
  destruct (NotAfter cert <? now)%Z; [by apply lookup_removed_other|done].
Qed.

(** C1, as the code has it.  [isValid] returns false whenever the key
    file is unreadable, or the certificate file is unreadable, fails to
    decode as PEM, fails to parse as X.509, or has [NotAfter] strictly
    before the current time.  In the first case it leaves the file
    system as it is; in the four others both files are absent
    afterwards.  It returns true, leaving the file system untouched,
    exactly when the key is readable and the certificate reads,
    decodes, parses and has [NotAfter] at or after the current time. *)
Theorem isValid_cases (now : Time) (certPath keyPath : string) (f : FS) :
  let r := isValid now certPath keyPath f in
  let bothAbsent := r.1 = false /\ r.2 !! certPath = None /\ r.2 !! keyPath = None in
  (canRead f keyPath = false -> r = (false, f))
  /\ (canRead f keyPath = true ->
      (os_ReadFile f certPath = None -> bothAbsent)
      /\ (forall data, os_ReadFile f certPath = Some data ->
          (pem_Decode data = None -> bothAbsent)
          /\ (forall b rest, pem_Decode data = Some (b, rest) ->
              (x509_ParseCertificate (Bytes b) = None -> bothAbsent)
              /\ (forall cert, x509_ParseCertificate (Bytes b) = Some cert ->
                  ((NotAfter cert < now)%Z -> bothAbsent)
                  /\ ((now <= NotAfter cert)%Z -> r = (true, f))))))
  /\ (r.1 = true <->
      canRead f keyPath = true
      /\ exists data b rest cert,
          os_ReadFile f certPath = Some data
          /\ pem_Decode data = Some (b, rest)
          /\ x509_ParseCertificate (Bytes b) = Some cert
          /\ (now <= NotAfter cert)%Z)
  /\ (r.1 = true -> r.2 = f).
Proof.
  cbv zeta. unfold isValid.
  destruct (canRead f keyPath) eqn:Hk; simpl.
  2:{ split; [done|]. split; [done|]. split; [|done].
      split; [done|]. intros [? _]. done. }
  split; [done|].
  destruct (os_ReadFile f certPath) as [data|] eqn:Hr; simpl.
  2:{ split; [|split; [|done]].
      - intros _. split; [|done]. intros _. split; [done|].
        split; [apply lookup_removed_cert|apply lookup_removed_key].
      - split; [done|]. intros (_ & ? & ? & ? & ? & ? & _). done. }
  destruct (pem_Decode data) as [[b rest]|] eqn:Hd; simpl.
  2:{ split; [|split; [|done]].
      - intros _. split; [done|]. intros ? [= <-]. split; [|intros; congruence].
        intros _. split; [done|].
        split; [apply lookup_removed_cert|apply lookup_removed_key].
      - split; [done|]. intros (_ & ? & ? & ? & ? & [= <-] & ? & _). congruence. }
  destruct (x509_ParseCertificate (Bytes b)) as [cert|] eqn:Hp; simpl.
  2:{ split; [|split; [|done]].
      - intros _. split; [done|]. intros ? [= <-].
        split; [intros; congruence|]. intros ? ? ?.
        assert (b0 = b) as -> by congruence.
        split; [|intros; congruence]. intros _. split; [done|].
        split; [apply lookup_removed_cert|apply lookup_removed_key].
      - split; [done|].
        intros (_ & ? & ? & ? & ? & [= <-] & ? & ? & _).
        assert (x0 = b) as -> by congruence. congruence. }
  destruct (Z.ltb_spec (NotAfter cert) now) as [Hlt|Hge]; simpl.
  - split; [|split; [|done]].
    + intros _. split; [done|]. intros ? [= <-].
      split; [intros; congruence|]. intros ? ? ?.
      assert (b0 = b) as -> by congruence.
      split; [intros; congruence|]. intros ? ?.
      assert (cert0 = cert) as -> by congruence.
      split; [|lia]. intros _. split; [done|].
      split; [apply lookup_removed_cert|apply lookup_removed_key].
    + split; [done|].
      intros (_ & ? & ? & ? & ? & [= <-] & ? & ? & ?).
      assert (x0 = b) as -> by congruence.
      assert (x2 = cert) as -> by congruence. lia.
  - split; [|split; [|done]].
    + intros _. split; [done|]. intros ? [= <-].
      split; [intros; congruence|]. intros ? ? ?.
      assert (b0 = b) as -> by congruence.
      split; [intros; congruence|]. intros ? ?.
      assert (cert0 = cert) as -> by congruence.
      split; [lia|done].
    + split; [|done]. intros _. split; [done|]. by exists data, b, rest, cert.
Qed.

End ValidityFacts.

Section ValidityExamples.
Import Instance.

(** C1 fails as stated, at two inputs.  With the key file missing and a
    good certificate in place, [isValid] returns false and the
    certificate file is still there afterwards.  With a certificate
    whose [NotAfter] is the current instant (not strictly after it),
    [isValid] returns true. *)
Lemma isValid_key_missing_or_expiring_now :
  (canRead Instance.keyMissingFS "/p/client.key" = false
   /\ (isValid 100 "/p/client.crt" "/p/client.key" Instance.keyMissingFS).1 = false
   /\ (isValid 100 "/p/client.crt" "/p/client.key" Instance.keyMissingFS).2
        !! "/p/client.crt" = Some Instance.certFile)
  /\ (x509_ParseCertificate [xc8]%byte = Some (mkCertificate 200)
      /\ (isValid 200 "/p/client.crt" "/p/client.key" Instance.pairFS).1 = true).
Proof. vm_compute. repeat split; reflexivity. Qed.

End ValidityExamples.

Section RemoteValidityFacts.
Context `{Codec} {R : Type} `{Runner R}.

Lemma run_sent (c : Cmd) (rem : Remote R) :
  sent (run c rem).2 = sent rem ++ [c].
Proof. unfold run. by destruct (RunCmd c (target rem)) as [res t']. Qed.

Lemma run_result (c : Cmd) (rem : Remote R) :
  (run c rem).1 = (RunCmd c (target rem)).1.
Proof. unfold run. by destruct (RunCmd c (target rem)) as [res t']. Qed.

Lemma isKubeadmCertValid_sent (now : Time) (certPath : string) (rem : Remote R) :
  sent (isKubeadmCertValid now certPath rem).2 = sent rem ++ [["cat"; certPath]].
Proof.
  unfold isKubeadmCertValid.
  pose proof (run_sent ["cat"; certPath] rem) as Hs.
  destruct (run ["cat"; certPath] rem) as [[rr e] rem']. simpl in Hs.
  destruct e; [done|].
  destruct (pem_Decode (Stdout rr)) as [[b rest]|]; [|done].
  destruct (x509_ParseCertificate (Bytes b)) as [cert|]; [|done].
  by destruct (NotAfter cert <? now)%Z.
Qed.

(** C5.  When the remote read of the certificate fails,
    [isKubeadmCertValid] returns true.  It returns false exactly when
    the read succeeded and the bytes fail to decode as PEM, or fail to
    parse as X.509, or have [NotAfter] before the current time. *)
Theorem isKubeadmCertValid_cases (now : Time) (certPath : string) (rem : Remote R) :
  let read := (RunCmd ["cat"; certPath] (target rem)).1 in
  let ok := (isKubeadmCertValid now certPath rem).1 in
  (read.2 <> None -> ok = true)
  /\ (ok = false <->
      read.2 = None
      /\ (pem_Decode (Stdout read.1) = None
          \/ exists b rest,
              pem_Decode (Stdout read.1) = Some (b, rest)
              /\ (x509_ParseCertificate (Bytes b) = None
                  \/ exists cert,
                      x509_ParseCertificate (Bytes b) = Some cert
                      /\ (NotAfter cert < now)%Z))).
Proof.
  cbv zeta. unfold isKubeadmCertValid.
  pose proof (run_result ["cat"; certPath] rem) as Hr.
  destruct (run ["cat"; certPath] rem) as [[rr e] rem']. simpl in Hr.
  rewrite <- Hr. simpl.
  destruct e as [e|]; simpl.
  { split; [done|]. split; [done|]. intros [? _]. done. }
  split; [done|].
  destruct (pem_Decode (Stdout rr)) as [[b rest]|] eqn:Hd; simpl.
  2:{ split; [|done]. intros _. split; [done|]. by left. }
  destruct (x509_ParseCertificate (Bytes b)) as [cert|] eqn:Hp; simpl.
  2:{ split; [|done]. intros _. split; [done|]. right. exists b, rest. split; [done|]. by left. }
  destruct (Z.ltb_spec (NotAfter cert) now) as [Hlt|Hge]; simpl.
  - split; [|done]. intros _. split; [done|]. right. exists b, rest.
    split; [done|]. right. by exists cert.
  - split; [done|]. intros [_ [?|(b' & rest' & [= <- <-] & [?|(cert' & ? & ?)])]].
    + done.
    + congruence.
    + assert (cert' = cert) as -> by congruence. lia.
Qed.

End RemoteValidityFacts.

(** ** The order of [sort.Strings] *)

Lemma ascii_compare_N (a b : ascii) :
  Ascii.compare a b = N.compare (N_of_ascii a) (N_of_ascii b).
Proof. reflexivity. Qed.

Lemma string_compare_refl (s : string) : String.compare s s = Eq.
Proof.
  induction s as [|c s IH]; simpl; [done|].
  rewrite ascii_compare_N, N.compare_refl. exact IH.
Qed.

Lemma string_le_trans (a b c : string) :
  string_le a b -> string_le b c -> string_le a c.
Proof.
  unfold string_le, String.leb. revert b c.
  induction a as [|x a IH]; intros [|y b] [|z c]; simpl; try done.
  rewrite !ascii_compare_N.
  destruct (N.compare_spec (N_of_ascii x) (N_of_ascii y)) as [Hxy|Hxy|Hxy];
    destruct (N.compare_spec (N_of_ascii y) (N_of_ascii z)) as [Hyz|Hyz|Hyz];
    try done.
  - rewrite Hxy, Hyz, N.compare_refl. apply IH.
  - intros _ _. rewrite Hxy. by apply N.compare_lt_iff in Hyz as ->.
  - intros _ _. rewrite <- Hyz. by apply N.compare_lt_iff in Hxy as ->.
  - intros _ _. assert (N_of_ascii x < N_of_ascii z)%N as Hxz by lia.
    by apply N.compare_lt_iff in Hxz as ->.
Qed.

#[global] Instance string_le_transitive : Transitive string_le.
Proof. intros a b c. apply string_le_trans. Qed.

#[global] Instance string_le_antisymm : AntiSymm (=) string_le.
Proof. intros a b. apply String.leb_antisym. Qed.

#[global] Instance string_le_total : Total string_le.
Proof. intros a b. apply String.leb_total. Qed.

Lemma sort_Strings_sorted (l : list string) : Sorted string_le (sort_Strings l).
Proof. apply (Sorted_merge_sort string_le). Qed.

Lemma sort_Strings_permutation (l : list string) : sort_Strings l ≡ₚ l.
Proof. apply merge_sort_Permutation. Qed.

(** Two lists with the same elements, in whatever order, sort to the
    same list. *)
Lemma sort_Strings_order_irrelevant (l1 l2 : list string) :
  l1 ≡ₚ l2 -> sort_Strings l1 = sort_Strings l2.
Proof.
  intros Hp. apply (Sorted_unique string_le); try apply sort_Strings_sorted.
  by rewrite !sort_Strings_permutation.
Qed.

(** ** Length of the digest and of its hexadecimal form *)

Lemma word_bytes_length (x : Z) : length (SHA1.word_bytes x) = 4%nat.
Proof. reflexivity. Qed.

Lemma sha1_Sum_length (data : list byte) : length (SHA1.Sum data) = 20%nat.
Proof.
  unfold SHA1.Sum.
  destruct (SHA1.digest_words _) as [[[[a b] c] d] e].
  rewrite !length_app, !word_bytes_length. reflexivity.
Qed.

Lemma hex_length (bs : list byte) : String.length (hex bs) = (2 * length bs)%nat.
Proof. induction bs as [|b bs IH]; simpl; [done|]. rewrite IH. lia. Qed.

Lemma substring_prefix_length (n : nat) (s : string) :
  (n <= String.length s)%nat -> String.length (String.substring 0 n s) = n.
Proof.
  revert s. induction n as [|n IH]; intros [|c s]; simpl; try done; try lia.
  intros Hn. rewrite IH; [done|lia].
Qed.

(** ** SAN fingerprint *)

Section FingerprintFacts.
Context `{Host}.

Lemma fingerprint_length (names : list string) (addrs : list IP) :
  String.length (fingerprint names addrs) = 8%nat.
Proof.
  unfold fingerprint. apply substring_prefix_length.
  rewrite hex_length, sha1_Sum_length. lia.
Qed.


(** C4.  The fingerprint is the first 8 hexadecimal characters of the
    SHA-1 digest of the slash-joined input; that input is the sorted
    list of the alternate names and the string-formatted IPs.  Two
    inputs that differ only in the order of their names and IPs have the
    same fingerprint, of 8 characters. *)
Theorem fingerprint_order_irrelevant
        (names1 names2 : list string) (addrs1 addrs2 : list IP) :
  names1 ++ map IP_String addrs1 ≡ₚ names2 ++ map IP_String addrs2 ->
  fingerprint names1 addrs1 = fingerprint names2 addrs2
  /\ String.length (fingerprint names1 addrs1) = 8%nat
  /\ fingerprint names1 addrs1
     = String.substring 0 8
         (hex (SHA1.Sum (list_byte_of_string
                           (Strings.Join (hashInput names1 addrs1) "/"))))
  /\ Sorted string_le (hashInput names1 addrs1)
  /\ hashInput names1 addrs1 ≡ₚ names1 ++ map IP_String addrs1.
Proof.
  intros Hp. split; [|split; [|split; [|split]]].
  - unfold fingerprint, hashInput. simpl.
    by rewrite (sort_Strings_order_irrelevant _ _ Hp).
  - apply fingerprint_length.
  - reflexivity.
  - apply sort_Strings_sorted.
  - unfold hashInput. simpl. apply sort_Strings_permutation.
Qed.

End FingerprintFacts.

Section FingerprintExamples.
Import Instance.
#[local] Existing Instance hostFree.

Lemma fingerprint_order_irrelevant_witness :
  fingerprint ["minikubeCA"; "localhost"] [Some (list_byte_of_string "10.0.0.1"); None]
  = fingerprint ["localhost"; "minikubeCA"] [None; Some (list_byte_of_string "10.0.0.1")].
Proof.
  refine (proj1 (fingerprint_order_irrelevant
                   ["minikubeCA"; "localhost"] ["localhost"; "minikubeCA"]
                   [Some (list_byte_of_string "10.0.0.1"); None]
                   [None; Some (list_byte_of_string "10.0.0.1")] _)).
  vm_compute.
  apply (Permutation_trans (l' := ["localhost"; "minikubeCA"; "10.0.0.1"; "<nil>"])).
  - apply perm_swap.
  - do 2 apply perm_skip. apply perm_swap.
Defined.

Example fingerprint_value :
  fingerprint ["minikubeCA"; "localhost"] [Some (list_byte_of_string "10.0.0.1"); None]
  = "ecd829cc".
Proof. vm_compute. reflexivity. Qed.

(** The input is a list, not a set: a name given twice is hashed twice. *)
Example fingerprint_counts_repetitions :
  fingerprint ["localhost"] [] = "33438904"
  /\ fingerprint ["localhost"; "localhost"] [] = "6120bd04".
Proof. split; vm_compute; reflexivity. Qed.

End FingerprintExamples.

(** ** Kubeadm certificate refresher *)

Section KubeadmFacts.
Context `{Codec} `{Constants} {R : Type} `{Runner R}.

Lemma kubeadmCheckAll_sent (now : Time) (certs : list string) (b : bool)
      (rem : Remote R) :
  sent (kubeadmCheckAll now certs b rem).2 = sent rem ++ map catCmd certs.
Proof.
  revert b rem. induction certs as [|c certs IH]; intros b rem; simpl.
  - by rewrite app_nil_r.
  - pose proof (isKubeadmCertValid_sent now (kubeadmCertPath c) rem) as Hs.
    destruct (isKubeadmCertValid now (kubeadmCertPath c) rem) as [ok rem'].
    simpl in Hs. rewrite IH, Hs, <- app_assoc. reflexivity.
Qed.

Lemma kubeadmCheckAll_flag (now : Time) (certs : list string) (b : bool)
      (rem : Remote R) :
  (kubeadmCheckAll now certs b rem).1
  = b || negb (forallb id (kubeadmVerdicts now certs rem)).
Proof.
  revert b rem. induction certs as [|c certs IH]; intros b rem; simpl.
  - by rewrite orb_false_r.
  - destruct (isKubeadmCertValid now (kubeadmCertPath c) rem) as [ok rem'].
    rewrite IH. simpl. destruct ok, b; reflexivity.
Qed.

Lemma kubeadmVerdicts_length (now : Time) (certs : list string) (rem : Remote R) :
  length (kubeadmVerdicts now certs rem) = length certs.
Proof.
  revert rem. induction certs as [|c certs IH]; intros rem; simpl; [done|].
  destruct (isKubeadmCertValid now (kubeadmCertPath c) rem) as [ok rem'].
  simpl. by rewrite IH.
Qed.

(** C7, as the code has it.  The refresher checks six fixed names, the
    names with prefix [etcd-] under the [etcd] subdirectory with the
    prefix stripped, each by one remote read.  When all six checks pass
    it sends nothing but these six reads and returns no error.  When at
    least one fails it sends, after the six reads, exactly one renew
    command, and returns an error exactly when that command fails. *)
Theorem generateKubeadmCerts_commands (now : Time) (version : string) (rem : Remote R) :
  let verdicts := kubeadmVerdicts now kubeadmCerts rem in
  let checked := (kubeadmCheckAll now kubeadmCerts false rem).2 in
  let r := generateKubeadmCerts now version rem in
  map kubeadmCertPath kubeadmCerts
  = [ Path.Join [GuestPersistentDir; "certs"; "apiserver-etcd-client.crt"];
      Path.Join [GuestPersistentDir; "certs"; "apiserver-kubelet-client.crt"];
      Path.Join [GuestPersistentDir; "certs"; "etcd"; "server.crt"];
      Path.Join [GuestPersistentDir; "certs"; "etcd"; "healthcheck-client.crt"];
      Path.Join [GuestPersistentDir; "certs"; "etcd"; "peer.crt"];
      Path.Join [GuestPersistentDir; "certs"; "front-proxy-client.crt"] ]
  /\ length verdicts = 6%nat
  /\ ~ In (renewCmd version) (map catCmd kubeadmCerts)
  /\ (forallb id verdicts = true ->
      r.1 = None /\ sent r.2 = sent rem ++ map catCmd kubeadmCerts)
  /\ (forallb id verdicts = false ->
      sent r.2 = sent rem ++ map catCmd kubeadmCerts ++ [renewCmd version]
      /\ r.1 = match (RunCmd (renewCmd version) (target checked)).1.2 with
               | Some e => Some (Wrap e "failed to renew kubeadm certs")
               | None => None
               end).
Proof.
  cbv zeta. split; [reflexivity|]. split; [apply kubeadmVerdicts_length|].
  split.
  { simpl. unfold catCmd, renewCmd. intros Hin.
    repeat (destruct Hin as [Hin|Hin]; [discriminate Hin|]). exact Hin. }
  unfold generateKubeadmCerts.
  pose proof (kubeadmCheckAll_sent now kubeadmCerts false rem) as Hs.
  pose proof (kubeadmCheckAll_flag now kubeadmCerts false rem) as Hf.
  destruct (kubeadmCheckAll now kubeadmCerts false rem) as [needs rem1].
  cbn [fst snd] in Hs, Hf. cbn [snd]. split.
  - intros Hall. rewrite Hall in Hf. subst needs. cbn [negb orb fst snd]. done.
  - intros Hsome. rewrite Hsome in Hf. subst needs. cbn [negb orb].
    pose proof (run_sent (renewCmd version) rem1) as Hs2.
    pose proof (run_result (renewCmd version) rem1) as Hr2.
    destruct (run (renewCmd version) rem1) as [[rr e] rem2].
    cbn [fst snd] in Hs2, Hr2. rewrite <- Hr2. cbn [fst snd].
    destruct e; cbn [fst snd]; rewrite Hs2, Hs, <- app_assoc; done.
Qed.

End KubeadmFacts.

Section KubeadmExamples.
Import Instance.

(** C7 fails as stated where it says that no remote command at all is
    issued when all six certificates are valid: the six checks are
    themselves remote commands. *)
Lemma generateKubeadmCerts_reads_when_all_valid :
  kubeadmVerdicts 100 kubeadmCerts (mkRemote kubeadmTarget [])
  = [true; true; true; true; true; true]
  /\ generateKubeadmCerts 100 "v1.30.0" (mkRemote kubeadmTarget [])
     = (None,
        mkRemote kubeadmTarget
          [ ["cat"; "/var/lib/minikube/certs/apiserver-etcd-client.crt"];
            ["cat"; "/var/lib/minikube/certs/apiserver-kubelet-client.crt"];
            ["cat"; "/var/lib/minikube/certs/etcd/server.crt"];
            ["cat"; "/var/lib/minikube/certs/etcd/healthcheck-client.crt"];
            ["cat"; "/var/lib/minikube/certs/etcd/peer.crt"];
            ["cat"; "/var/lib/minikube/certs/front-proxy-client.crt"] ]).
Proof. split; vm_compute; reflexivity. Qed.

(** At 300 the six certificates have expired: one renew command follows
    the six reads. *)
Example generateKubeadmCerts_renews_when_expired :
  (generateKubeadmCerts 300 "v1.30.0" (mkRemote kubeadmTarget [])).1 = None
  /\ last (sent (generateKubeadmCerts 300 "v1.30.0" (mkRemote kubeadmTarget [])).2)
     = Some (renewCmd "v1.30.0")
  /\ length (sent (generateKubeadmCerts 300 "v1.30.0" (mkRemote kubeadmTarget [])).2)
     = 7%nat.
Proof. repeat split; vm_compute; reflexivity. Qed.

End KubeadmExamples.

(** ** CA provisioner *)

Section CAProvisionerFacts.
Context `{Codec} `{Localpath} `{Host}.

Lemma checkValid_events (now : Time) (c k : string) (w : World) :
  events (checkValid now c k w).2
  = events w ++ [EvIsValid c k (isValid now c k (fs w)).1].
Proof. unfold checkValid. by destruct (isValid now c k (fs w)). Qed.

Lemma checkValid_verdict (now : Time) (c k : string) (w : World) :
  (checkValid now c k w).1 = (isValid now c k (fs w)).1.
Proof. unfold checkValid. by destruct (isValid now c k (fs w)). Qed.

Lemma caLoop_events (now : Time) (specs : list CASpec) (b : bool) (w : World) :
  exists work,
    events (caLoop now specs b w).2 = events w ++ work /\ Forall isCAWork work.
Proof.
  revert b w. induction specs as [|ca specs IH]; intros b w; simpl.
  - exists []. by rewrite app_nil_r.
  - pose proof (checkValid_events now (ca_certPath ca) (ca_keyPath ca) w) as Hv.
    destruct (checkValid now (ca_certPath ca) (ca_keyPath ca) w) as [ok w1].
    cbn [snd] in Hv. destruct ok.
    + destruct (IH b w1) as (work & Hw & Hall).
      eexists. rewrite Hw, Hv, <- app_assoc. split; [reflexivity|].
      constructor; [exact I|exact Hall].
    + destruct (util_GenerateCACert _ _ _ (fs w1)) as [e fs2]. destruct e as [e|].
      * eexists. cbn [snd emit withFS events]. rewrite Hv, <- app_assoc.
        split; [reflexivity|]. by repeat constructor.
      * match goal with |- context [caLoop now specs true ?w2] =>
          destruct (IH true w2) as (work & Hw & Hall) end.
        eexists. rewrite Hw. cbn [emit withFS events].
        rewrite Hv, <- !app_assoc. split; [reflexivity|].
        constructor; [exact I|]. constructor; [exact I|exact Hall].
Qed.

(** C8.  When the acquisition of the CA-store lock fails, the CA
    provisioner returns the error wrapped with a lock-acquisition
    message and the regenerated flag false, and it has checked and
    generated nothing: the file system is unchanged and the only event
    is the failed acquisition.  When the acquisition succeeds, the events
    of the call are the acquisition, then checks and generations of CA
    pairs only, then the release, whatever the result of the call.  The
    lock is requested with a timeout of one minute. *)
Theorem generateSharedCACerts_lock (now : Time) (w : World) :
  let r := generateSharedCACerts now w in
  Timeout caLockSpec = (1 * time_Minute)%Z
  /\ match mutex_Acquire caLockSpec with
     | Some e =>
         r.1 = (sharedCACerts, false,
                Some (Wrap e "unable to acquire lock for shared ca certs"))
         /\ fs r.2 = fs w
         /\ events r.2 = events w ++ [EvAcquire caLockSpec false]
     | None =>
         exists work,
           events r.2 = events w ++ [EvAcquire caLockSpec true] ++ work
                                 ++ [EvRelease caLockSpec]
           /\ Forall isCAWork work
     end.
Proof.
  cbv zeta. split; [reflexivity|]. unfold generateSharedCACerts.
  destruct (mutex_Acquire caLockSpec) as [e|]; [done|].
  destruct (caLoop_events now (caCertSpecs sharedCACerts) false
                          (emit (EvAcquire caLockSpec true) w)) as (work & Hw & Hall).
  destruct (caLoop now _ false _) as [[regen e] w2]. cbn [snd] in Hw.
  exists work. cbn [snd emit events]. rewrite Hw. cbn [emit events].
  rewrite <- !app_assoc. done.
Qed.

End CAProvisionerFacts.

Section CAProvisionerExamples.
Import Instance.

(** With the lock free and no CA on disk both CAs are generated, between
    the acquisition and the release. *)
Example generateSharedCACerts_free :
  let H := hostFree in
  let r := generateSharedCACerts 100 (mkWorld ∅ []) in
  r.1 = (sharedCACerts, true, None)
  /\ events r.2
     = [ EvAcquire caLockSpec true;
         EvIsValid "/home/u/.minikube/ca.crt" "/home/u/.minikube/ca.key" false;
         EvGenerateCACert "/home/u/.minikube/ca.crt" "/home/u/.minikube/ca.key"
                          "minikubeCA";
         EvIsValid "/home/u/.minikube/proxy-client-ca.crt"
                   "/home/u/.minikube/proxy-client-ca.key" false;
         EvGenerateCACert "/home/u/.minikube/proxy-client-ca.crt"
                          "/home/u/.minikube/proxy-client-ca.key" "proxyClientCA";
         EvRelease caLockSpec ]
  /\ (let H := hostFree in generateSharedCACerts 100 r.2).1 = (sharedCACerts, false, None).
Proof. repeat split; vm_compute; reflexivity. Qed.

(** With the lock held elsewhere nothing is checked or generated. *)
Example generateSharedCACerts_locked :
  let H := hostLocked in
  let r := generateSharedCACerts 100 (mkWorld ∅ []) in
  r.1.2 = Some (Wrap (External "timeout acquiring mutex")
                     "unable to acquire lock for shared ca certs")
  /\ r.1.1.2 = false
  /\ events r.2 = [EvAcquire caLockSpec false].
Proof. repeat split; vm_compute; reflexivity. Qed.

End CAProvisionerExamples.

(** ** Trust store installer *)

Section InstallerFacts.
Context `{Constants} {R : Type} `{Runner R}.


Lemma isInstallCmd_cons (f : string) (caCerts : list string) (c : Cmd) :
  isInstallCmd caCerts c -> isInstallCmd (f :: caCerts) c.
Proof. intros (g & Hin & Hc). exists g. split; [by right|exact Hc]. Qed.

Lemma isInstallCmd_direct (f : string) (caCerts : list string) :
  isInstallCmd (f :: caCerts) (directLinkCmd f).
Proof. exists f. split; [by left|by left]. Qed.

Lemma isInstallCmd_hashLink (f h : string) (caCerts : list string) :
  isInstallCmd (f :: caCerts) (hashLinkCmd f h).
Proof. exists f. split; [by left|]. right. right. by exists h. Qed.

Lemma getSubjectHash_sent (f : string) (rem : Remote R) :
  exists cmds,
    sent (getSubjectHash f rem).2 = sent rem ++ cmds
    /\ Forall (fun c => In c (hashProbeCmds f)) cmds.
Proof.
  unfold getSubjectHash.
  pose proof (run_sent ["ls"; "-la"; f] rem) as H1.
  destruct (run ["ls"; "-la"; f] rem) as [[lrr e1] rem1]. cbn [snd] in H1.
  destruct e1 as [e1|].
  { eexists. split; [exact H1|]. constructor; [by left|constructor]. }
  pose proof (run_sent ["openssl"; "x509"; "-hash"; "-noout"; "-in"; f] rem1) as H2.
  destruct (run ["openssl"; "x509"; "-hash"; "-noout"; "-in"; f] rem1)
    as [[rr e2] rem2]. cbn [snd] in H2.
  destruct e2 as [e2|].
  - pose proof (run_sent ["cat"; f] rem2) as H3.
    destruct (run ["cat"; f] rem2) as [[crr e3] rem3]. cbn [snd] in H3.
    eexists. cbn [snd]. rewrite H3, H2, H1, <- !app_assoc. split; [reflexivity|].
    repeat (constructor; [simpl; auto 6|]). constructor.
  - eexists. cbn [snd]. rewrite H2, H1, <- !app_assoc. split; [reflexivity|].
    repeat (constructor; [simpl; auto 6|]). constructor.
Qed.

Lemma installLoop_sent (hasSSLBinary : bool) (caCerts : list string) (rem : Remote R) :
  exists cmds,
    sent (installLoop hasSSLBinary caCerts rem).2 = sent rem ++ cmds
    /\ Forall (isInstallCmd caCerts) cmds.
Proof.
  revert rem. induction caCerts as [|f caCerts IH]; intros rem; simpl.
  { exists []. by rewrite app_nil_r. }
  pose proof (run_sent (directLinkCmd f) rem) as H1.
  destruct (run (directLinkCmd f) rem) as [[rr1 e1] rem1]. cbn [snd] in H1.
  destruct e1 as [e1|].
  { eexists. split; [exact H1|]. constructor; [apply isInstallCmd_direct|constructor]. }
  destruct hasSSLBinary; cbn [negb].
  2:{ destruct (IH rem1) as (cmds & Hs & Hall).
      eexists. rewrite Hs, H1, <- app_assoc. split; [reflexivity|].
      constructor; [apply isInstallCmd_direct|].
      eapply Forall_impl; [exact Hall|]. intros c. apply isInstallCmd_cons. }
  destruct (getSubjectHash_sent f rem1) as (hc & H2 & Hhc).
  assert (Forall (isInstallCmd (f :: caCerts)) hc) as Hhc'.
  { eapply Forall_impl; [exact Hhc|]. intros c Hc. exists f. split; [by left|].
    right. by left. }
  destruct (getSubjectHash f rem1) as [[h e2] rem2]. cbn [snd] in H2.
  destruct e2 as [e2|].
  { eexists. cbn [snd]. rewrite H2, H1, <- app_assoc. split; [reflexivity|].
    constructor; [apply isInstallCmd_direct|exact Hhc']. }
  pose proof (run_sent (hashLinkCmd f h) rem2) as H3.
  destruct (run (hashLinkCmd f h) rem2) as [[rr3 e3] rem3]. cbn [snd] in H3.
  destruct e3 as [e3|].
  { eexists. cbn [snd]. rewrite H3, H2, H1, <- !app_assoc. split; [reflexivity|].
    constructor; [apply isInstallCmd_direct|]. apply Forall_app. split; [exact Hhc'|].
    constructor; [apply isInstallCmd_hashLink|constructor]. }
  destruct (IH rem3) as (cmds & Hs & Hall).
  eexists. rewrite Hs, H3, H2, H1, <- !app_assoc. split; [reflexivity|].
  constructor; [apply isInstallCmd_direct|]. apply Forall_app. split; [exact Hhc'|].
  constructor; [apply isInstallCmd_hashLink|].
  eapply Forall_impl; [exact Hall|]. intros c. apply isInstallCmd_cons.
Qed.



End InstallerFacts.

Section InstallerExamples.
Import Instance.

(** Without the hashing tool: the probe, then one direct link each. *)
Example installCertSymlinks_without_openssl :
  installCertSymlinks
    ["/usr/share/ca-certificates/minikubeCA.pem"; "/usr/share/ca-certificates/corp.pem"]
    (mkRemote (mkTarget ∅ false) [])
  = (None,
     mkRemote (mkTarget ∅ false)
       [ ["openssl"; "version"];
         ["sudo"; "/bin/bash"; "-c";
          "test -s /usr/share/ca-certificates/minikubeCA.pem && ln -fs /usr/share/ca-certificates/minikubeCA.pem /etc/ssl/certs/minikubeCA.pem"];
         ["sudo"; "/bin/bash"; "-c";
          "test -s /usr/share/ca-certificates/corp.pem && ln -fs /usr/share/ca-certificates/corp.pem /etc/ssl/certs/corp.pem"] ]).
Proof. vm_compute. reflexivity. Qed.

(** With the hashing tool: the hash link follows the inspection. *)
Example installCertSymlinks_with_openssl :
  sent (installCertSymlinks ["/usr/share/ca-certificates/corp.pem"]
          (mkRemote (mkTarget ∅ true) [])).2
  = [ ["openssl"; "version"];
      ["sudo"; "/bin/bash"; "-c";
       "test -s /usr/share/ca-certificates/corp.pem && ln -fs /usr/share/ca-certificates/corp.pem /etc/ssl/certs/corp.pem"];
      ["ls"; "-la"; "/usr/share/ca-certificates/corp.pem"];
      ["openssl"; "x509"; "-hash"; "-noout"; "-in"; "/usr/share/ca-certificates/corp.pem"];
      ["sudo"; "/bin/bash"; "-c";
       "test -L /etc/ssl/certs/ab.0 || ln -fs /etc/ssl/certs/corp.pem /etc/ssl/certs/ab.0"] ].
Proof. vm_compute. reflexivity. Qed.

End InstallerExamples.

(** ** Leaf certificate provisioner *)

Section LeafProvisionerFacts.
Context `{Codec} `{Constants} `{Localpath} `{Host}.



Lemma skip_events (regen : bool) (now : Time) (spec : LeafSpec) (w : World) :
  events (skip regen now spec w).2
  = events w ++ (if regen then []
                 else [EvIsValid (effectiveCert spec) (effectiveKey spec)
                                 (isValid now (effectiveCert spec) (effectiveKey spec)
                                          (fs w)).1]).
Proof.
  unfold skip. destruct regen; cbn [negb].
  - by rewrite app_nil_r.
  - apply checkValid_events.
Qed.








End LeafProvisionerFacts.

Section LeafProvisionerPolicy.
Context `{Codec} `{Constants} `{Localpath} `{Host}.

Lemma leafLoop_xfer (cfg : ClusterConfig) (regen : bool) (now : Time)
      (specs : list LeafSpec) (xfer : list string) (w : World) :
  (leafLoop cfg regen now specs xfer w).1.2 = None ->
  (leafLoop cfg regen now specs xfer w).1.1 = xfer ++ transferPaths specs.
Proof.
  revert xfer w. induction specs as [|spec specs IH]; intros xfer w; simpl.
  { intros _. by rewrite app_nil_r. }
  destruct (skip regen now spec w) as [skipped w1]. destruct skipped.
  - intros Hn. rewrite (IH _ _ Hn).
    destruct (negb (String.eqb (subject spec) "minikube-user"));
      by rewrite <- ?app_assoc.
  - destruct (regenerate cfg spec w1) as [e w2]. destruct e as [e|]; [done|].
    intros Hn. rewrite (IH _ _ Hn).
    destruct (negb (String.eqb (subject spec) "minikube-user"));
      by rewrite <- ?app_assoc.
Qed.

(** C10.  A call for a control-plane node that returns without error
    returns the four paths: API-server certificate and key, proxy-client
    certificate and key, in that order, whatever was reused or
    regenerated; these are the paths of the specs other than the user
    client spec, and each is named after the API server or the proxy
    client, so that a file named otherwise, such as the user client
    certificate or key, is not in the list.  A call for another node
    returns the empty list, and touches nothing. *)
Theorem generateProfileCerts_transfer_list (cfg : ClusterConfig) (n : Node)
        (ccs : CACerts) (regen : bool) (now : Time) (w : World) :
  let r := generateProfileCerts cfg n ccs regen now w in
  let profilePath := Profile (ClusterName (KubernetesConfig_ cfg)) in
  r.1.2 = None ->
  r.1.1 = Some (if ControlPlane n
                then [ Path.Join [profilePath; "apiserver.crt"];
                       Path.Join [profilePath; "apiserver.key"];
                       Path.Join [profilePath; "proxy-client.crt"];
                       Path.Join [profilePath; "proxy-client.key"] ]
                else [])
  /\ (ControlPlane n = false -> r = ((Some [], None), w))
  /\ (forall serviceIP,
      [ Path.Join [profilePath; "apiserver.crt"];
        Path.Join [profilePath; "apiserver.key"];
        Path.Join [profilePath; "proxy-client.crt"];
        Path.Join [profilePath; "proxy-client.key"] ]
      = flat_map (fun spec => [certPath spec; keyPath spec])
          (List.filter (fun spec => negb (String.eqb (subject spec) "minikube-user"))
                       (leafSpecs (KubernetesConfig_ cfg) n ccs serviceIP)))
  /\ (forall xfer p, r.1.1 = Some xfer -> In p xfer ->
      In (Path.Base p) ["apiserver.crt"; "apiserver.key";
                        "proxy-client.crt"; "proxy-client.key"]).
Proof.
  cbv zeta. intros Hok.
  assert ((generateProfileCerts cfg n ccs regen now w).1.1
          = Some (if ControlPlane n
                  then [ Path.Join [Profile (ClusterName (KubernetesConfig_ cfg));
                                    "apiserver.crt"];
                         Path.Join [Profile (ClusterName (KubernetesConfig_ cfg));
                                    "apiserver.key"];
                         Path.Join [Profile (ClusterName (KubernetesConfig_ cfg));
                                    "proxy-client.crt"];
                         Path.Join [Profile (ClusterName (KubernetesConfig_ cfg));
                                    "proxy-client.key"] ]
                  else [])) as Hlist.
  { revert Hok. unfold generateProfileCerts.
    destruct (ControlPlane n); cbn [negb]; [|done].
    destruct (util_GetServiceClusterIP _) as [sip e]. destruct e as [e|]; [done|].
    pose proof (leafLoop_xfer cfg regen now
                  (leafSpecs (KubernetesConfig_ cfg) n ccs sip) [] w) as Hx.
    destruct (leafLoop cfg regen now _ [] w) as [[xfer e] w'].
    cbn [fst snd] in *. intros ->. by rewrite (Hx eq_refl). }
  split; [exact Hlist|]. split; [|split; [done|]].
  { unfold generateProfileCerts. by intros ->. }
  intros xfer p Hx Hin. rewrite Hlist in Hx. injection Hx as <-.
  destruct (ControlPlane n); [|done].
  destruct Hin as [<-|[<-|[<-|[<-|[]]]]]; rewrite Base_Join by done; simpl; auto.
Qed.



End LeafProvisionerPolicy.


Section LeafProvisionerExamples.
Import Instance.
#[local] Existing Instance hostFree.

Lemma generateProfileCerts_transfer_list_witness :
  (generateProfileCerts cluster controlPlane sharedCACerts false 100
     (mkWorld cachedLeaves [])).1.1
  = Some [ "/home/u/.minikube/profiles/minikube/apiserver.crt";
           "/home/u/.minikube/profiles/minikube/apiserver.key";
           "/home/u/.minikube/profiles/minikube/proxy-client.crt";
           "/home/u/.minikube/profiles/minikube/proxy-client.key" ].
Proof.
  refine (proj1 (generateProfileCerts_transfer_list
                   cluster controlPlane sharedCACerts false 100
                   (mkWorld cachedLeaves []) _)).
  vm_compute. reflexivity.
Defined.



End LeafProvisionerExamples.

(** ** Trust store collector *)

Section CollectorFacts.
Context `{Codec} `{Constants} `{Localpath}.

(** The loop over the blocks never runs out of iterations. *)
Lemma findCertificate_total (fuel : nat) (data : list byte) :
  (length data < fuel)%nat -> exists found, findCertificate fuel data = Some found.
Proof.
  revert data. induction fuel as [|fuel IH]; intros data Hlen; [lia|]. simpl.
  destruct (pem_Decode data) as [[b rest]|] eqn:Hd; [|by eexists].
  destruct (String.eqb (Type_ b) "CERTIFICATE"); [by eexists|].
  apply IH. apply pem_Decode_rest in Hd. lia.
Qed.

Lemma findCertificate_found (fuel : nat) (data : list byte) :
  findCertificate fuel data = Some true -> HasCertificate data.
Proof.
  revert data. induction fuel as [|fuel IH]; intros data; simpl; [done|].
  destruct (pem_Decode data) as [[b rest]|] eqn:Hd; [|done].
  destruct (String.eqb_spec (Type_ b) "CERTIFICATE") as [Ht|Ht].
  - intros _. by eapply HasCertificate_here.
  - intros Hf. eapply HasCertificate_later; [exact Hd|]. by apply IH.
Qed.

Lemma findCertificate_finds (fuel : nat) (data : list byte) :
  HasCertificate data -> (length data < fuel)%nat ->
  findCertificate fuel data = Some true.
Proof.
  intros Hc. revert fuel.
  induction Hc as [data b rest Hd Ht|data b rest Hd Hc IH]; intros fuel Hlen;
    (destruct fuel as [|fuel]; [lia|]); simpl; rewrite Hd.
  - by rewrite Ht.
  - destruct (String.eqb (Type_ b) "CERTIFICATE"); [done|].
    apply IH. apply pem_Decode_rest in Hd. lia.
Qed.

(** [isValidPEMCertificate] answers true exactly for a readable file
    with a CERTIFICATE block, and fails exactly when the file cannot be
    read. *)
Lemma isValidPEMCertificate_spec (f : FS) (filePath : string) :
  (isValidPEMCertificate f filePath = (true, None)
   <-> exists data, os_ReadFile f filePath = Some data /\ HasCertificate data)
  /\ ((isValidPEMCertificate f filePath).2 <> None <-> os_ReadFile f filePath = None).
Proof.
  unfold isValidPEMCertificate.
  destruct (os_ReadFile f filePath) as [data|] eqn:Hr.
  2:{ split; [|done]. split; [done|]. by intros (? & ? & _). }
  destruct (findCertificate_total (S (length data)) data) as (found & Hf); [lia|].
  rewrite Hf. split; [|done]. split.
  - intros [= ->]. exists data. split; [done|]. by eapply findCertificate_found.
  - intros (data' & [= <-] & Hc).
    rewrite (findCertificate_finds _ _ Hc) in Hf by lia. by injection Hf as <-.
Qed.

(** A file below 32 bytes changes nothing, whatever it holds. *)
Lemma walkFn_tiny (f : FS) (certsDir : string) (v : Visit) (fi : FileInfo)
      (m : gmap string string) :
  err v = None -> info v = Some fi -> (Size fi < 32)%Z ->
  walkFn f certsDir v m = (None, m).
Proof.
  intros He Hi Hs. unfold walkFn. rewrite He, Hi.
  destruct (IsDir fi); [done|].
  destruct (_ || _); [|done].
  by apply Z.ltb_lt in Hs as ->.
Qed.

(** An accepted file is mapped into the guest directory: its base name
    with the lower-cased extension trimmed, and [.pem]. *)
Lemma walkFn_accepted (f : FS) (certsDir : string) (v : Visit)
      (m : gmap string string) :
  accepted f v ->
  walkFn f certsDir v m
  = (None,
     <[hostpath v :=
         Path.Join [GuestCertAuthDir;
                    Strings.TrimSuffix (Path.Base (hostpath v))
                                       (Strings.ToLower (Path.Ext (hostpath v)))
                      +:+ ".pem"]]> m).
Proof.
  intros (He & fi & Hi & Hd & Hext & Hs & Hdata).
  unfold walkFn. rewrite He, Hi, Hd.
  assert (String.eqb (Strings.ToLower (Path.Ext (hostpath v))) ".crt"
          || String.eqb (Strings.ToLower (Path.Ext (hostpath v))) ".pem" = true) as ->.
  { destruct Hext as [->| ->]; reflexivity. }
  assert ((Size fi <? 32)%Z = false) as -> by by apply Z.ltb_ge.
  by apply (isValidPEMCertificate_spec f (hostpath v)) in Hdata as ->.
Qed.

(** For an extension already in lower case the destination is the base
    name with the extension replaced by [.pem]. *)
Lemma walkFn_accepted_lower_case (f : FS) (certsDir : string) (v : Visit)
      (m : gmap string string) :
  accepted f v ->
  Strings.ToLower (Path.Ext (hostpath v)) = Path.Ext (hostpath v) ->
  exists stem,
    Path.Base (hostpath v) = stem +:+ Path.Ext (hostpath v)
    /\ walkFn f certsDir v m
       = (None, <[hostpath v := Path.Join [GuestCertAuthDir; stem +:+ ".pem"]]> m).
Proof.
  intros Hacc Hlow.
  assert (Path.Ext (hostpath v) <> EmptyString) as Hext.
  { destruct Hacc as (_ & fi & _ & _ & Hx & _). rewrite Hlow in Hx.
    destruct Hx as [->| ->]; done. }
  destruct (Base_ends_with_Ext _ Hext) as (stem & Hb & Ht).
  exists stem. split; [exact Hb|].
  rewrite (walkFn_accepted f certsDir v m Hacc), Hlow, Ht. reflexivity.
Qed.

(** Whatever the walk function writes, it writes for an accepted visit. *)
Lemma walkFn_writes (f : FS) (certsDir : string) (v : Visit)
      (m : gmap string string) :
  (walkFn f certsDir v m).2 = m
  \/ (accepted f v
      /\ (walkFn f certsDir v m).2
         = <[hostpath v :=
               certDestination (hostpath v) (Strings.ToLower (Path.Ext (hostpath v)))]> m).
Proof.
  unfold walkFn.
  destruct (err v) as [e|] eqn:He; [by destruct (os_IsNotExist e); left|].
  destruct (info v) as [fi|] eqn:Hi; [|by left].
  destruct (IsDir fi) eqn:Hd; [by left|].
  destruct (_ || _) eqn:Hext; [|by left].
  destruct (Z.ltb_spec (Size fi) 32) as [Hs|Hs]; [by left|].
  pose proof (isValidPEMCertificate_spec f (hostpath v)) as [Hv _].
  destruct (isValidPEMCertificate f (hostpath v)) as [validPem e].
  destruct e as [e|]; [by left|]. destruct validPem; [|by left].
  right. split; [|done]. split; [done|]. exists fi. repeat split; try done.
  - apply orb_true_iff in Hext as [Hx|Hx]; apply String.eqb_eq in Hx; auto.
  - by apply Hv.
Qed.

Lemma filepath_Walk_collected (f : FS) (walk : string -> list Visit)
      (dirs : list string) (d : string) (visits : list Visit) (m : gmap string string) :
  In d dirs -> incl visits (walk d) -> collected f walk dirs m ->
  collected f walk dirs (filepath_Walk f d visits m).2.
Proof.
  intros Hd. revert m. induction visits as [|v visits IH]; intros m Hincl Hm; simpl.
  { exact Hm. }
  assert (collected f walk dirs (walkFn f d v m).2) as Hstep.
  { destruct (walkFn_writes f d v m) as [->|[Hacc ->]]; [exact Hm|].
    intros p dst. destruct (decide (hostpath v = p)) as [<-|Hne].
    - rewrite lookup_insert_eq. intros [= <-]. right. exists d, v.
      split; [done|]. split; [apply Hincl; by left|]. split; [done|].
      split; [exact Hacc|reflexivity].
    - rewrite lookup_insert_ne by done. apply Hm. }
  destruct (walkFn f d v m) as [e m1]. cbn [snd] in Hstep.
  destruct e as [e|]; [exact Hstep|].
  apply IH; [|exact Hstep]. intros x Hx. apply Hincl. by right.
Qed.

Lemma exclude_lookup (d key : string) (m : gmap string string) :
  exclude d m !! key = Some EmptyString \/ exclude d m !! key = m !! key.
Proof.
  unfold exclude, excludedNames. cbn [fold_left].
  destruct (decide (Path.Join [d; "cert.pem"] = key)) as [<-|Hcert].
  { left. apply lookup_insert_eq. }
  rewrite lookup_insert_ne by done.
  destruct (decide (Path.Join [d; "ca.pem"] = key)) as [<-|Hca].
  { left. apply lookup_insert_eq. }
  right. by rewrite lookup_insert_ne.
Qed.

Lemma exclude_marks (d name : string) (m : gmap string string) :
  In name excludedNames -> exclude d m !! Path.Join [d; name] = Some EmptyString.
Proof.
  intros Hn. unfold exclude, excludedNames in *. cbn [fold_left].
  destruct Hn as [<-|[<-|[]]].
  - destruct (decide (Path.Join [d; "cert.pem"] = Path.Join [d; "ca.pem"])) as [->|Hne].
    + apply lookup_insert_eq.
    + rewrite lookup_insert_ne by done. apply lookup_insert_eq.
  - apply lookup_insert_eq.
Qed.

Lemma exclude_collected (f : FS) (walk : string -> list Visit) (dirs : list string)
      (d : string) (m : gmap string string) :
  collected f walk dirs m -> collected f walk dirs (exclude d m).
Proof.
  intros Hm p dst Hp. destruct (exclude_lookup d p m) as [Hx|Hx]; rewrite Hx in Hp.
  - left. congruence.
  - by apply Hm.
Qed.

Lemma collectDirs_collected (f : FS) (walk : string -> list Visit)
      (dirs todo : list string) (m m' : gmap string string) :
  incl todo dirs -> collected f walk dirs m ->
  collectDirs f walk todo m = inl m' -> collected f walk dirs m'.
Proof.
  revert m. induction todo as [|d todo IH]; intros m Hincl Hm; simpl.
  { by intros [= <-]. }
  pose proof (filepath_Walk_collected f walk dirs d (walk d) m) as Hw.
  destruct (filepath_Walk f d (walk d) m) as [e m1]. destruct e as [e|]; [done|].
  apply IH.
  - intros x Hx. apply Hincl. by right.
  - apply exclude_collected.
    apply Hw; [apply Hincl; by left|apply incl_refl|exact Hm].
Qed.

(** Every entry of the result is the CA of the provisioner or the
    destination of an accepted visit of a scanned directory. *)
Lemma collectCACerts_sound (f : FS) (walk : string -> list Visit)
      (m : gmap string string) (p dst : string) :
  collectCACerts f walk = inl m -> m !! p = Some dst ->
  (p = Path.Join [MiniPath; "ca.crt"]
   /\ dst = Path.Join [GuestCertAuthDir; "minikubeCA.pem"])
  \/ exists d v, In d scannedDirs /\ In v (walk d) /\ hostpath v = p /\ accepted f v
                 /\ dst = certDestination p (Strings.ToLower (Path.Ext p)).
Proof.
  unfold collectCACerts.
  destruct (collectDirs f walk scannedDirs ∅) as [m0|e] eqn:Hc; [|done].
  intros [= <-]. rewrite map_lookup_filter_Some. intros [Hl Hne]. cbn [snd] in Hne.
  destruct (decide (Path.Join [MiniPath; "ca.crt"] = p)) as [<-|Hp].
  - rewrite lookup_insert_eq in Hl. left. by injection Hl as <-.
  - rewrite lookup_insert_ne in Hl by done. right.
    assert (collected f walk scannedDirs m0) as Hm0.
    { apply (collectDirs_collected f walk scannedDirs scannedDirs ∅ m0);
        [apply incl_refl| |exact Hc].
      intros ? ?. by rewrite lookup_empty. }
    destruct (Hm0 p dst Hl) as [->|Hv]; [done|exact Hv].
Qed.

(** A file below 32 bytes is not in the result. *)
Lemma collectCACerts_excludes_tiny (f : FS) (walk : string -> list Visit)
      (m : gmap string string) (p : string) :
  collectCACerts f walk = inl m ->
  p <> Path.Join [MiniPath; "ca.crt"] ->
  (forall d v fi, In d scannedDirs -> In v (walk d) -> hostpath v = p ->
                  info v = Some fi -> (Size fi < 32)%Z) ->
  m !! p = None.
Proof.
  intros Hc Hp Htiny. destruct (m !! p) as [dst|] eqn:Hl; [|done]. exfalso.
  destruct (collectCACerts_sound f walk m p dst Hc Hl)
    as [[-> _]|(d & v & Hd & Hv & Hpath & (_ & fi & Hi & _ & _ & Hs & _) & _)]; [done|].
  specialize (Htiny d v fi Hd Hv Hpath Hi). lia.
Qed.

Lemma certDestination_nonempty (p ext : string) : certDestination p ext <> EmptyString.
Proof.
  unfold certDestination. apply Join_nonempty.
  intros He. apply (f_equal String.length) in He.
  rewrite !string_app_length in He. simpl in He. lia.
Qed.

(** An entry that holds the destination of its path keeps it through a
    traversal: whatever is written for that path is that destination. *)
Lemma filepath_Walk_keeps (f : FS) (d p : string) (visits : list Visit)
      (m m' : gmap string string) (e : option error) :
  filepath_Walk f d visits m = (e, m') ->
  m !! p = Some (certDestination p (Strings.ToLower (Path.Ext p))) ->
  m' !! p = Some (certDestination p (Strings.ToLower (Path.Ext p))).
Proof.
  revert m. induction visits as [|v visits IH]; intros m; simpl.
  { by intros [= _ <-]. }
  intros Hw Hm.
  assert ((walkFn f d v m).2 !! p
          = Some (certDestination p (Strings.ToLower (Path.Ext p)))) as Hstep.
  { destruct (walkFn_writes f d v m) as [->|[_ ->]]; [done|].
    destruct (decide (hostpath v = p)) as [<-|Hne].
    - apply lookup_insert_eq.
    - by rewrite lookup_insert_ne. }
  destruct (walkFn f d v m) as [e1 m1]. cbn [snd] in Hstep.
  destruct e1 as [e1|]; [by injection Hw as _ <-|]. by apply (IH m1).
Qed.

(** A traversal that ends without error has written the destination of
    each accepted visit. *)
Lemma filepath_Walk_complete (f : FS) (d : string) (visits : list Visit)
      (m m' : gmap string string) (v : Visit) :
  filepath_Walk f d visits m = (None, m') -> In v visits -> accepted f v ->
  m' !! hostpath v
  = Some (certDestination (hostpath v) (Strings.ToLower (Path.Ext (hostpath v)))).
Proof.
  revert m. induction visits as [|x visits IH]; intros m; simpl; [done|].
  intros Hw [->|Hin] Hacc.
  - rewrite (walkFn_accepted f d v m Hacc) in Hw.
    apply (filepath_Walk_keeps _ _ _ _ _ _ _ Hw). apply lookup_insert_eq.
  - destruct (walkFn f d x m) as [e1 m1]. destruct e1 as [e1|]; [done|].
    by apply (IH m1).
Qed.

Lemma exclude_other (d p : string) (m : gmap string string) :
  (forall name, In name excludedNames -> Path.Join [d; name] <> p) ->
  exclude d m !! p = m !! p.
Proof.
  intros Hp. unfold exclude, excludedNames in *. cbn [fold_left].
  rewrite !lookup_insert_ne; [done| |]; apply Hp; simpl; auto.
Qed.

Lemma collectDirs_keeps (f : FS) (walk : string -> list Visit)
      (todo : list string) (p : string) (m m' : gmap string string) :
  collectDirs f walk todo m = inl m' ->
  (forall d name, In d todo -> In name excludedNames -> Path.Join [d; name] <> p) ->
  m !! p = Some (certDestination p (Strings.ToLower (Path.Ext p))) ->
  m' !! p = Some (certDestination p (Strings.ToLower (Path.Ext p))).
Proof.
  revert m. induction todo as [|d todo IH]; intros m; simpl.
  { by intros [= <-]. }
  intros Hc Hp Hm.
  destruct (filepath_Walk f d (walk d) m) as [e m1] eqn:Hw.
  destruct e as [e|]; [done|]. apply (IH _ Hc).
  - intros d' name Hd'. apply Hp. by right.
  - rewrite exclude_other by (intros name; apply Hp; by left).
    by apply (filepath_Walk_keeps _ _ _ _ _ _ _ Hw).
Qed.

Lemma collectDirs_complete (f : FS) (walk : string -> list Visit)
      (todo : list string) (m m' : gmap string string) (d : string) (v : Visit) :
  collectDirs f walk todo m = inl m' ->
  In d todo -> In v (walk d) -> accepted f v ->
  (forall d' name, In d' todo -> In name excludedNames ->
                   Path.Join [d'; name] <> hostpath v) ->
  m' !! hostpath v
  = Some (certDestination (hostpath v) (Strings.ToLower (Path.Ext (hostpath v)))).
Proof.
  revert m. induction todo as [|d0 todo IH]; intros m; simpl; [done|].
  intros Hc Hd Hv Hacc Hp.
  destruct (filepath_Walk f d0 (walk d0) m) as [e m1] eqn:Hw.
  destruct e as [e|]; [done|]. destruct Hd as [->|Hd].
  - apply (collectDirs_keeps _ _ _ _ _ _ Hc).
    + intros d' name Hd'. apply Hp. by right.
    + rewrite exclude_other by (intros name; apply Hp; by left).
      by apply (filepath_Walk_complete _ _ _ _ _ _ Hw).
  - apply (IH _ Hc Hd Hv Hacc). intros d' name Hd'. apply Hp. by right.
Qed.

(** Every accepted file of a scanned directory that is not one of the
    reserved files is in the result, with its destination under the
    guest directory, whenever the collection ends without error. *)
Lemma collectCACerts_complete (f : FS) (walk : string -> list Visit)
      (m : gmap string string) (d : string) (v : Visit) :
  collectCACerts f walk = inl m ->
  In d scannedDirs -> In v (walk d) -> accepted f v ->
  (forall d' name, In d' scannedDirs -> In name excludedNames ->
                   Path.Join [d'; name] <> hostpath v) ->
  hostpath v <> Path.Join [MiniPath; "ca.crt"] ->
  m !! hostpath v
  = Some (Path.Join [GuestCertAuthDir;
                     Strings.TrimSuffix (Path.Base (hostpath v))
                                        (Strings.ToLower (Path.Ext (hostpath v)))
                       +:+ ".pem"]).
Proof.
  intros Hc Hd Hv Hacc Hp Hca. unfold collectCACerts in Hc.
  destruct (collectDirs f walk scannedDirs ∅) as [m0|e] eqn:Hcd; [|done].
  injection Hc as <-. apply map_lookup_filter_Some. split.
  - rewrite lookup_insert_ne by done.
    apply (collectDirs_complete _ _ _ _ _ _ _ Hcd Hd Hv Hacc Hp).
  - cbn [snd]. apply certDestination_nonempty.
Qed.

Lemma filepath_Walk_untouched (f : FS) (d key : string) (visits : list Visit)
      (m : gmap string string) :
  (forall v, In v visits -> hostpath v <> key) ->
  (filepath_Walk f d visits m).2 !! key = m !! key.
Proof.
  revert m. induction visits as [|v visits IH]; intros m Hv; simpl; [done|].
  assert ((walkFn f d v m).2 !! key = m !! key) as Hstep.
  { destruct (walkFn_writes f d v m) as [->|[_ ->]]; [done|].
    apply lookup_insert_ne. apply Hv. by left. }
  destruct (walkFn f d v m) as [e m1]. cbn [snd] in Hstep.
  destruct e as [e|]; [exact Hstep|].
  rewrite IH; [exact Hstep|]. intros x Hx. apply Hv. by right.
Qed.

Lemma collectDirs_keeps_marker (f : FS) (walk : string -> list Visit)
      (todo : list string) (key : string) (m m' : gmap string string) :
  collectDirs f walk todo m = inl m' ->
  m !! key = Some EmptyString ->
  (forall d v, In d todo -> In v (walk d) -> hostpath v <> key) ->
  m' !! key = Some EmptyString.
Proof.
  revert m. induction todo as [|d todo IH]; intros m; simpl.
  { by intros [= <-]. }
  intros Hc Hm Hv.
  pose proof (filepath_Walk_untouched f d key (walk d) m) as Hw.
  destruct (filepath_Walk f d (walk d) m) as [e m1]. destruct e as [e|]; [done|].
  cbn [snd] in Hw. apply (IH _ Hc).
  - destruct (exclude_lookup d key m1) as [Hx|Hx]; [done|].
    rewrite Hx, Hw; [done|]. intros v Hin. apply (Hv d v); [by left|done].
  - intros d' v Hd'. apply Hv. by right.
Qed.

Lemma reserved_not_ca (d name : string) :
  In name excludedNames -> Path.Join [d; name] <> Path.Join [MiniPath; "ca.crt"].
Proof.
  intros [<-|[<-|[]]]; by apply Join_names_differ.
Qed.

(** The files named [ca.pem] and [cert.pem] directly in a scanned
    directory are not in the result, whatever they hold; for the first
    directory, provided the traversal of the second does not reach into
    the first. *)
Lemma collectCACerts_excludes_reserved (f : FS) (walk : string -> list Visit)
      (m : gmap string string) (name : string) :
  collectCACerts f walk = inl m ->
  In name excludedNames ->
  let first := Path.Join [MiniPath; "certs"] in
  let second := Path.Join [MiniPath; "files"; "etc"; "ssl"; "certs"] in
  m !! Path.Join [second; name] = None
  /\ ((forall v, In v (walk second) -> hostpath v <> Path.Join [first; name]) ->
      m !! Path.Join [first; name] = None).
Proof.
  intros Hc Hn. cbv zeta. unfold collectCACerts in Hc.
  destruct (collectDirs f walk scannedDirs ∅) as [m0|e] eqn:Hd; [|done].
  injection Hc as <-.
  assert (forall d, m0 !! Path.Join [d; name] = Some EmptyString ->
                    filter (fun kv : string * string => kv.2 <> EmptyString)
                           (<[Path.Join [MiniPath; "ca.crt"] :=
                                Path.Join [GuestCertAuthDir; "minikubeCA.pem"]]> m0)
                      !! Path.Join [d; name] = None) as Hfin.
  { intros d Hk. apply map_lookup_filter_None. right. intros x.
    rewrite lookup_insert_ne by (apply not_eq_sym; by apply reserved_not_ca).
    rewrite Hk. intros [= <-]. cbn. tauto. }
  unfold scannedDirs in Hd. cbn [collectDirs] in Hd.
  destruct (filepath_Walk f (Path.Join [MiniPath; "certs"]) _ ∅) as [e1 m1].
  destruct e1 as [e1|]; [done|].
  pose proof (filepath_Walk_untouched f
                (Path.Join [MiniPath; "files"; "etc"; "ssl"; "certs"])
                (Path.Join [Path.Join [MiniPath; "certs"]; name])
                (walk (Path.Join [MiniPath; "files"; "etc"; "ssl"; "certs"]))
                (exclude (Path.Join [MiniPath; "certs"]) m1)) as Hw.
  destruct (filepath_Walk f (Path.Join [MiniPath; "files"; "etc"; "ssl"; "certs"]) _ _)
    as [e2 m2].
  destruct e2 as [e2|]; [done|]. injection Hd as <-. cbn [snd] in Hw. split.
  - apply Hfin. by apply exclude_marks.
  - intros Hv. apply Hfin.
    destruct (exclude_lookup (Path.Join [MiniPath; "files"; "etc"; "ssl"; "certs"])
                (Path.Join [Path.Join [MiniPath; "certs"]; name]) m2) as [Hx|Hx];
      [done|].
    rewrite Hx, (Hw Hv). by apply exclude_marks.
Qed.

End CollectorFacts.

Section CollectorExamples.
Import Instance.

(** C6 at a file with an upper-case extension.  [FOO.CRT] holds a
    CERTIFICATE block and has 64 bytes; it is collected, but its
    destination keeps the extension and has [.pem] appended instead of
    having the extension replaced.  The rest of the directory behaves as
    C6 says: the lower-case extensions are replaced, the tiny file, the
    file without certificate, the other extension and the two reserved
    names are left out, and the CA of the provisioner is added. *)
Theorem collectCACerts_upper_case_extension :
  exists m,
    collectCACerts trustFS trustWalk = inl m
    /\ m !! "/home/u/.minikube/certs/FOO.CRT"
       = Some "/usr/share/ca-certificates/FOO.CRT.pem"
    /\ m !! "/home/u/.minikube/certs/corp.crt"
       = Some "/usr/share/ca-certificates/corp.pem"
    /\ m !! "/home/u/.minikube/certs/sub/root.pem"
       = Some "/usr/share/ca-certificates/root.pem"
    /\ m !! "/home/u/.minikube/certs/tiny.crt" = None
    /\ m !! "/home/u/.minikube/certs/key.pem" = None
    /\ m !! "/home/u/.minikube/certs/notes.txt" = None
    /\ m !! "/home/u/.minikube/certs/ca.pem" = None
    /\ m !! "/home/u/.minikube/certs/cert.pem" = None
    /\ m !! "/home/u/.minikube/ca.crt"
       = Some "/usr/share/ca-certificates/minikubeCA.pem"
    /\ size m = 4%nat.
Proof.
  eexists. split; [reflexivity|]. repeat split; vm_compute; reflexivity.
Qed.

End CollectorExamples.

(* ===================================================================== *)
(** * Part III: further properties of the code                            *)
(* ===================================================================== *)

(** ** Validity checker, continued *)

Section ValidityMore.
Context `{Codec}.

Lemma canRead_removed_key (certPath keyPath : string) (f : FS) :
  canRead (os_Remove keyPath (os_Remove certPath f)) keyPath = false.
Proof. unfold canRead. by rewrite lookup_removed_key. Qed.

(** X1.  A pair that [isValid] has found stale is removed once: a later
    call, at whatever time, reports it as missing and changes nothing
    more.  A pair it has found good is left as it is, so that a later
    call judges the same files, by the time of that call.  A second call
    at the same time therefore gives the same verdict and changes
    nothing. *)
Theorem isValid_idempotent (now later : Time) (certPath keyPath : string) (f : FS) :
  isValid later certPath keyPath (isValid now certPath keyPath f).2
  = (if (isValid now certPath keyPath f).1
     then isValid later certPath keyPath f
     else (false, (isValid now certPath keyPath f).2))
  /\ isValid now certPath keyPath (isValid now certPath keyPath f).2
     = isValid now certPath keyPath f.
Proof.
  assert (forall t g, canRead g keyPath = false ->
                      isValid t certPath keyPath g = (false, g)) as Hmiss.
  { intros t g Hg. unfold isValid. by rewrite Hg. }
  assert (forall t,
             isValid t certPath keyPath (os_Remove keyPath (os_Remove certPath f))
             = (false, os_Remove keyPath (os_Remove certPath f))) as Hgone.
  { intros t. apply Hmiss, canRead_removed_key. }
  assert (forall t,
             isValid t certPath keyPath (isValid now certPath keyPath f).2
             = (if (isValid now certPath keyPath f).1
                then isValid t certPath keyPath f
                else (false, (isValid now certPath keyPath f).2))) as Hagain.
  { intros t. unfold isValid at 2 3 5.
    destruct (canRead f keyPath) eqn:Hk; cbn [negb fst snd].
    2:{ by apply Hmiss. }
    destruct (os_ReadFile f certPath) as [data|]; cbn [fst snd]; [|apply Hgone].
    destruct (pem_Decode data) as [[b rest]|]; cbn [fst snd]; [|apply Hgone].
    destruct (x509_ParseCertificate (Bytes b)) as [cert|]; cbn [fst snd];
      [|apply Hgone].
    destruct (NotAfter cert <? now)%Z; cbn [fst snd]; [apply Hgone|done]. }
  split; [apply Hagain|].
  rewrite Hagain. by destruct (isValid now certPath keyPath f) as [[|] g].
Qed.

(** X2.  [isValid] never touches a file other than the two of the pair it is
    asked about, whatever its verdict. *)
Theorem isValid_leaves_other_files (now : Time) (certPath keyPath p : string) (f : FS) :
  p <> certPath -> p <> keyPath ->
  (isValid now certPath keyPath f).2 !! p = f !! p.
Proof. apply isValid_other_files. Qed.

End ValidityMore.

Section ValidityMoreExamples.
Import Instance.

Lemma isValid_leaves_other_files_witness :
  (isValid 300 "/p/client.crt" "/p/client.key"
           (<["/p/other.crt" := certFile]> pairFS)).2 !! "/p/other.crt"
  = Some certFile
  /\ (isValid 300 "/p/client.crt" "/p/client.key"
              (<["/p/other.crt" := certFile]> pairFS)).2 !! "/p/client.crt" = None.
Proof.
  split.
  - rewrite (isValid_leaves_other_files 300 "/p/client.crt" "/p/client.key"
               "/p/other.crt" (<["/p/other.crt" := certFile]> pairFS));
      [reflexivity|discriminate|discriminate].
  - vm_compute. reflexivity.
Defined.

(** The clock is read at each call: a pair good at 200, the last
    instant of its certificate, is stale and removed at 201. *)
Example isValid_later_call :
  (isValid 200 "/p/client.crt" "/p/client.key" pairFS).1 = true
  /\ isValid 201 "/p/client.crt" "/p/client.key"
             (isValid 200 "/p/client.crt" "/p/client.key" pairFS).2
     = (false, ∅).
Proof. vm_compute. split; reflexivity. Qed.

End ValidityMoreExamples.

(** ** Trust store collector, continued *)

Section CollectorMore.
Context `{Codec} `{Constants} `{Localpath}.

(** X3.  [isValidPEMCertificate] fails exactly when the file cannot be read,
    answers true exactly when a readable file holds a CERTIFICATE block
    (after any number of blocks of other types), and false for every
    other readable file; the loop over the blocks always ends. *)
Theorem isValidPEMCertificate_answer (f : FS) (filePath : string) :
  (os_ReadFile f filePath = None ->
   isValidPEMCertificate f filePath = (false, Some (os_ReadFile_error f filePath)))
  /\ (forall data, os_ReadFile f filePath = Some data ->
      (HasCertificate data -> isValidPEMCertificate f filePath = (true, None))
      /\ (~ HasCertificate data -> isValidPEMCertificate f filePath = (false, None))
      /\ exists found, findCertificate (S (length data)) data = Some found).
Proof.
  split.
  - intros Hr. unfold isValidPEMCertificate. by rewrite Hr.
  - intros data Hr.
    destruct (findCertificate_total (S (length data)) data) as (found & Hf); [lia|].
    split; [|split; [|by exists found]].
    + intros Hc. apply isValidPEMCertificate_spec. by exists data.
    + intros Hn. unfold isValidPEMCertificate. rewrite Hr, Hf.
      destruct found; [|done]. destruct Hn. by eapply findCertificate_found.
Qed.

(** X4.  Every entry of the collector's result is the CA of the provisioner,
    mapped to [minikubeCA.pem], or a file that a traversal of a scanned
    directory visited without error, that is not a directory, has
    extension [.crt] or [.pem] in any case, at least 32 bytes and a
    CERTIFICATE block; its destination is under the guest directory. *)
Theorem collectCACerts_entries (f : FS) (walk : string -> list Visit)
        (m : gmap string string) (p dst : string) :
  collectCACerts f walk = inl m -> m !! p = Some dst ->
  (p = Path.Join [MiniPath; "ca.crt"]
   /\ dst = Path.Join [GuestCertAuthDir; "minikubeCA.pem"])
  \/ exists d v,
      In d scannedDirs /\ In v (walk d) /\ hostpath v = p /\ accepted f v
      /\ dst = Path.Join [GuestCertAuthDir;
                          Strings.TrimSuffix (Path.Base p)
                                             (Strings.ToLower (Path.Ext p)) +:+ ".pem"].
Proof. apply collectCACerts_sound. Qed.

(** X5.  When the collection ends without error, every accepted file of a
    scanned directory is in the result, unless it is one of the reserved
    files [ca.pem] and [cert.pem] of a scanned directory or the CA file
    of the provisioner. *)
Theorem collectCACerts_collects_accepted (f : FS) (walk : string -> list Visit)
        (m : gmap string string) (d : string) (v : Visit) :
  collectCACerts f walk = inl m ->
  In d scannedDirs -> In v (walk d) -> accepted f v ->
  (forall d' name, In d' scannedDirs -> In name excludedNames ->
                   Path.Join [d'; name] <> hostpath v) ->
  hostpath v <> Path.Join [MiniPath; "ca.crt"] ->
  m !! hostpath v
  = Some (Path.Join [GuestCertAuthDir;
                     Strings.TrimSuffix (Path.Base (hostpath v))
                                        (Strings.ToLower (Path.Ext (hostpath v)))
                       +:+ ".pem"]).
Proof. apply collectCACerts_complete. Qed.

(** X6.  A file that every traversal reports with fewer than 32 bytes is not
    in the result, whatever it holds. *)
Theorem collectCACerts_leaves_out_tiny (f : FS) (walk : string -> list Visit)
        (m : gmap string string) (p : string) :
  collectCACerts f walk = inl m ->
  p <> Path.Join [MiniPath; "ca.crt"] ->
  (forall d v fi, In d scannedDirs -> In v (walk d) -> hostpath v = p ->
                  info v = Some fi -> (Size fi < 32)%Z) ->
  m !! p = None.
Proof. apply collectCACerts_excludes_tiny. Qed.

(** X7.  The files [ca.pem] and [cert.pem] directly in the second scanned
    directory are never in the result, and those directly in the first
    are not either when the traversal of the second directory does not
    visit them. *)
Theorem collectCACerts_leaves_out_reserved (f : FS) (walk : string -> list Visit)
        (m : gmap string string) (name : string) :
  collectCACerts f walk = inl m ->
  In name excludedNames ->
  m !! Path.Join [Path.Join [MiniPath; "files"; "etc"; "ssl"; "certs"]; name] = None
  /\ ((forall v, In v (walk (Path.Join [MiniPath; "files"; "etc"; "ssl"; "certs"])) ->
                 hostpath v <> Path.Join [Path.Join [MiniPath; "certs"]; name]) ->
      m !! Path.Join [Path.Join [MiniPath; "certs"]; name] = None).
Proof.
  intros Hc Hn. exact (collectCACerts_excludes_reserved f walk m name Hc Hn).
Qed.

(** X8.  A collection that ends without error always holds the CA of the
    provisioner, mapped to [minikubeCA.pem] in the guest directory, and
    no entry of the result has an empty destination. *)
Theorem collectCACerts_includes_own_ca (f : FS) (walk : string -> list Visit)
        (m : gmap string string) :
  collectCACerts f walk = inl m ->
  m !! Path.Join [MiniPath; "ca.crt"]
  = Some (Path.Join [GuestCertAuthDir; "minikubeCA.pem"])
  /\ forall p dst, m !! p = Some dst -> dst <> EmptyString.
Proof.
  unfold collectCACerts.
  destruct (collectDirs f walk scannedDirs ∅) as [m0|e]; [|done].
  intros [= <-]. split.
  - apply map_lookup_filter_Some. rewrite lookup_insert_eq. split; [done|].
    cbn [snd]. by apply Join_nonempty.
  - intros p dst [_ Hne]%map_lookup_filter_Some. exact Hne.
Qed.

Lemma walkFn_error (f : FS) (d : string) (v : Visit) (m : gmap string string)
      (e : error) :
  (walkFn f d v m).1 = Some e ->
  (err v = Some e /\ os_IsNotExist e = false)
  \/ (err v = None /\ os_ReadFile f (hostpath v) = None
      /\ e = os_ReadFile_error f (hostpath v)).
Proof.
  unfold walkFn. destruct (err v) as [e0|] eqn:He.
  { destruct (os_IsNotExist e0) eqn:Hn; [done|]. intros [= <-]. by left. }
  destruct (info v) as [fi|]; [|done]. destruct (IsDir fi); [done|].
  destruct (_ || _); [|done]. destruct (Size fi <? 32)%Z; [done|].
  unfold isValidPEMCertificate.
  destruct (os_ReadFile f (hostpath v)) as [data|] eqn:Hr.
  - destruct (findCertificate _ data) as [[|]|]; done.
  - intros [= <-]. by right.
Qed.

Lemma filepath_Walk_error (f : FS) (d : string) (visits : list Visit)
      (m : gmap string string) (e : error) :
  (filepath_Walk f d visits m).1 = Some e ->
  exists v, In v visits /\ (walkFn f d v (∅ : gmap string string)).1 = Some e.
Proof.
  assert (forall v m1 m2, (walkFn f d v m1).1 = (walkFn f d v m2).1) as Hindep.
  { intros v m1 m2. unfold walkFn. destruct (err v) as [e0|].
    { by destruct (os_IsNotExist e0). }
    destruct (info v) as [fi|]; [|done]. destruct (IsDir fi); [done|].
    destruct (_ || _); [|done]. destruct (Size fi <? 32)%Z; [done|].
    destruct (isValidPEMCertificate f (hostpath v)) as [[|] [e1|]]; done. }
  revert m. induction visits as [|v visits IH]; intros m; simpl; [done|].
  destruct (walkFn f d v m) as [e1 m1] eqn:Hw. destruct e1 as [e1|].
  - intros [= <-]. exists v. split; [by left|].
    by rewrite (Hindep v ∅ m), Hw.
  - intros He. destruct (IH _ He) as (x & Hx & Hxe). exists x. split; [by right|done].
Qed.

(** X9.  The collection fails only on an error that the traversal reports
    for a visit and that is not a not-exist error, or on a visited file
    whose read fails; the error it returns is that error, wrapped with
    the directory that was being scanned.  A not-exist error reported by
    the traversal is passed over.  The failed read of a visited file is
    returned whatever its kind, a not-exist error too (a file gone since
    it was visited). *)
Theorem collectCACerts_error_origin (f : FS) (walk : string -> list Visit) (e : error) :
  collectCACerts f walk = inr e ->
  exists d v e',
    In d scannedDirs /\ In v (walk d)
    /\ e = Wrap e' ("provisioning: traversal certificates dir " +:+ d)
    /\ ((err v = Some e' /\ os_IsNotExist e' = false)
        \/ (err v = None /\ os_ReadFile f (hostpath v) = None
            /\ e' = os_ReadFile_error f (hostpath v))).
Proof.
  unfold collectCACerts.
  destruct (collectDirs f walk scannedDirs ∅) as [m0|e0] eqn:Hc; [done|].
  intros [= <-].
  assert (forall todo m, collectDirs f walk todo m = inr e0 ->
            exists d v e',
              In d todo /\ In v (walk d)
              /\ e0 = Wrap e' ("provisioning: traversal certificates dir " +:+ d)
              /\ (walkFn f d v (∅ : gmap string string)).1 = Some e') as Hgen.
  { induction todo as [|d todo IH]; intros m; simpl; [done|].
    destruct (filepath_Walk f d (walk d) m) as [e1 m1] eqn:Hw. destruct e1 as [e1|].
    - intros [= <-].
      destruct (filepath_Walk_error f d (walk d) m e1) as (v & Hv & He);
        [by rewrite Hw|].
      exists d, v, e1. split; [by left|done].
    - intros Hrest. destruct (IH _ Hrest) as (d' & v & e' & Hd & Hrest').
      exists d', v, e'. split; [by right|done]. }
  destruct (Hgen _ _ Hc) as (d & v & e' & Hd & Hv & He & Hw).
  exists d, v, e'. split; [done|]. split; [done|]. split; [done|].
  by apply (walkFn_error f d v ∅).
Qed.

End CollectorMore.

Section CollectorMoreExamples.
Import Instance TrustStore.

Lemma stored_is_result : collectCACerts trustFS trustWalk = inl stored.
Proof. vm_compute. reflexivity. Qed.

Lemma collectCACerts_entries_witness :
  ("/home/u/.minikube/certs/corp.crt" = Path.Join [MiniPath; "ca.crt"]
   /\ "/usr/share/ca-certificates/corp.pem"
      = Path.Join [GuestCertAuthDir; "minikubeCA.pem"])
  \/ exists d v,
      In d scannedDirs /\ In v (trustWalk d)
      /\ hostpath v = "/home/u/.minikube/certs/corp.crt" /\ accepted trustFS v
      /\ "/usr/share/ca-certificates/corp.pem"
         = Path.Join [GuestCertAuthDir;
                      Strings.TrimSuffix (Path.Base "/home/u/.minikube/certs/corp.crt")
                        (Strings.ToLower (Path.Ext "/home/u/.minikube/certs/corp.crt"))
                        +:+ ".pem"].
Proof.
  apply (collectCACerts_entries trustFS trustWalk stored
           "/home/u/.minikube/certs/corp.crt" "/usr/share/ca-certificates/corp.pem").
  - exact stored_is_result.
  - vm_compute. reflexivity.
Defined.

Lemma fileVisit_accepted (p : string) :
  trustFS !! p = Some (mkFile true bundle) ->
  (Strings.ToLower (Path.Ext p) = ".crt" \/ Strings.ToLower (Path.Ext p) = ".pem") ->
  accepted trustFS (fileVisit p 64).
Proof.
  intros Hp Hext. split; [reflexivity|]. exists (mkFileInfo false 64).
  split; [reflexivity|]. split; [reflexivity|]. split; [exact Hext|].
  split; [done|]. exists bundle. split.
  - unfold os_ReadFile. cbn [hostpath fileVisit]. by rewrite Hp.
  - eapply HasCertificate_later; [reflexivity|].
    eapply HasCertificate_here; reflexivity.
Qed.

Lemma collectCACerts_collects_accepted_witness :
  stored !! "/home/u/.minikube/certs/sub/root.pem"
  = Some "/usr/share/ca-certificates/root.pem".
Proof.
  refine (collectCACerts_collects_accepted trustFS trustWalk stored
            "/home/u/.minikube/certs"
            (fileVisit "/home/u/.minikube/certs/sub/root.pem" 64)
            stored_is_result _ _ _ _ _).
  - left. reflexivity.
  - vm_compute. tauto.
  - apply fileVisit_accepted; [vm_compute; reflexivity|right; reflexivity].
  - intros d' name [<-|[<-|[]]] [<-|[<-|[]]]; vm_compute; discriminate.
  - vm_compute. discriminate.
Defined.

Lemma collectCACerts_leaves_out_tiny_witness :
  stored !! "/home/u/.minikube/certs/tiny.crt" = None.
Proof.
  refine (collectCACerts_leaves_out_tiny trustFS trustWalk stored
            "/home/u/.minikube/certs/tiny.crt" stored_is_result _ _).
  - vm_compute. discriminate.
  - intros d v fi [<-|[<-|[]]] Hv Hp Hi; vm_compute in Hv;
      repeat (destruct Hv as [<-|Hv]; [try discriminate Hp|]); try done.
    injection Hi as <-. reflexivity.
Defined.

Lemma collectCACerts_leaves_out_reserved_witness :
  stored !! "/home/u/.minikube/files/etc/ssl/certs/ca.pem" = None
  /\ stored !! "/home/u/.minikube/certs/ca.pem" = None.
Proof.
  destruct (collectCACerts_leaves_out_reserved trustFS trustWalk stored "ca.pem"
              stored_is_result) as [Hsecond Hfirst].
  - left. reflexivity.
  - split; [exact Hsecond|]. apply Hfirst.
    intros v Hv. vm_compute in Hv. destruct Hv as [<-|[]]. vm_compute. discriminate.
Defined.

Lemma collectCACerts_includes_own_ca_witness :
  stored !! "/home/u/.minikube/ca.crt"
  = Some "/usr/share/ca-certificates/minikubeCA.pem".
Proof.
  exact (proj1 (collectCACerts_includes_own_ca trustFS trustWalk stored
                  stored_is_result)).
Defined.

Lemma collectCACerts_error_origin_witness :
  exists d v e',
    In d scannedDirs /\ In v (brokenWalk d)
    /\ Wrap (External "open /home/u/.minikube/certs/private: permission denied")
            "provisioning: traversal certificates dir /home/u/.minikube/certs"
       = Wrap e' ("provisioning: traversal certificates dir " +:+ d)
    /\ ((err v = Some e' /\ os_IsNotExist e' = false)
        \/ (err v = None /\ os_ReadFile trustFS (hostpath v) = None
            /\ e' = os_ReadFile_error trustFS (hostpath v))).
Proof.
  apply (collectCACerts_error_origin trustFS brokenWalk).
  vm_compute. reflexivity.
Defined.

End CollectorMoreExamples.

(** ** CA provisioner, continued *)

Section CAProvisionerMore.
Context `{Codec} `{Localpath} `{Host}.

Lemma checkValid_true (now : Time) (c k : string) (w : World) :
  (isValid now c k (fs w)).1 = true ->
  checkValid now c k w = (true, emit (EvIsValid c k true) w).
Proof.
  intros Hv. unfold checkValid.
  pose proof (isValid_true_untouched now c k (fs w) Hv) as Hsame.
  destruct (isValid now c k (fs w)) as [ok f']. cbn [fst snd] in *. subst.
  by destruct w.
Qed.

(** X10.  With the lock acquired and both CA pairs valid, the CA provisioner
    generates nothing and leaves the file system as it is: it reports
    that no CA was regenerated, and its events are the acquisition, the
    two checks and the release. *)
Theorem generateSharedCACerts_reuses_valid_pairs (now : Time) (w : World) :
  mutex_Acquire caLockSpec = None ->
  (isValid now (caCert sharedCACerts) (caKey sharedCACerts) (fs w)).1 = true ->
  (isValid now (proxyCert sharedCACerts) (proxyKey sharedCACerts) (fs w)).1 = true ->
  let r := generateSharedCACerts now w in
  r.1 = (sharedCACerts, false, None)
  /\ fs r.2 = fs w
  /\ events r.2
     = events w
         ++ [ EvAcquire caLockSpec true;
              EvIsValid (caCert sharedCACerts) (caKey sharedCACerts) true;
              EvIsValid (proxyCert sharedCACerts) (proxyKey sharedCACerts) true;
              EvRelease caLockSpec ].
Proof.
  intros Hlock Hca Hproxy. cbv zeta. unfold generateSharedCACerts.
  rewrite Hlock. unfold caCertSpecs. cbn [caLoop ca_certPath ca_keyPath].
  rewrite checkValid_true by exact Hca.
  rewrite checkValid_true by exact Hproxy.
  cbn [fst snd emit fs events]. rewrite <- !app_assoc. done.
Qed.

Lemma caLoop_trace (now : Time) (specs : list CASpec) (b : bool) (w : World) :
  let r := caLoop now specs b w in
  exists work,
    events r.2 = events w ++ work
    /\ caTrace work
    /\ (r.1.2 = None -> r.1.1 = b || existsb isGenerateCACert work)
    /\ (forall e, r.1.2 = Some e ->
        r.1.1 = false
        /\ exists e' pre c k s,
            e = Wrap e' "generate ca cert"
            /\ work = pre ++ [EvGenerateCACert c k s]).
Proof.
  cbv zeta. revert b w. induction specs as [|ca specs IH]; intros b w; simpl.
  { exists []. rewrite app_nil_r, orb_false_r. repeat split; try done. constructor. }
  pose proof (checkValid_events now (ca_certPath ca) (ca_keyPath ca) w) as Hv.
  pose proof (checkValid_verdict now (ca_certPath ca) (ca_keyPath ca) w) as Hok.
  destruct (checkValid now (ca_certPath ca) (ca_keyPath ca) w) as [ok w1].
  cbn [fst snd] in Hv, Hok. rewrite <- Hok in Hv. clear Hok. destruct ok.
  - destruct (IH b w1) as (work & Hw & Ht & Hflag & Herr).
    exists (EvIsValid (ca_certPath ca) (ca_keyPath ca) true :: work).
    rewrite Hw, Hv, <- app_assoc. split; [done|]. split; [by constructor|].
    split; [exact Hflag|]. intros e He. destruct (Herr e He) as (Hf & e' & pre & c & k & s & -> & ->).
    split; [done|]. by exists e', (EvIsValid (ca_certPath ca) (ca_keyPath ca) true :: pre), c, k, s.
  - destruct (util_GenerateCACert _ _ _ (fs w1)) as [e fs2]. destruct e as [e|].
    + exists [EvIsValid (ca_certPath ca) (ca_keyPath ca) false;
              EvGenerateCACert (ca_certPath ca) (ca_keyPath ca) (ca_subject ca)].
      cbn [fst snd emit withFS events]. rewrite Hv, <- app_assoc.
      split; [done|]. split; [repeat constructor|]. split; [done|].
      intros e0 [= <-]. split; [done|].
      by exists e, [EvIsValid (ca_certPath ca) (ca_keyPath ca) false],
                (ca_certPath ca), (ca_keyPath ca), (ca_subject ca).
    + match goal with |- context [caLoop now specs true ?w2] =>
        destruct (IH true w2) as (work & Hw & Ht & Hflag & Herr) end.
      exists (EvIsValid (ca_certPath ca) (ca_keyPath ca) false
              :: EvGenerateCACert (ca_certPath ca) (ca_keyPath ca) (ca_subject ca)
              :: work).
      rewrite Hw. cbn [emit withFS events]. rewrite Hv, <- !app_assoc.
      split; [done|]. split; [by constructor|]. split.
      * intros Hn. rewrite (Hflag Hn). cbn. by rewrite orb_true_r.
      * intros e0 He. destruct (Herr e0 He) as (Hf & e' & pre & c & k & s & -> & ->).
        split; [done|].
        by exists e', (EvIsValid (ca_certPath ca) (ca_keyPath ca) false
                       :: EvGenerateCACert (ca_certPath ca) (ca_keyPath ca)
                                           (ca_subject ca) :: pre), c, k, s.
Qed.

(** X11.  With the lock acquired, the CA provisioner checks each CA pair and
    generates a CA only right after the check of that pair has failed.
    When it returns without error, it reports a regeneration exactly
    when it has generated a CA.  When a generation fails it stops there:
    the failed generation is its last CA event, the error is wrapped as
    a CA generation error, and no regeneration is reported. *)
Theorem generateSharedCACerts_regenerated_flag (now : Time) (w : World) :
  mutex_Acquire caLockSpec = None ->
  let r := generateSharedCACerts now w in
  exists work,
    events r.2 = events w ++ [EvAcquire caLockSpec true] ++ work
                          ++ [EvRelease caLockSpec]
    /\ caTrace work
    /\ (r.1.2 = None -> r.1.1.2 = existsb isGenerateCACert work)
    /\ (forall e, r.1.2 = Some e ->
        r.1.1.2 = false
        /\ exists e' pre c k s,
            e = Wrap e' "generate ca cert"
            /\ work = pre ++ [EvGenerateCACert c k s]).
Proof.
  intros Hlock. cbv zeta. unfold generateSharedCACerts. rewrite Hlock.
  destruct (caLoop_trace now (caCertSpecs sharedCACerts) false
                         (emit (EvAcquire caLockSpec true) w))
    as (work & Hw & Ht & Hflag & Herr).
  destruct (caLoop now _ false _) as [[regen e] w2]. cbn [fst snd] in *.
  exists work. cbn [emit events]. rewrite Hw. cbn [emit events].
  rewrite <- !app_assoc. done.
Qed.

End CAProvisionerMore.

Section CAProvisionerMoreExamples.
Import Instance.

Lemma generateSharedCACerts_reuses_valid_pairs_witness :
  let H := hostFree in
  (generateSharedCACerts 100
     (mkWorld (writePair "/home/u/.minikube/ca.crt" "/home/u/.minikube/ca.key"
                 (writePair "/home/u/.minikube/proxy-client-ca.crt"
                            "/home/u/.minikube/proxy-client-ca.key" ∅)) [])).1
  = (sharedCACerts, false, None).
Proof.
  cbv zeta.
  refine (proj1 (@generateSharedCACerts_reuses_valid_pairs codec localpath hostFree
                   100 (mkWorld _ []) _ _ _)).
  - reflexivity.
  - vm_compute. reflexivity.
  - vm_compute. reflexivity.
Defined.

Lemma generateSharedCACerts_regenerated_flag_witness :
  let H := hostFree in
  exists work,
    events (generateSharedCACerts 100 (mkWorld ∅ [])).2
    = [] ++ [EvAcquire caLockSpec true] ++ work ++ [EvRelease caLockSpec]
    /\ caTrace work
    /\ ((generateSharedCACerts 100 (mkWorld ∅ [])).1.2 = None ->
        (generateSharedCACerts 100 (mkWorld ∅ [])).1.1.2
        = existsb isGenerateCACert work)
    /\ (forall e, (generateSharedCACerts 100 (mkWorld ∅ [])).1.2 = Some e ->
        (generateSharedCACerts 100 (mkWorld ∅ [])).1.1.2 = false
        /\ exists e' pre c k s,
            e = Wrap e' "generate ca cert"
            /\ work = pre ++ [EvGenerateCACert c k s]).
Proof.
  cbv zeta.
  exact (@generateSharedCACerts_regenerated_flag codec localpath hostFree
           100 (mkWorld ∅ []) eq_refl).
Defined.

End CAProvisionerMoreExamples.

(** ** Leaf certificate provisioner, continued *)

Section LeafProvisionerMore.
Context `{Codec} `{Constants} `{Localpath} `{Host}.

Lemma skip_valid (now : Time) (spec : LeafSpec) (w : World) :
  (isValid now (effectiveCert spec) (effectiveKey spec) (fs w)).1 = true ->
  skip false now spec w
  = (true, emit (EvIsValid (effectiveCert spec) (effectiveKey spec) true) w).
Proof. intros Hv. unfold skip. cbn [negb]. by apply checkValid_true. Qed.

Lemma leafLoop_all_valid (cfg : ClusterConfig) (now : Time) (specs : list LeafSpec)
      (xfer : list string) (w : World) :
  Forall (fun spec =>
            (isValid now (effectiveCert spec) (effectiveKey spec) (fs w)).1 = true)
         specs ->
  leafLoop cfg false now specs xfer w
  = ((xfer ++ transferPaths specs, None),
     mkWorld (fs w)
             (events w ++ map (fun spec => EvIsValid (effectiveCert spec)
                                                     (effectiveKey spec) true) specs)).
Proof.
  revert xfer w. induction specs as [|spec specs IH]; intros xfer w Hall.
  { simpl. rewrite !app_nil_r. by destruct w. }
  apply Forall_cons in Hall as [Hv Hall].
  cbn [leafLoop]. rewrite (skip_valid now spec w Hv).
  rewrite IH by exact Hall. cbn [emit fs events map transferPaths flat_map].
  destruct (negb (String.eqb (subject spec) "minikube-user"));
    cbn [app]; rewrite <- ?app_assoc; done.
Qed.

Lemma generatedSubjects_app (evs1 evs2 : list Event) :
  generatedSubjects (evs1 ++ evs2) = generatedSubjects evs1 ++ generatedSubjects evs2.
Proof.
  induction evs1 as [|ev evs1 IH]; [reflexivity|].
  destruct ev; cbn [app generatedSubjects]; by rewrite ?IH.
Qed.

(** X12.  Idempotence.  When no CA was regenerated and the three effective
    pairs are valid, the leaf provisioner generates and copies nothing
    and leaves the file system as it is: it only checks the three pairs,
    and returns the transfer list. *)
Theorem generateProfileCerts_reuses_cache (cfg : ClusterConfig) (n : Node)
        (ccs : CACerts) (now : Time) (w : World) (serviceIP : IP) :
  ControlPlane n = true ->
  util_GetServiceClusterIP (ServiceCIDR (KubernetesConfig_ cfg)) = (serviceIP, None) ->
  Forall (fun spec =>
            (isValid now (effectiveCert spec) (effectiveKey spec) (fs w)).1 = true)
         (leafSpecs (KubernetesConfig_ cfg) n ccs serviceIP) ->
  let r := generateProfileCerts cfg n ccs false now w in
  r.1.2 = None
  /\ fs r.2 = fs w
  /\ generatedSubjects (events r.2) = generatedSubjects (events w)
  /\ events r.2
     = events w
         ++ map (fun spec => EvIsValid (effectiveCert spec) (effectiveKey spec) true)
                (leafSpecs (KubernetesConfig_ cfg) n ccs serviceIP).
Proof.
  intros Hcp Hsip Hall. cbv zeta. unfold generateProfileCerts.
  rewrite Hcp, Hsip. cbn [negb]. rewrite (leafLoop_all_valid _ _ _ _ _ Hall).
  cbn [fst snd fs events]. split; [done|]. split; [done|]. split; [|done].
  rewrite generatedSubjects_app.
  assert (forall specs : list LeafSpec,
             generatedSubjects
               (map (fun spec => EvIsValid (effectiveCert spec) (effectiveKey spec) true)
                    specs) = []) as ->.
  { induction specs as [|spec specs IH]; [reflexivity|exact IH]. }
  apply app_nil_r.
Qed.

Lemma removeIfReadable_self (p : string) (f : FS) : canRead (removeIfReadable p f) p = false.
Proof.
  unfold removeIfReadable. destruct (canRead f p) eqn:Hp; [|done].
  unfold canRead, os_Remove. by rewrite lookup_delete_eq.
Qed.

Lemma removeIfReadable_keeps_unreadable (p q : string) (f : FS) :
  canRead f q = false -> canRead (removeIfReadable p f) q = false.
Proof.
  intros Hq. unfold removeIfReadable. destruct (canRead f p); [|done].
  unfold canRead, os_Remove in *. destruct (decide (p = q)) as [->|Hne].
  - by rewrite lookup_delete_eq.
  - by rewrite lookup_delete_ne.
Qed.

Lemma removeIfReadable_other (p q : string) (f : FS) :
  q <> p -> removeIfReadable p f !! q = f !! q.
Proof.
  intros Hne. unfold removeIfReadable. destruct (canRead f p); [|done].
  unfold os_Remove. by rewrite lookup_delete_ne.
Qed.

(** X13.  Before a certificate is generated, the readable files at its two
    effective paths are removed and nothing else is: the generator runs
    on a file system where neither can be read.  When the generator
    fails, its error is returned wrapped, nothing is copied, and the file
    system is what the generator left. *)
Theorem regenerate_clears_stale_files (cfg : ClusterConfig) (spec : LeafSpec) (w : World) :
  exists cleared,
    canRead cleared (effectiveCert spec) = false
    /\ canRead cleared (effectiveKey spec) = false
    /\ (forall p, p <> effectiveCert spec -> p <> effectiveKey spec ->
                  cleared !! p = fs w !! p)
    /\ (forall e, (util_GenerateSignedCert (signedCertArgs cfg spec) cleared).1 = Some e ->
        exists msg,
          regenerate cfg spec w
          = (Some (Wrap e msg),
             emit (EvGenerateSignedCert (signedCertArgs cfg spec))
                  (withFS (util_GenerateSignedCert (signedCertArgs cfg spec) cleared).2
                          w)))
    /\ ((util_GenerateSignedCert (signedCertArgs cfg spec) cleared).1 = None ->
        hash spec = EmptyString ->
        regenerate cfg spec w
        = (None,
           emit (EvGenerateSignedCert (signedCertArgs cfg spec))
                (withFS (util_GenerateSignedCert (signedCertArgs cfg spec) cleared).2 w))).
Proof.
  exists (removeIfReadable (effectiveKey spec)
            (removeIfReadable (effectiveCert spec) (fs w))).
  split; [apply removeIfReadable_keeps_unreadable, removeIfReadable_self|].
  split; [apply removeIfReadable_self|]. split.
  { intros p Hc Hk. by rewrite !removeIfReadable_other. }
  unfold regenerate.
  destruct (util_GenerateSignedCert _ _) as [e fs2]. cbn [fst snd]. split.
  - intros e0 ->. by eexists.
  - intros -> ->. reflexivity.
Qed.

Lemma promote_trace (cfg : ClusterConfig) (specs : list LeafSpec) (spec : LeafSpec)
      (w : World) :
  In spec specs -> hash spec <> EmptyString ->
  exists new,
    events (promote spec w).2 = events w ++ new /\ Forall (isLeafEvent cfg specs) new.
Proof.
  intros Hin Hh. unfold promote.
  assert (effectiveCert spec = certPath spec +:+ "." +:+ hash spec) as Hc.
  { unfold effectiveCert. apply String.eqb_neq in Hh. by rewrite Hh. }
  assert (effectiveKey spec = keyPath spec +:+ "." +:+ hash spec) as Hk.
  { unfold effectiveKey. apply String.eqb_neq in Hh. by rewrite Hh. }
  assert (isLeafEvent cfg specs (EvCopy (effectiveCert spec) (certPath spec))) as Hcc.
  { exists spec. split; [done|]. split; [done|]. by left. }
  assert (isLeafEvent cfg specs (EvCopy (effectiveKey spec) (keyPath spec))) as Hck.
  { exists spec. split; [done|]. split; [done|]. by right. }
  destruct (copy_Copy (effectiveCert spec) (certPath spec) (fs w)) as [e fs1].
  destruct e as [e|].
  { eexists. split; [reflexivity|]. by repeat constructor. }
  cbn [fs emit withFS].
  destruct (copy_Copy (effectiveKey spec) (keyPath spec) fs1) as [e fs2].
  destruct e as [e|]; cbn [snd emit withFS events]; rewrite <- app_assoc;
    (eexists; split; [reflexivity|]; by repeat constructor).
Qed.

Lemma regenerate_trace (cfg : ClusterConfig) (specs : list LeafSpec) (spec : LeafSpec)
      (w : World) :
  In spec specs ->
  exists new,
    events (regenerate cfg spec w).2 = events w ++ new
    /\ Forall (isLeafEvent cfg specs) new.
Proof.
  intros Hin. unfold regenerate.
  assert (isLeafEvent cfg specs (EvGenerateSignedCert (signedCertArgs cfg spec))) as Hg.
  { by exists spec. }
  destruct (util_GenerateSignedCert _ _) as [e fs2]. destruct e as [e|].
  { eexists. split; [reflexivity|]. by repeat constructor. }
  destruct (String.eqb_spec (hash spec) EmptyString) as [Hh|Hh]; cbn [negb].
  { eexists. split; [reflexivity|]. by repeat constructor. }
  match goal with |- context [promote spec ?w2] =>
    destruct (promote_trace cfg specs spec w2 Hin Hh) as (new & Hp & Hall) end.
  exists (EvGenerateSignedCert (signedCertArgs cfg spec) :: new).
  rewrite Hp. cbn [emit withFS events]. rewrite <- app_assoc.
  split; [done|]. by constructor.
Qed.

Lemma leafLoop_trace (cfg : ClusterConfig) (regen : bool) (now : Time)
      (specs todo : list LeafSpec) (xfer : list string) (w : World) :
  incl todo specs ->
  exists new,
    events (leafLoop cfg regen now todo xfer w).2 = events w ++ new
    /\ Forall (isLeafEvent cfg specs) new.
Proof.
  revert xfer w. induction todo as [|spec todo IH]; intros xfer w Hincl; simpl.
  { exists []. by rewrite app_nil_r. }
  assert (In spec specs) as Hin by (apply Hincl; by left).
  assert (incl todo specs) as Hincl' by (intros x Hx; apply Hincl; by right).
  pose proof (skip_events regen now spec w) as Hs.
  assert (Forall (isLeafEvent cfg specs)
            (if regen then []
             else [EvIsValid (effectiveCert spec) (effectiveKey spec)
                     (isValid now (effectiveCert spec) (effectiveKey spec) (fs w)).1]))
    as Hsk.
  { destruct regen; [constructor|]. constructor; [|constructor]. by exists spec. }
  destruct (skip regen now spec w) as [skipped w1]. cbn [snd] in Hs. destruct skipped.
  - match goal with |- context [leafLoop cfg regen now todo ?x w1] =>
      destruct (IH x w1 Hincl') as (new & Hn & Hall) end.
    eexists. rewrite Hn, Hs, <- app_assoc. split; [reflexivity|].
    by apply Forall_app.
  - destruct (regenerate_trace cfg specs spec w1 Hin) as (new1 & Hg & Hall1).
    destruct (regenerate cfg spec w1) as [e w2]. cbn [snd] in Hg. destruct e as [e|].
    + eexists. cbn [snd]. rewrite Hg, Hs, <- app_assoc. split; [reflexivity|].
      by apply Forall_app.
    + match goal with |- context [leafLoop cfg regen now todo ?x w2] =>
        destruct (IH x w2 Hincl') as (new & Hn & Hall) end.
      eexists. rewrite Hn, Hg, Hs, <- !app_assoc. split; [reflexivity|].
      apply Forall_app. split; [done|]. by apply Forall_app.
Qed.

(** X14.  The leaf provisioner only checks pairs, generates signed
    certificates and copies files: it never takes the lock and never
    generates a CA.  Every check and generation is that of one of the
    three specs, and the only files it copies are the two
    fingerprint-suffixed API-server files, each onto its canonical path. *)
Theorem generateProfileCerts_trace (cfg : ClusterConfig) (n : Node) (ccs : CACerts)
        (regen : bool) (now : Time) (w : World) :
  let k8s := KubernetesConfig_ cfg in
  let serviceIP := (util_GetServiceClusterIP (ServiceCIDR k8s)).1 in
  let fp := fingerprint (apiServerAlternateNames k8s) (apiServerIPs k8s n serviceIP) in
  let r := generateProfileCerts cfg n ccs regen now w in
  exists new,
    events r.2 = events w ++ new
    /\ Forall (isLeafEvent cfg (leafSpecs k8s n ccs serviceIP)) new
    /\ forall src dst, In (EvCopy src dst) new ->
         (src = Path.Join [Profile (ClusterName k8s); "apiserver.crt"] +:+ "." +:+ fp
          /\ dst = Path.Join [Profile (ClusterName k8s); "apiserver.crt"])
         \/ (src = Path.Join [Profile (ClusterName k8s); "apiserver.key"] +:+ "." +:+ fp
             /\ dst = Path.Join [Profile (ClusterName k8s); "apiserver.key"]).
Proof.
  cbv zeta.
  assert (exists new,
            events (generateProfileCerts cfg n ccs regen now w).2 = events w ++ new
            /\ Forall (isLeafEvent cfg
                         (leafSpecs (KubernetesConfig_ cfg) n ccs
                            (util_GetServiceClusterIP
                               (ServiceCIDR (KubernetesConfig_ cfg))).1)) new)
    as (new & Hn & Hall).
  { unfold generateProfileCerts. destruct (ControlPlane n); cbn [negb].
    2:{ exists []. by rewrite app_nil_r. }
    destruct (util_GetServiceClusterIP _) as [sip e]. destruct e as [e|].
    { exists []. by rewrite app_nil_r. }
    cbn [fst].
    destruct (leafLoop_trace cfg regen now
                (leafSpecs (KubernetesConfig_ cfg) n ccs sip)
                (leafSpecs (KubernetesConfig_ cfg) n ccs sip) [] w (incl_refl _))
      as (new & Hn & Hall).
    destruct (leafLoop cfg regen now _ [] w) as [[xfer e] w']. by exists new. }
  exists new. split; [done|]. split; [done|].
  intros src dst Hin. rewrite List.Forall_forall in Hall.
  destruct (Hall _ Hin) as (spec & Hspec & Hh & Hcopy).
  unfold leafSpecs in Hspec. destruct Hspec as [<-|[<-|[<-|[]]]]; [done| |done].
  exact Hcopy.
Qed.

End LeafProvisionerMore.

Section LeafProvisionerMoreExamples.
Import Instance.
#[local] Existing Instance hostFree.

Lemma cachedLeaves_valid :
  Forall (fun spec =>
            (isValid 100 (effectiveCert spec) (effectiveKey spec) cachedLeaves).1 = true)
         (leafSpecs (KubernetesConfig_ cluster) controlPlane sharedCACerts serviceIP).
Proof. repeat constructor; vm_compute; reflexivity. Qed.

Lemma generateProfileCerts_reuses_cache_witness :
  fs (generateProfileCerts cluster controlPlane sharedCACerts false 100
        (mkWorld cachedLeaves [])).2 = cachedLeaves.
Proof.
  pose proof (generateProfileCerts_reuses_cache cluster controlPlane sharedCACerts 100
                (mkWorld cachedLeaves []) serviceIP) as Hthm.
  exact (proj1 (proj2 (Hthm eq_refl eq_refl cachedLeaves_valid))).
Defined.

End LeafProvisionerMoreExamples.

(** ** Kubeadm certificate refresher, continued *)

Section KubeadmMore.
Context `{Codec} `{Constants} {R : Type} `{Runner R}.

Lemma isKubeadmCertValid_unreadable (now : Time) (certPath : string) (rem : Remote R) :
  (RunCmd ["cat"; certPath] (target rem)).1.2 <> None ->
  (isKubeadmCertValid now certPath rem).1 = true.
Proof.
  intros Hr. unfold isKubeadmCertValid.
  pose proof (run_result ["cat"; certPath] rem) as Hres.
  destruct (run ["cat"; certPath] rem) as [[rr e] rem']. cbn [fst] in Hres.
  rewrite <- Hres in Hr. cbn [snd] in Hr. by destruct e.
Qed.

Lemma isKubeadmCertValid_target (now : Time) (certPath : string) (rem : Remote R) :
  target (isKubeadmCertValid now certPath rem).2
  = (RunCmd ["cat"; certPath] (target rem)).2.
Proof.
  unfold isKubeadmCertValid, run.
  destruct (RunCmd ["cat"; certPath] (target rem)) as [[rr e] t'].
  destruct e as [e|]; [done|].
  destruct (pem_Decode (Stdout rr)) as [[b rest]|]; [|done].
  destruct (x509_ParseCertificate (Bytes b)) as [cert|]; [|done].
  by destruct (NotAfter cert <? now)%Z.
Qed.

Lemma kubeadmVerdicts_unreadable (now : Time) (certs : list string) (rem : Remote R) :
  forallb id (readsFail certs (target rem)) = true ->
  forallb id (kubeadmVerdicts now certs rem) = true.
Proof.
  revert rem. induction certs as [|c certs IH]; intros rem; [done|].
  cbn [kubeadmVerdicts readsFail]. unfold catCmd.
  pose proof (isKubeadmCertValid_unreadable now (kubeadmCertPath c) rem) as Hok.
  pose proof (isKubeadmCertValid_target now (kubeadmCertPath c) rem) as Ht.
  destruct (RunCmd ["cat"; kubeadmCertPath c] (target rem)) as [[rr e] t'].
  cbn [fst snd] in Hok, Ht. cbn [forallb]. intros [He Hrest]%andb_true_iff.
  destruct e as [e|]; [|done]. specialize (Hok ltac:(done)).
  destruct (isKubeadmCertValid now (kubeadmCertPath c) rem) as [ok rem'].
  cbn [fst snd] in Hok, Ht. subst ok t'. cbn [forallb id]. by apply IH.
Qed.

(** X15.  First start.  When each of the six reads fails as it is made (the
    six certificates are not on the target yet, whatever else is), the
    refresher renews nothing: it sends the six reads, no renew command,
    and returns no error. *)
Theorem generateKubeadmCerts_first_start (now : Time) (version : string)
        (rem : Remote R) :
  forallb id (readsFail kubeadmCerts (target rem)) = true ->
  (generateKubeadmCerts now version rem).1 = None
  /\ sent (generateKubeadmCerts now version rem).2
     = sent rem ++ map catCmd kubeadmCerts.
Proof.
  intros Hr. unfold generateKubeadmCerts.
  pose proof (kubeadmCheckAll_sent now kubeadmCerts false rem) as Hs.
  pose proof (kubeadmCheckAll_flag now kubeadmCerts false rem) as Hf.
  rewrite (kubeadmVerdicts_unreadable now kubeadmCerts rem Hr) in Hf.
  destruct (kubeadmCheckAll now kubeadmCerts false rem) as [needs rem1].
  cbn [fst snd negb orb] in Hs, Hf. subst needs. cbn [negb fst snd].
  done.
Qed.

End KubeadmMore.

Section KubeadmMoreExamples.
Import Instance Deployment.

(** The target of a first start after the copies: the CA and the
    API-server certificate are in the directory, the six are not. *)
Lemma generateKubeadmCerts_first_start_witness :
  (generateKubeadmCerts 100 "v1.30.0" (mkRemote copiedTarget [])).1 = None
  /\ sent (generateKubeadmCerts 100 "v1.30.0" (mkRemote copiedTarget [])).2
     = [] ++ map catCmd kubeadmCerts.
Proof.
  refine (generateKubeadmCerts_first_start 100 "v1.30.0" (mkRemote copiedTarget []) _).
  vm_compute. reflexivity.
Defined.

(** The same on a target where every read fails. *)
Example generateKubeadmCerts_fresh_target :
  (@generateKubeadmCerts codec constants unit FreshTarget.runner
     100 "v1.30.0" (mkRemote tt [])).1 = None.
Proof. vm_compute. reflexivity. Qed.

End KubeadmMoreExamples.

(** ** Trust store installer, continued *)

Section InstallerMore.
Context `{Constants} {R : Type} `{Runner R}.

Lemma getSubjectHash_ok (f : string) (rem : Remote R) :
  (getSubjectHash f rem).1.2 = None ->
  sent (getSubjectHash f rem).2
  = sent rem ++ [ ["ls"; "-la"; f];
                  ["openssl"; "x509"; "-hash"; "-noout"; "-in"; f] ].
Proof.
  unfold getSubjectHash.
  pose proof (run_sent ["ls"; "-la"; f] rem) as H1.
  destruct (run ["ls"; "-la"; f] rem) as [[lrr e1] rem1]. cbn [snd] in H1.
  destruct e1 as [e1|]; [done|].
  pose proof (run_sent ["openssl"; "x509"; "-hash"; "-noout"; "-in"; f] rem1) as H2.
  destruct (run ["openssl"; "x509"; "-hash"; "-noout"; "-in"; f] rem1)
    as [[rr e2] rem2]. cbn [snd] in H2.
  destruct e2 as [e2|].
  - by destruct (run ["cat"; f] rem2) as [[crr e3] rem3].
  - intros _. cbn [snd]. by rewrite H2, H1, <- app_assoc.
Qed.

Lemma installLoop_success (hasSSLBinary : bool) (caCerts : list string) (rem : Remote R) :
  (installLoop hasSSLBinary caCerts rem).1 = None ->
  exists hashes,
    length hashes = length caCerts
    /\ sent (installLoop hasSSLBinary caCerts rem).2
       = sent rem ++ flat_map (installCmds hasSSLBinary) (zip caCerts hashes).
Proof.
  revert rem. induction caCerts as [|f caCerts IH]; intros rem; simpl.
  { intros _. exists []. by rewrite app_nil_r. }
  pose proof (run_sent (directLinkCmd f) rem) as H1.
  destruct (run (directLinkCmd f) rem) as [[rr1 e1] rem1]. cbn [snd] in H1.
  destruct e1 as [e1|]; [done|].
  destruct hasSSLBinary; cbn [negb].
  2:{ intros Hok. destruct (IH rem1 Hok) as (hashes & Hl & Hs).
      exists (EmptyString :: hashes). split; [simpl; by rewrite Hl|].
      rewrite Hs, H1, <- app_assoc. reflexivity. }
  pose proof (getSubjectHash_ok f rem1) as H2.
  destruct (getSubjectHash f rem1) as [[h e2] rem2]. cbn [fst snd] in H2.
  destruct e2 as [e2|]; [done|]. specialize (H2 eq_refl).
  pose proof (run_sent (hashLinkCmd f h) rem2) as H3.
  destruct (run (hashLinkCmd f h) rem2) as [[rr3 e3] rem3]. cbn [snd] in H3.
  destruct e3 as [e3|]; [done|].
  intros Hok. destruct (IH rem3 Hok) as (hashes & Hl & Hs).
  exists (h :: hashes). split; [simpl; by rewrite Hl|].
  rewrite Hs, H3, H2, H1, <- !app_assoc. reflexivity.
Qed.

Lemma installLoop_error (hasSSLBinary : bool) (caCerts : list string) (rem : Remote R)
      (e : error) :
  (installLoop hasSSLBinary caCerts rem).1 = Some e ->
  exists f e',
    In f caCerts
    /\ (e = Wrap e' ("create symlink for " +:+ f)
        \/ e = Wrap e' ("calculate hash for cacert " +:+ f)).
Proof.
  revert rem. induction caCerts as [|f caCerts IH]; intros rem; simpl; [done|].
  assert (forall rem', (installLoop hasSSLBinary caCerts rem').1 = Some e ->
            exists f0 e', (f = f0 \/ In f0 caCerts)
              /\ (e = Wrap e' ("create symlink for " +:+ f0)
                  \/ e = Wrap e' ("calculate hash for cacert " +:+ f0))) as Hrest.
  { intros rem' He. destruct (IH rem' He) as (f0 & e' & Hin & Hcase).
    exists f0, e'. split; [by right|done]. }
  destruct (run (directLinkCmd f) rem) as [[rr1 e1] rem1].
  destruct e1 as [e1|].
  { intros [= <-]. exists f, e1. split; [by left|by left]. }
  destruct hasSSLBinary; cbn [negb]; [|apply Hrest].
  destruct (getSubjectHash f rem1) as [[h e2] rem2].
  destruct e2 as [e2|].
  { intros [= <-]. exists f, e2. split; [by left|by right]. }
  destruct (run (hashLinkCmd f h) rem2) as [[rr3 e3] rem3].
  destruct e3 as [e3|]; [|apply Hrest].
  intros [= <-]. exists f, e3. split; [by left|by left].
Qed.

Lemma getSubjectHash_value (f : string) (rem : Remote R) :
  (getSubjectHash f rem).1.2 = None ->
  let t1 := (RunCmd ["ls"; "-la"; f] (target rem)).2 in
  let r := RunCmd ["openssl"; "x509"; "-hash"; "-noout"; "-in"; f] t1 in
  (getSubjectHash f rem).1.1 = strings_TrimSpace (string_of_list_byte (Stdout r.1.1))
  /\ target (getSubjectHash f rem).2 = r.2.
Proof.
  cbv zeta. unfold getSubjectHash, run.
  destruct (RunCmd ["ls"; "-la"; f] (target rem)) as [[lrr e1] t1].
  destruct e1 as [e1|]; [done|]. cbn [target snd].
  destruct (RunCmd ["openssl"; "x509"; "-hash"; "-noout"; "-in"; f] t1)
    as [[rr e2] t2].
  destruct e2 as [e2|]; [|done]. cbn [target sent].
  by destruct (RunCmd ["cat"; f] t2) as [[crr e3] t3].
Qed.

Lemma run_target (c : Cmd) (rem : Remote R) :
  target (run c rem).2 = (RunCmd c (target rem)).2.
Proof. unfold run. by destruct (RunCmd c (target rem)) as [res t']. Qed.

(** With the hashing tool, the link of each certificate is made from
    the name the tool has just given for it. *)
Lemma installLoop_hashes (caCerts : list string) (rem : Remote R) :
  (installLoop true caCerts rem).1 = None ->
  sent (installLoop true caCerts rem).2
  = sent rem
      ++ flat_map (installCmds true) (zip caCerts (subjectHashes caCerts (target rem))).
Proof.
  revert rem. induction caCerts as [|f caCerts IH]; intros rem; simpl.
  { intros _. by rewrite app_nil_r. }
  pose proof (run_sent (directLinkCmd f) rem) as Hs1.
  pose proof (run_target (directLinkCmd f) rem) as Ht1.
  destruct (run (directLinkCmd f) rem) as [[rr1 e1] rem1]. cbn [snd] in Hs1, Ht1.
  destruct e1 as [e1|]; [done|]. rewrite <- Ht1.
  pose proof (getSubjectHash_ok f rem1) as Hs2.
  pose proof (getSubjectHash_value f rem1) as Hv2. cbv zeta in Hv2.
  destruct (getSubjectHash f rem1) as [[h e2] rem2]. cbn [fst snd] in Hs2, Hv2.
  destruct e2 as [e2|]; [done|].
  specialize (Hs2 eq_refl). destruct (Hv2 eq_refl) as [Hh Ht2].
  rewrite <- Hh, <- Ht2.
  pose proof (run_sent (hashLinkCmd f h) rem2) as Hs3.
  pose proof (run_target (hashLinkCmd f h) rem2) as Ht3.
  destruct (run (hashLinkCmd f h) rem2) as [[rr3 e3] rem3]. cbn [snd] in Hs3, Ht3.
  destruct e3 as [e3|]; [done|]. rewrite <- Ht3.
  intros Hok. rewrite (IH rem3 Hok), Hs3, Hs2, Hs1, <- !app_assoc. reflexivity.
Qed.

Lemma installLoop_direct (caCerts : list string) (rem : Remote R) :
  (installLoop false caCerts rem).1 = None ->
  sent (installLoop false caCerts rem).2 = sent rem ++ map directLinkCmd caCerts.
Proof.
  revert rem. induction caCerts as [|f caCerts IH]; intros rem; simpl.
  { intros _. by rewrite app_nil_r. }
  pose proof (run_sent (directLinkCmd f) rem) as Hs1.
  destruct (run (directLinkCmd f) rem) as [[rr1 e1] rem1]. cbn [snd] in Hs1.
  destruct e1 as [e1|]; [done|].
  intros Hok. rewrite (IH rem1 Hok), Hs1, <- app_assoc. reflexivity.
Qed.

(** X16.  When the installation succeeds, the commands sent after the probe
    are, without the hashing tool, the direct link of each certificate in
    turn; with it, for each certificate in turn, its direct link, the
    two inspections of the file and the guarded link from the name of
    its subject hash, which is the output of the second inspection
    without the white space around it.  Nothing is sent twice, nothing
    is left out, and no file is read back with [cat]. *)
Theorem installCertSymlinks_success_log (caCerts : list string) (rem : Remote R) :
  (installCertSymlinks caCerts rem).1 = None ->
  let probe := RunCmd probeCmd (target rem) in
  sent (installCertSymlinks caCerts rem).2
  = sent rem
      ++ probeCmd
         :: match probe.1.2 with
            | Some _ => map directLinkCmd caCerts
            | None =>
                flat_map (installCmds true) (zip caCerts (subjectHashes caCerts probe.2))
            end.
Proof.
  cbv zeta. unfold installCertSymlinks.
  pose proof (run_sent probeCmd rem) as Hs.
  pose proof (run_result probeCmd rem) as Hr.
  pose proof (run_target probeCmd rem) as Ht.
  destruct (run probeCmd rem) as [[rr e] rem1]. cbn [fst snd] in Hs, Hr, Ht.
  rewrite <- Hr, <- Ht. cbn [fst snd]. intros Hok. destruct e as [e|].
  - by rewrite (installLoop_direct _ _ Hok), Hs, <- app_assoc.
  - by rewrite (installLoop_hashes _ _ Hok), Hs, <- app_assoc.
Qed.

(** X17.  Every error of the installer is the error of a command for one of
    the certificates, wrapped with the name of that certificate: a
    failed link, or a failed computation of the subject hash.  A failed
    probe is never returned as an error. *)
Theorem installCertSymlinks_error_names_cert (caCerts : list string) (rem : Remote R)
        (e : error) :
  (installCertSymlinks caCerts rem).1 = Some e ->
  exists f e',
    In f caCerts
    /\ (e = Wrap e' ("create symlink for " +:+ f)
        \/ e = Wrap e' ("calculate hash for cacert " +:+ f)).
Proof.
  unfold installCertSymlinks.
  destruct (run probeCmd rem) as [[rr e0] rem1]. apply installLoop_error.
Qed.

End InstallerMore.

Section InstallerMoreExamples.
Import Instance.

(** The tool prints the hash and a newline: the link is made from the
    hash alone. *)
Lemma installCertSymlinks_success_log_witness :
  sent (installCertSymlinks ["/usr/share/ca-certificates/corp.pem"]
          (mkRemote (mkTarget ∅ true) [])).2
  = [] ++ probeCmd
       :: match (RunCmd probeCmd (mkTarget ∅ true)).1.2 with
          | Some _ => map directLinkCmd ["/usr/share/ca-certificates/corp.pem"]
          | None =>
              flat_map (installCmds true)
                (zip ["/usr/share/ca-certificates/corp.pem"]
                     (subjectHashes ["/usr/share/ca-certificates/corp.pem"]
                        (RunCmd probeCmd (mkTarget ∅ true)).2))
          end.
Proof.
  refine (installCertSymlinks_success_log ["/usr/share/ca-certificates/corp.pem"]
            (mkRemote (mkTarget ∅ true) []) _).
  vm_compute. reflexivity.
Defined.

Example subjectHashes_trimmed :
  subjectHashes ["/usr/share/ca-certificates/corp.pem"] (mkTarget ∅ true) = ["ab"].
Proof. vm_compute. reflexivity. Qed.

(** White space is trimmed as Unicode defines it: here a no-break space
    (bytes c2 a0) in front, a newline and a line separator (bytes
    e2 80 a8) behind; a lone byte c2 is no white space. *)
Example strings_TrimSpace_unicode :
  strings_TrimSpace
    (String (ascii_of_nat 194) (String (ascii_of_nat 160) " 3b2f a1 ")
     +:+ String (ascii_of_nat 10)
           (String (ascii_of_nat 226) (String (ascii_of_nat 128)
              (String (ascii_of_nat 168) ""))))
  = "3b2f a1"
  /\ strings_TrimSpace (String (ascii_of_nat 194) " x ")
     = String (ascii_of_nat 194) " x".
Proof. vm_compute. split; reflexivity. Qed.

Lemma installCertSymlinks_error_names_cert_witness :
  exists f e',
    In f ["/usr/share/ca-certificates/corp.pem"]
    /\ (Wrap (External "exit status 1")
             "create symlink for /usr/share/ca-certificates/corp.pem"
        = Wrap e' ("create symlink for " +:+ f)
        \/ Wrap (External "exit status 1")
                "create symlink for /usr/share/ca-certificates/corp.pem"
           = Wrap e' ("calculate hash for cacert " +:+ f)).
Proof.
  refine (@installCertSymlinks_error_names_cert constants unit ReadOnlyTarget.runner
            ["/usr/share/ca-certificates/corp.pem"] (mkRemote tt []) _ _).
  vm_compute. reflexivity.
Defined.

End InstallerMoreExamples.

(** ** The orchestrator *)

Section OrchestratorProps.
Context `{Codec} `{Constants} `{Localpath} `{Host} `{GuestDirs} `{Assets} `{Kubeconfig}
        {R : Type} `{Runner R} `{Copier R}.

Lemma certAssets_spec (xfer : list string) (acc : list CopyableFile) (s : Setup R) :
  exists new,
    (certAssets xfer acc s).1.1 = acc ++ new
    /\ (certAssets xfer acc s).2
       = mkSetup (local s) (remote s) (copies s) (made s ++ new) (closed s)
    /\ Forall (openedIn (fs (local s))) new
    /\ ((certAssets xfer acc s).1.2 = None -> new = map certAsset xfer).
Proof.
  revert acc s. induction xfer as [|p xfer IH]; intros acc s; simpl.
  { exists []. rewrite !app_nil_r. by destruct s. }
  destruct (assets_NewFileAsset p _ _ _ (fs (local s))) as [e|] eqn:Ho.
  { exists []. rewrite !app_nil_r. cbn [fst snd]. by destruct s. }
  destruct (IH (acc ++ [certAsset p]) (making (certAsset p) s))
    as (new & Hr1 & Hr2 & Hr3 & Hr4).
  exists (certAsset p :: new). cbn [making local remote copies made closed] in *.
  rewrite Hr1, Hr2, <- !app_assoc. split; [done|]. split; [done|].
  split; [by constructor|]. intros Hn. by rewrite (Hr4 Hn).
Qed.

Lemma caAssets_spec (caCerts : list (string * string)) (acc : list CopyableFile)
      (s : Setup R) :
  exists new,
    (caAssets caCerts acc s).1.1 = acc ++ new
    /\ (caAssets caCerts acc s).2
       = mkSetup (local s) (remote s) (copies s) (made s ++ new) (closed s)
    /\ Forall (openedIn (fs (local s))) new
    /\ ((caAssets caCerts acc s).1.2 = None -> new = map caAsset caCerts).
Proof.
  revert acc s. induction caCerts as [|[src dst] caCerts IH]; intros acc s; simpl.
  { exists []. rewrite !app_nil_r. by destruct s. }
  destruct (assets_NewFileAsset src _ _ _ (fs (local s))) as [e|] eqn:Ho.
  { exists []. rewrite !app_nil_r. cbn [fst snd]. by destruct s. }
  destruct (IH (acc ++ [caAsset (src, dst)]) (making (caAsset (src, dst)) s))
    as (new & Hr1 & Hr2 & Hr3 & Hr4).
  exists (caAsset (src, dst) :: new). cbn [making local remote copies made closed] in *.
  rewrite Hr1, Hr2, <- !app_assoc. split; [done|]. split; [done|].
  split; [by constructor|]. intros Hn. by rewrite (Hr4 Hn).
Qed.

(** The copies stop at the first failure; they touch neither the local
    side nor the log of commands, and they make and close nothing. *)
Lemma copyAll_spec (files : list CopyableFile) (s : Setup R) :
  local (copyAll files s).2 = local s
  /\ made (copyAll files s).2 = made s
  /\ closed (copyAll files s).2 = closed s
  /\ sent (remote (copyAll files s).2) = sent (remote s)
  /\ exists k,
      copies (copyAll files s).2 = copies s ++ take k files
      /\ (k <= length files)%nat
      /\ (files <> [] -> (0 < k)%nat)
      /\ ((copyAll files s).1 = None -> k = length files)
      /\ (forall e, (copyAll files s).1 = Some e ->
          exists f e', files !! (k - 1)%nat = Some f
                       /\ e = Wrap e' ("Copy " +:+ GetSourcePath f)).
Proof.
  revert s. induction files as [|f files IH]; intros s; simpl.
  { repeat split; try done. exists 0%nat. rewrite app_nil_r. repeat split; done. }
  destruct (Copy f (target (remote s))) as [e t'] eqn:Hc.
  destruct e as [e|]; cbn [fst snd local made closed remote sent copies].
  - repeat split; try done. exists 1%nat. cbn [take]. rewrite take_0.
    repeat split; try done; [lia|lia|].
    intros e0 [= <-]. by exists f, e.
  - destruct (IH (mkSetup (local s) (mkRemote t' (sent (remote s)))
                          (copies s ++ [f]) (made s) (closed s)))
      as (Hl & Hm & Hcl & Hs & k & Hk & Hle & Hpos & Hn & He).
    cbn [local made closed remote sent copies] in *.
    repeat split; try done. exists (S k). cbn [take].
    rewrite Hk, <- app_assoc. repeat split; try done; [lia|lia|by intros ->%Hn|].
    intros e0 Hsome. destruct (He e0 Hsome) as (f' & e' & Hf & ->).
    exists f', e'. split; [|done].
    destruct k as [|k].
    + destruct files as [|f0 files]; [done|]. specialize (Hpos ltac:(done)). lia.
    + simpl in *. by rewrite Nat.sub_0_r in *.
Qed.

(** What a run of [SetupCerts] leaves: the assets made are closed, the
    files copied are the first of them, and the run ended before the
    copies, in the copies, or after them. *)
Lemma SetupCerts_run (now : Time) (walk : string -> list Visit)
      (range1 range2 : gmap string string -> list (string * string))
      (k8s : Cluster) (n : NodeId) (s : Setup R) :
  let r := SetupCerts now walk range1 range2 k8s n s in
  let g := generateSharedCACerts now (local s) in
  let p := generateProfileCerts (c_ClusterConfig k8s) (n_Node n)
                                g.1.1.1 g.1.1.2 now g.2 in
  exists (opened : list CopyableFile) (k : nat),
    made r.2 = made s ++ opened
    /\ closed r.2 = closed s ++ opened
    /\ copies r.2 = copies s ++ take k opened
    /\ Forall (openedIn (fs (local r.2))) opened
    /\ ((r.1 <> None /\ k = 0%nat /\ remote r.2 = remote s)
        \/ ((0 < k)%nat /\ sent (remote r.2) = sent (remote s)
            /\ exists f e', opened !! (k - 1)%nat = Some f
                            /\ r.1 = Some (Wrap e' ("Copy " +:+ GetSourcePath f)))
        \/ (k = length opened /\ (0 < k)%nat
            /\ g.1.2 = None /\ p.1.2 = None /\ local r.2 = p.2
            /\ exists caCerts kubeCfg data,
                collectCACerts (fs p.2) walk = inl caCerts
                /\ kubeconfig_PopulateFromSettings (kubeconfigSettings n) = inl kubeCfg
                /\ runtime_Encode kubeCfg = inl data
                /\ opened
                   = map certAsset (default [] p.1.1
                                    ++ [caCert g.1.1.1; caKey g.1.1.1;
                                        proxyCert g.1.1.1; proxyKey g.1.1.1])
                     ++ map caAsset (range1 caCerts)
                     ++ (if ControlPlane (n_Node n)
                         then [MemoryAsset data GuestPersistentDir "kubeconfig" "0644"]
                         else [])
                /\ exists rem3,
                    sent rem3 = sent (remote s)
                    /\ let i := installCertSymlinks (map snd (range2 caCerts)) rem3 in
                       let q := generateKubeadmCerts now (KubernetesVersion k8s) i.2 in
                       match i.1 with
                       | Some e =>
                           r.1 = Some (Wrap e "certificate symlinks")
                           /\ remote r.2 = i.2
                       | None =>
                           r.1 = match q.1 with
                                 | Some e => Some (Wrap e "failed to renew kubeadm certs")
                                 | None => None
                                 end
                           /\ remote r.2 = q.2
                       end)).
Proof.
  cbv zeta. unfold SetupCerts, SetupCerts_body.
  destruct (generateSharedCACerts now (local s)) as [[[ccs regen] e] w1].
  cbn [fst snd]. destruct e as [e|].
  { exists [], 0%nat. cbn [fst snd local remote copies made closed take].
    rewrite !app_nil_r. repeat split; try done. left. done. }
  destruct (generateProfileCerts _ _ ccs regen now w1) as [[xfer e] w2].
  cbn [fst snd]. destruct e as [e|].
  { exists [], 0%nat. cbn [fst snd local remote copies made closed take].
    rewrite !app_nil_r. repeat split; try done. left. done. }
  destruct (certAssets_spec
              (match xfer with Some l => l | None => [] end
               ++ [caCert ccs] ++ [caKey ccs] ++ [proxyCert ccs] ++ [proxyKey ccs])
              [] (mkSetup w2 (remote s) (copies s) (made s) (closed s)))
    as (new1 & Hc1 & Hs1 & Ho1 & Hn1).
  destruct (certAssets _ [] _) as [[cf e] s3].
  cbn [fst snd local remote copies made closed] in Hc1, Hs1, Ho1, Hn1.
  rewrite app_nil_l in Hc1. subst cf s3.
  destruct e as [e|].
  { exists new1, 0%nat. cbn [fst snd local remote copies made closed take].
    rewrite !app_nil_r. repeat split; try done. left. done. }
  specialize (Hn1 eq_refl). cbn [local fs].
  destruct (collectCACerts (fs w2) walk) as [caCerts|e] eqn:Hcol.
  2:{ exists new1, 0%nat. cbn [fst snd local remote copies made closed take].
      rewrite !app_nil_r. repeat split; try done. left. done. }
  destruct (caAssets_spec (range1 caCerts) new1
              (mkSetup w2 (remote s) (copies s) (made s ++ new1) (closed s)))
    as (new2 & Hc2 & Hs2 & Ho2 & Hn2).
  destruct (caAssets (range1 caCerts) new1 _) as [[cf2 e] s4].
  cbn [fst snd local remote copies made closed] in Hc2, Hs2, Ho2, Hn2.
  subst cf2 s4. rewrite <- app_assoc.
  assert (Forall (openedIn (fs w2)) (new1 ++ new2)) as Ho12.
  { apply Forall_app. by split. }
  destruct e as [e|].
  { exists (new1 ++ new2), 0%nat. cbn [fst snd local remote copies made closed take].
    rewrite !app_nil_r. repeat split; try done. left. done. }
  specialize (Hn2 eq_refl).
  destruct (kubeconfig_PopulateFromSettings (kubeconfigSettings n))
    as [kubeCfg|e] eqn:Hpop.
  2:{ exists (new1 ++ new2), 0%nat. cbn [fst snd local remote copies made closed take].
      rewrite !app_nil_r. repeat split; try done. left. done. }
  destruct (runtime_Encode kubeCfg) as [data|e] eqn:Henc.
  2:{ exists (new1 ++ new2), 0%nat. cbn [fst snd local remote copies made closed take].
      rewrite !app_nil_r. repeat split; try done. left. done. }
  set (kube := if ControlPlane (n_Node n)
               then [MemoryAsset data GuestPersistentDir "kubeconfig" "0644"]
               else []).
  set (files := (new1 ++ new2) ++ kube).
  assert ((if ControlPlane (n_Node n)
           then ((new1 ++ new2)
                 ++ [MemoryAsset data GuestPersistentDir "kubeconfig" "0644"],
                 making (MemoryAsset data GuestPersistentDir "kubeconfig" "0644")
                        (mkSetup w2 (remote s) (copies s) (made s ++ new1 ++ new2)
                                 (closed s)))
           else (new1 ++ new2,
                 mkSetup w2 (remote s) (copies s) (made s ++ new1 ++ new2) (closed s)))
          = (files, mkSetup w2 (remote s) (copies s) (made s ++ files) (closed s)))
    as ->.
  { unfold files, kube, making. cbn [local remote copies made closed].
    destruct (ControlPlane (n_Node n)); rewrite <- ?app_assoc, ?app_nil_r; done. }
  assert (Forall (openedIn (fs w2)) files) as Hfiles.
  { unfold files, kube. apply Forall_app. split; [done|].
    destruct (ControlPlane (n_Node n)); by repeat constructor. }
  assert (files
          = map certAsset (default [] xfer
                           ++ [caCert ccs; caKey ccs; proxyCert ccs; proxyKey ccs])
            ++ map caAsset (range1 caCerts)
            ++ (if ControlPlane (n_Node n)
                then [MemoryAsset data GuestPersistentDir "kubeconfig" "0644"]
                else [])) as Hshape.
  { unfold files, kube. rewrite Hn2, Hn1, <- app_assoc. by destruct xfer. }
  assert (files <> []) as Hne.
  { rewrite Hshape. intros He%(f_equal length). revert He.
    rewrite !length_app, !length_map, !length_app. simpl. lia. }
  pose proof (copyAll_spec files
                (mkSetup w2 (remote s) (copies s) (made s ++ files) (closed s)))
    as (Hl & Hm & Hcl & Hs & k & Hk & Hle & Hpos & Hn & He).
  destruct (copyAll files _) as [e s3].
  cbn [fst snd local remote copies made closed] in Hl, Hm, Hcl, Hs, Hk, Hn, He.
  destruct e as [e|].
  { exists files, k. cbn [fst snd local remote copies made closed].
    rewrite Hl, Hm, Hcl. split; [done|]. split; [done|]. split; [exact Hk|].
    split; [done|]. right. left.
    split; [by apply Hpos|]. split; [done|].
    destruct (He e eq_refl) as (f & e' & Hf & ->). by exists f, e'. }
  specialize (Hn eq_refl).
  destruct (installCertSymlinks _ (remote s3)) as [e rem4] eqn:Hi.
  destruct e as [e|];
    [|destruct (generateKubeadmCerts now _ rem4) as [e rem5] eqn:Hq;
      destruct e as [e|]];
    (exists files, k; cbn [fst snd local remote copies made closed];
     rewrite Hl, Hm, Hcl; split; [done|]; split; [done|]; split; [exact Hk|];
     split; [done|];
     right; right; split; [done|]; split; [by apply Hpos|];
     split; [done|]; split; [done|]; split; [done|];
     exists caCerts, kubeCfg, data;
     split; [done|]; split; [done|]; split; [done|]; split; [done|];
     exists (remote s3); split; [done|];
     rewrite Hi; cbn [fst snd]; rewrite ?Hq; done).
Qed.

(** The paths a successful leaf provisioning hands over. *)
Lemma generateProfileCerts_paths (cfg : ClusterConfig) (n : Node) (ccs : CACerts)
      (regen : bool) (now : Time) (w : World) :
  (generateProfileCerts cfg n ccs regen now w).1.2 = None ->
  (generateProfileCerts cfg n ccs regen now w).1.1
  = Some (if ControlPlane n
          then [ Path.Join [Profile (ClusterName (KubernetesConfig_ cfg));
                            "apiserver.crt"];
                 Path.Join [Profile (ClusterName (KubernetesConfig_ cfg));
                            "apiserver.key"];
                 Path.Join [Profile (ClusterName (KubernetesConfig_ cfg));
                            "proxy-client.crt"];
                 Path.Join [Profile (ClusterName (KubernetesConfig_ cfg));
                            "proxy-client.key"] ]
          else []).
Proof.
  unfold generateProfileCerts.
  destruct (ControlPlane n); cbn [negb]; [|done].
  destruct (util_GetServiceClusterIP _) as [sip e]. destruct e as [e|]; [done|].
  pose proof (leafLoop_xfer cfg regen now
                (leafSpecs (KubernetesConfig_ cfg) n ccs sip) [] w) as Hx.
  destruct (leafLoop cfg regen now _ [] w) as [[xfer e] w'].
  cbn [fst snd] in *. intros ->. by rewrite (Hx eq_refl).
Qed.

Lemma generateSharedCACerts_paths (now : Time) (w : World) :
  (generateSharedCACerts now w).1.1.1 = sharedCACerts.
Proof.
  unfold generateSharedCACerts. destruct (mutex_Acquire caLockSpec); [done|].
  by destruct (caLoop now _ false _) as [[regen e] w2].
Qed.

(** The asset of a file named [name] in a directory. *)
Lemma certAsset_Join (d name : string) :
  isName name = true ->
  certAsset (Path.Join [d; name])
  = FileAsset (Path.Join [d; name]) GuestKubernetesCertsDir name
              (if Strings.HasSuffix name ".key" then "0600" else "0644").
Proof. intros Hn. unfold certAsset. by rewrite (Base_Join _ _ Hn). Qed.

(** The installer sends the probe first, whatever follows. *)
Lemma installCertSymlinks_log (caCerts : list string) (rem : Remote R) :
  exists rest,
    sent (installCertSymlinks caCerts rem).2 = sent rem ++ probeCmd :: rest
    /\ ((installCertSymlinks caCerts rem).1 = None ->
        exists hasSSLBinary hashes,
          length hashes = length caCerts
          /\ rest = flat_map (installCmds hasSSLBinary) (zip caCerts hashes)).
Proof.
  unfold installCertSymlinks.
  pose proof (run_sent probeCmd rem) as Hp.
  destruct (run probeCmd rem) as [[rr e] rem1]. cbn [fst snd] in Hp.
  set (hasSSLBinary := match e with Some _ => false | None => true end).
  destruct (installLoop_sent hasSSLBinary caCerts rem1) as (cmds & Hs & _).
  exists cmds. split; [by rewrite Hs, Hp, <- app_assoc|].
  intros Hok. destruct (installLoop_success _ _ _ Hok) as (hashes & Hl & Hs').
  exists hasSSLBinary, hashes. split; [done|].
  rewrite Hs in Hs'. by apply app_inv_head in Hs'.
Qed.

(** The refresher sends its six reads, and then at most the renewal. *)
Lemma generateKubeadmCerts_log (now : Time) (version : string) (rem : Remote R) :
  exists renewed : bool,
    sent (generateKubeadmCerts now version rem).2
    = sent rem ++ map catCmd kubeadmCerts
      ++ (if renewed then [renewCmd version] else []).
Proof.
  unfold generateKubeadmCerts.
  pose proof (kubeadmCheckAll_sent now kubeadmCerts false rem) as Hs.
  destruct (kubeadmCheckAll now kubeadmCerts false rem) as [needs rem1].
  cbn [snd] in Hs. destruct needs; cbn [negb].
  - pose proof (run_sent (renewCmd version) rem1) as Hr.
    destruct (run (renewCmd version) rem1) as [[rr e] rem2]. cbn [snd] in Hr.
    exists true. destruct e; cbn [snd]; by rewrite Hr, Hs, <- app_assoc.
  - exists false. cbn [snd]. by rewrite app_nil_r.
Qed.

(** X18.  On every exit path of [SetupCerts], the assets closed when it
    returns are the assets it has made, all of them and in the order in
    which they were made: every file it has opened is closed.  The files
    given to the copy are the first of them, in order, and each file
    asset among them was opened without error. *)
Theorem SetupCerts_closes_what_it_opens (now : Time) (walk : string -> list Visit)
        (range1 range2 : gmap string string -> list (string * string))
        (k8s : Cluster) (n : NodeId) (s : Setup R) :
  let r := SetupCerts now walk range1 range2 k8s n s in
  exists (opened : list CopyableFile) (k : nat),
    made r.2 = made s ++ opened
    /\ closed r.2 = closed s ++ opened
    /\ copies r.2 = copies s ++ take k opened
    /\ Forall (openedIn (fs (local r.2))) opened.
Proof.
  cbv zeta.
  destruct (SetupCerts_run now walk range1 range2 k8s n s)
    as (opened & k & Hma & Hcl & Hco & Hop & _).
  by exists opened, k.
Qed.

(** X19.  A command reaches the target only after every file opened has
    been copied to it: when the log of commands has grown, the files
    copied are all the files opened, and there is at least one. *)
Theorem SetupCerts_commands_after_copies (now : Time) (walk : string -> list Visit)
        (range1 range2 : gmap string string -> list (string * string))
        (k8s : Cluster) (n : NodeId) (s : Setup R) :
  let r := SetupCerts now walk range1 range2 k8s n s in
  sent (remote r.2) <> sent (remote s) ->
  exists opened : list CopyableFile,
    opened <> []
    /\ closed r.2 = closed s ++ opened
    /\ copies r.2 = copies s ++ opened
    /\ Forall (openedIn (fs (local r.2))) opened.
Proof.
  cbv zeta. intros Hsent.
  destruct (SetupCerts_run now walk range1 range2 k8s n s)
    as (opened & k & Hma & Hcl & Hco & Hop & Hcase).
  destruct Hcase as [(_ & _ & Hr)|[(_ & Hs & _)|(-> & Hpos & _)]].
  - by rewrite Hr in Hsent.
  - done.
  - exists opened. rewrite firstn_all in Hco. repeat split; try done.
    intros ->. simpl in Hpos. lia.
Qed.

(** X20.  A run that copies nothing has failed, and it leaves the target
    as it was: no command was sent to it. *)
Theorem SetupCerts_failure_before_copy (now : Time) (walk : string -> list Visit)
        (range1 range2 : gmap string string -> list (string * string))
        (k8s : Cluster) (n : NodeId) (s : Setup R) :
  let r := SetupCerts now walk range1 range2 k8s n s in
  copies r.2 = copies s ->
  r.1 <> None /\ remote r.2 = remote s.
Proof.
  cbv zeta. intros Hcopies.
  destruct (SetupCerts_run now walk range1 range2 k8s n s)
    as (opened & k & Hma & Hcl & Hco & Hop & Hcase).
  rewrite Hcopies in Hco.
  assert (take k opened = []) as Hnil.
  { apply (app_inv_head (copies s)). by rewrite app_nil_r. }
  destruct Hcase as [(Hr & _ & Hrem)|[(Hpos & _ & f & e' & Hf & _)|(-> & Hpos & _)]].
  - done.
  - apply lookup_lt_Some in Hf. apply (f_equal length) in Hnil.
    rewrite length_take in Hnil. simpl in Hnil. lia.
  - rewrite firstn_all in Hnil. rewrite Hnil in Hpos. simpl in Hpos. lia.
Qed.

(** X21.  A run without error has copied, in this order: for a
    control-plane node the API-server and proxy-client certificates with
    mode 0644 and their keys with mode 0600; the CA certificate, the CA
    key with mode 0600, the proxy-client CA certificate with mode 0644
    and its key with mode 0600, all into the certificate directory of the
    guest; one file of mode 0644 for each CA certificate collected; and,
    for a control-plane node only, the encoded kubeconfig, with mode 0644
    into the persistent directory.  The same files were closed. *)
Theorem SetupCerts_transfers (now : Time) (walk : string -> list Visit)
        (range1 range2 : gmap string string -> list (string * string))
        (k8s : Cluster) (n : NodeId) (s : Setup R) :
  let r := SetupCerts now walk range1 range2 k8s n s in
  let profilePath := Profile (ClusterName (KubernetesConfig_ (c_ClusterConfig k8s))) in
  let dir := GuestKubernetesCertsDir in
  r.1 = None ->
  exists caCerts kubeCfg data,
    collectCACerts (fs (local r.2)) walk = inl caCerts
    /\ kubeconfig_PopulateFromSettings (kubeconfigSettings n) = inl kubeCfg
    /\ runtime_Encode kubeCfg = inl data
    /\ copies r.2
       = copies s
         ++ (if ControlPlane (n_Node n)
             then [ FileAsset (Path.Join [profilePath; "apiserver.crt"])
                              dir "apiserver.crt" "0644";
                    FileAsset (Path.Join [profilePath; "apiserver.key"])
                              dir "apiserver.key" "0600";
                    FileAsset (Path.Join [profilePath; "proxy-client.crt"])
                              dir "proxy-client.crt" "0644";
                    FileAsset (Path.Join [profilePath; "proxy-client.key"])
                              dir "proxy-client.key" "0600" ]
             else [])
         ++ [ certAsset CACert;
              FileAsset (Path.Join [MiniPath; "ca.key"]) dir "ca.key" "0600";
              FileAsset (Path.Join [MiniPath; "proxy-client-ca.crt"])
                        dir "proxy-client-ca.crt" "0644";
              FileAsset (Path.Join [MiniPath; "proxy-client-ca.key"])
                        dir "proxy-client-ca.key" "0600" ]
         ++ map caAsset (range1 caCerts)
         ++ (if ControlPlane (n_Node n)
             then [MemoryAsset data GuestPersistentDir "kubeconfig" "0644"]
             else [])
    /\ exists opened, copies r.2 = copies s ++ opened
                      /\ closed r.2 = closed s ++ opened.
Proof.
  cbv zeta. intros Hok.
  destruct (SetupCerts_run now walk range1 range2 k8s n s)
    as (opened & k & Hma & Hcl & Hco & Hop & Hcase).
  destruct Hcase as [(Hr & _)|[(_ & _ & f & e' & _ & Hr)|Hcase]].
  - done.
  - by rewrite Hok in Hr.
  - destruct Hcase as (-> & _ & Hg & Hp & Hl & caCerts & kubeCfg & data
                       & Hcol & Hpop & Henc & Hshape & _).
    rewrite firstn_all in Hco.
    exists caCerts, kubeCfg, data. rewrite Hl.
    split; [done|]. split; [done|]. split; [done|].
    split; [|by exists opened].
    rewrite Hco, Hshape, (generateProfileCerts_paths _ _ _ _ _ _ Hp),
      generateSharedCACerts_paths.
    f_equal. rewrite map_app. rewrite <- app_assoc. f_equal.
    + destruct (ControlPlane (n_Node n)); [|done].
      cbn [default from_option id map]. by rewrite !certAsset_Join.
    + f_equal. cbn [map sharedCACerts caCert caKey proxyCert proxyKey].
      unfold sharedCACerts. cbn [caCert caKey proxyCert proxyKey].
      by rewrite !certAsset_Join.
Qed.

(** X22.  A run without error has sent to the target, after the copies
    and in this order: the probe for the hashing tool; for each CA
    certificate collected the commands of its links; the six reads of the
    kubeadm certificates; and at most one renewal, as the last command. *)
Theorem SetupCerts_commands (now : Time) (walk : string -> list Visit)
        (range1 range2 : gmap string string -> list (string * string))
        (k8s : Cluster) (n : NodeId) (s : Setup R) :
  let r := SetupCerts now walk range1 range2 k8s n s in
  r.1 = None ->
  exists caCerts hasSSLBinary hashes (renewed : bool),
    collectCACerts (fs (local r.2)) walk = inl caCerts
    /\ length hashes = length (range2 caCerts)
    /\ sent (remote r.2)
       = sent (remote s)
         ++ probeCmd
            :: flat_map (installCmds hasSSLBinary)
                        (zip (map snd (range2 caCerts)) hashes)
         ++ map catCmd kubeadmCerts
         ++ (if renewed then [renewCmd (KubernetesVersion k8s)] else []).
Proof.
  cbv zeta. intros Hok.
  destruct (SetupCerts_run now walk range1 range2 k8s n s)
    as (opened & k & Hma & Hcl & Hco & Hop & Hcase).
  destruct Hcase as [(Hr & _)|[(_ & _ & f & e' & _ & Hr)|Hcase]].
  - done.
  - by rewrite Hok in Hr.
  - destruct Hcase as (_ & _ & _ & _ & Hl & caCerts & _ & _ & Hcol & _ & _ & _
                       & rem3 & Hs3 & Hrem).
    cbv zeta in Hrem.
    destruct (installCertSymlinks_log (map snd (range2 caCerts)) rem3)
      as (rest & Hsent & Hrest).
    destruct (installCertSymlinks (map snd (range2 caCerts)) rem3) as [e rem4].
    cbn [fst snd] in Hrem, Hsent, Hrest.
    destruct e as [e|]; [destruct Hrem as [Hr _]; by rewrite Hok in Hr|].
    destruct Hrem as [_ Hr].
    destruct (Hrest eq_refl) as (hasSSLBinary & hashes & Hlen & ->).
    destruct (generateKubeadmCerts_log now (KubernetesVersion k8s) rem4)
      as (renewed & Hq).
    exists caCerts, hasSSLBinary, hashes, renewed. rewrite Hl.
    split; [done|]. split; [by rewrite Hlen, length_map|].
    rewrite Hr, Hq, Hsent, Hs3, <- !app_assoc. done.
Qed.

(** X23.  When files were given to the copy and no command followed,
    the run failed in the copy: its error is the error of the last file
    given to the copy, wrapped with the source path of that file. *)
Theorem SetupCerts_copy_failure (now : Time) (walk : string -> list Visit)
        (range1 range2 : gmap string string -> list (string * string))
        (k8s : Cluster) (n : NodeId) (s : Setup R) :
  let r := SetupCerts now walk range1 range2 k8s n s in
  copies r.2 <> copies s ->
  sent (remote r.2) = sent (remote s) ->
  exists pre f e',
    copies r.2 = copies s ++ pre ++ [f]
    /\ r.1 = Some (Wrap e' ("Copy " +:+ GetSourcePath f)).
Proof.
  cbv zeta. intros Hcopies Hsent.
  destruct (SetupCerts_run now walk range1 range2 k8s n s)
    as (opened & k & Hma & Hcl & Hco & Hop & Hcase).
  destruct Hcase as [(_ & -> & _)|[(Hpos & _ & f & e' & Hf & Hr)|Hcase]].
  - rewrite take_0, app_nil_r in Hco. done.
  - exists (take (k - 1) opened), f, e'. split; [|done].
    rewrite Hco. f_equal. rewrite <- (take_S_r _ _ _ Hf). f_equal. lia.
  - exfalso.
    destruct Hcase as (_ & _ & _ & _ & _ & caCerts & _ & _ & _ & _ & _ & _
                       & rem3 & Hs3 & Hrem).
    cbv zeta in Hrem.
    destruct (installCertSymlinks_log (map snd (range2 caCerts)) rem3)
      as (rest & Hlog & _).
    destruct (installCertSymlinks (map snd (range2 caCerts)) rem3) as [e rem4].
    cbn [fst snd] in Hrem, Hlog.
    assert (exists more, sent (remote (SetupCerts now walk range1 range2 k8s n s).2)
                         = sent rem4 ++ more) as (more & Hmore).
    { destruct e as [e|]; destruct Hrem as [_ ->].
      - exists []. by rewrite app_nil_r.
      - destruct (generateKubeadmCerts_log now (KubernetesVersion k8s) rem4)
          as (renewed & Hq). eexists. exact Hq. }
    rewrite Hmore, Hlog, Hs3 in Hsent. apply (f_equal length) in Hsent.
    rewrite !length_app in Hsent. simpl in Hsent. lia.
Qed.

End OrchestratorProps.


Section OrchestratorExamples.
Import Instance Deployment.

(** A first start of the control plane on a target that can be reached:
    thirteen files are copied before the first command. *)
Lemma SetupCerts_commands_after_copies_witness :
  exists opened : list CopyableFile,
    opened <> []
    /\ closed (@SetupCerts codec constants localpath hostFree guestDirs assets
                 kubeconfig target runner copier
                 100 trustWalk range range k8s master start).2 = [] ++ opened
    /\ copies (@SetupCerts codec constants localpath hostFree guestDirs assets
                 kubeconfig target runner copier
                 100 trustWalk range range k8s master start).2 = [] ++ opened
    /\ Forall (openedIn
                 (fs (local (@SetupCerts codec constants localpath hostFree guestDirs
                               assets kubeconfig target runner copier
                               100 trustWalk range range k8s master start).2)))
              opened.
Proof.
  apply (@SetupCerts_commands_after_copies codec constants localpath hostFree
           guestDirs assets kubeconfig target runner copier
           100 trustWalk range range k8s master start).
  vm_compute. discriminate.
Defined.

(** The lock on the shared CA certificates is held by another process:
    nothing is copied, and the target is left alone. *)
Lemma SetupCerts_failure_before_copy_witness :
  (@SetupCerts codec constants localpath hostLocked guestDirs assets
     kubeconfig target runner copier
     100 trustWalk range range k8s master start).1 <> None
  /\ remote (@SetupCerts codec constants localpath hostLocked guestDirs assets
               kubeconfig target runner copier
               100 trustWalk range range k8s master start).2 = remote start.
Proof.
  apply (@SetupCerts_failure_before_copy codec constants localpath hostLocked
           guestDirs assets kubeconfig target runner copier
           100 trustWalk range range k8s master start).
  vm_compute. reflexivity.
Defined.

(** The files of the first start of the control plane. *)
Lemma SetupCerts_transfers_witness :
  exists caCerts kubeCfg data,
    collectCACerts (fs (local firstStart.2)) trustWalk = inl caCerts
    /\ kubeconfig_PopulateFromSettings (kubeconfigSettings master) = inl kubeCfg
    /\ runtime_Encode kubeCfg = inl data
    /\ copies firstStart.2
       = copies start
         ++ (if ControlPlane (n_Node master)
             then [ FileAsset (Path.Join [Profile (ClusterName (KubernetesConfig_
                                            (c_ClusterConfig k8s))); "apiserver.crt"])
                              GuestKubernetesCertsDir "apiserver.crt" "0644";
                    FileAsset (Path.Join [Profile (ClusterName (KubernetesConfig_
                                            (c_ClusterConfig k8s))); "apiserver.key"])
                              GuestKubernetesCertsDir "apiserver.key" "0600";
                    FileAsset (Path.Join [Profile (ClusterName (KubernetesConfig_
                                            (c_ClusterConfig k8s))); "proxy-client.crt"])
                              GuestKubernetesCertsDir "proxy-client.crt" "0644";
                    FileAsset (Path.Join [Profile (ClusterName (KubernetesConfig_
                                            (c_ClusterConfig k8s))); "proxy-client.key"])
                              GuestKubernetesCertsDir "proxy-client.key" "0600" ]
             else [])
         ++ [ certAsset CACert;
              FileAsset (Path.Join [MiniPath; "ca.key"])
                        GuestKubernetesCertsDir "ca.key" "0600";
              FileAsset (Path.Join [MiniPath; "proxy-client-ca.crt"])
                        GuestKubernetesCertsDir "proxy-client-ca.crt" "0644";
              FileAsset (Path.Join [MiniPath; "proxy-client-ca.key"])
                        GuestKubernetesCertsDir "proxy-client-ca.key" "0600" ]
         ++ map caAsset (range caCerts)
         ++ (if ControlPlane (n_Node master)
             then [MemoryAsset data GuestPersistentDir "kubeconfig" "0644"]
             else [])
    /\ exists opened, copies firstStart.2 = copies start ++ opened
                      /\ closed firstStart.2 = closed start ++ opened.
Proof.
  refine (@SetupCerts_transfers codec constants localpath hostFree guestDirs assets
            kubeconfig target runner copier
            100 trustWalk range range k8s master start _).
  vm_compute. reflexivity.
Defined.

(** The commands of the first start of the control plane. *)
Lemma SetupCerts_commands_witness :
  exists caCerts hasSSLBinary hashes (renewed : bool),
    collectCACerts (fs (local firstStart.2)) trustWalk = inl caCerts
    /\ length hashes = length (range caCerts)
    /\ sent (remote firstStart.2)
       = sent (remote start)
         ++ probeCmd
            :: flat_map (installCmds hasSSLBinary)
                        (zip (map snd (range caCerts)) hashes)
         ++ map catCmd kubeadmCerts
         ++ (if renewed then [renewCmd (KubernetesVersion k8s)] else []).
Proof.
  refine (@SetupCerts_commands codec constants localpath hostFree guestDirs assets
            kubeconfig target runner copier
            100 trustWalk range range k8s master start _).
  vm_compute. reflexivity.
Defined.

(** The target cannot be reached: the first copy fails. *)
Lemma SetupCerts_copy_failure_witness :
  exists pre f e',
    copies (@SetupCerts codec constants localpath hostFree guestDirs assets
              kubeconfig target runner copier
              100 trustWalk range range k8s master unreachable).2
    = copies unreachable ++ pre ++ [f]
    /\ (@SetupCerts codec constants localpath hostFree guestDirs assets
          kubeconfig target runner copier
          100 trustWalk range range k8s master unreachable).1
       = Some (Wrap e' ("Copy " +:+ GetSourcePath f)).
Proof.
  refine (@SetupCerts_copy_failure codec constants localpath hostFree guestDirs
            assets kubeconfig target runner copier
            100 trustWalk range range k8s master unreachable _ _).
  - vm_compute. discriminate.
  - vm_compute. reflexivity.
Defined.

(** The traversal fails after the eight certificate files have been
    opened: they are closed, none is copied. *)
Example SetupCerts_closes_on_failure :
  let r := @SetupCerts codec constants localpath hostFree guestDirs assets
             kubeconfig target runner copier
             100 TrustStore.brokenWalk range range k8s master start in
  r.1 = Some (Wrap (External "open /home/u/.minikube/certs/private: permission denied")
                   "provisioning: traversal certificates dir /home/u/.minikube/certs")
  /\ length (made r.2) = 8%nat
  /\ closed r.2 = made r.2
  /\ copies r.2 = []
  /\ sent (remote r.2) = [].
Proof. vm_compute. repeat split; reflexivity. Qed.

(** [path.Dir] on the examples of its documentation, and the server
    address of the kubeconfig. *)
Example path_Dir_table :
  map path_Dir ["/a/b/c"; "a/b/c"; "/a/"; "a/"; "/"; ""; "/usr/share/ca-certificates/x.pem"]
  = ["/a/b"; "a/b"; "/a"; "a"; "/"; "."; "/usr/share/ca-certificates"]
  /\ s_ClusterServerAddress (kubeconfigSettings master) = "https://localhost:8443".
Proof. vm_compute. split; reflexivity. Qed.

(** A node that is no control plane gets the four CA files and the
    trust store, and no kubeconfig; no leaf certificate is made for it. *)
Example SetupCerts_worker :
  let r := @SetupCerts codec constants localpath hostFree guestDirs assets
             kubeconfig target runner copier
             100 trustWalk range range k8s second start in
  r.1 = None
  /\ map (fun a => match a with
                   | FileAsset _ _ name perms => (name, perms)
                   | MemoryAsset _ _ name perms => (name, perms)
                   end) (copies r.2)
     = [ ("ca.crt", "0644"); ("ca.key", "0600");
         ("proxy-client-ca.crt", "0644"); ("proxy-client-ca.key", "0600");
         ("root.pem", "0644"); ("corp.pem", "0644"); ("FOO.CRT.pem", "0644");
         ("minikubeCA.pem", "0644") ]
  /\ events (local r.2)
     = [ EvAcquire (@caLockSpec localpath hostFree) true;
         EvIsValid "/home/u/.minikube/ca.crt" "/home/u/.minikube/ca.key" false;
         EvGenerateCACert "/home/u/.minikube/ca.crt" "/home/u/.minikube/ca.key"
                          "minikubeCA";
         EvIsValid "/home/u/.minikube/proxy-client-ca.crt"
                   "/home/u/.minikube/proxy-client-ca.key" false;
         EvGenerateCACert "/home/u/.minikube/proxy-client-ca.crt"
                          "/home/u/.minikube/proxy-client-ca.key" "proxyClientCA";
         EvRelease (@caLockSpec localpath hostFree) ].
Proof. vm_compute. repeat split; reflexivity. Qed.

End OrchestratorExamples.
